(** * compress_io: streaming (de)compression layer of the archiver

    A shallow embedding of [src/bin/pg_dump/compress_io.c] together with
    the properties of its write session ([AllocateCompressor],
    [WriteDataToArchive], [EndCompressor]) and of its reader
    ([ReadDataFromArchive]).

    Modelling conventions.
    - The C functions run in a state-and-outcome monad [M].  The state
      ([world]) holds the archive handle, the heap of [malloc]ed blocks
      and a log of every call that leaves this file (callbacks, [ahwrite],
      codec calls).  [die_horribly] ends the run with [Die], keeping the
      state reached so far.  Undefined behaviour of C (a store outside a
      block, a dereferenced null pointer, a bad [free]) is the outcome
      [Fault].  Loops take fuel; running out of it is [Timeout].
    - [size_t] and zlib's [uInt] are unsigned: they are values of [N].
      The only subtraction of the file that is not guarded by a
      comparison is written with its 32-bit wrap-around ([uInt_sub]),
      and a [size_t] that is assigned to the [uInt] field [avail_in]
      keeps its low 32 bits ([to_uInt]).
    - [readF] is handed the address of the reader's buffer pointer: it
      may put another pointer there, and allocate and free on the way.
      A [ReadFunc] therefore works on the memory as well as on the
      handle, and the reader frees the pointer that the last call left.
    - zlib is not part of this file, and neither are [compress_io.h] and
      the archiver's [ahwrite].  They are the members of three classes
      ([Zlib], [Build], [Archiver]); what a theorem assumes of them is
      one of its hypotheses. *)

From Stdlib Require Import ZArith NArith List Bool Lia.
From Stdlib Require Import Strings.Byte.
Import ListNotations.

Local Open Scope N_scope.

(** ** Outcomes and the monad *)

(** The messages handed to [die_horribly]. *)
Inductive fatal : Type :=
| InvalidCompressionCode (compression : Z) (* "Invalid compression code: %d" *)
| NotBuiltWithZlib            (* "not built with zlib support" *)
| OutOfMemory                 (* "out of memory" *)
| CouldNotInitialize          (* "could not initialize compression library: %s" *)
| CouldNotCompress            (* "could not compress data: %s" *)
| CouldNotWrite               (* "could not write to output file: %s" *)
| CouldNotCloseStream         (* "could not close compression stream: %s" *)
| CouldNotUncompress          (* "could not uncompress data: %s" *)
| CouldNotCloseLibrary.       (* "could not close compression library: %s" *)

(** The error taxonomy of the specification, and the class of each
    message. *)
Inductive error_class : Type :=
| InvalidConfiguration | UnsupportedAlgorithm | OutOfMemoryError
| CodecInitFailure | CodecError | CodecCloseFailure | DownstreamWriteFailure.

Definition classify (e : fatal) : error_class :=
  match e with
  | InvalidCompressionCode _ => InvalidConfiguration
  | NotBuiltWithZlib => UnsupportedAlgorithm
  | OutOfMemory => OutOfMemoryError
  | CouldNotInitialize => CodecInitFailure
  | CouldNotCompress => CodecError
  | CouldNotWrite => DownstreamWriteFailure
  | CouldNotCloseStream => CodecCloseFailure
  | CouldNotUncompress => CodecError
  | CouldNotCloseLibrary => CodecCloseFailure
  end.

(** Undefined behaviour. *)
Inductive fault : Type := OutOfBounds | NullDeref | BadPointer.

Inductive outcome (A : Type) : Type :=
| Ret (a : A)
| Die (e : fatal)
| Fault (f : fault)
| Timeout.

Arguments Ret {A} a.
Arguments Die {A} e.
Arguments Fault {A} f.
Arguments Timeout {A}.

(** ** zlib's interface types *)

Inductive zret : Type :=
| Z_OK | Z_STREAM_END | Z_NEED_DICT | Z_ERRNO | Z_STREAM_ERROR
| Z_DATA_ERROR | Z_MEM_ERROR | Z_BUF_ERROR | Z_VERSION_ERROR.

Definition zret_eqb (a b : zret) : bool :=
  match a, b with
  | Z_OK, Z_OK | Z_STREAM_END, Z_STREAM_END | Z_NEED_DICT, Z_NEED_DICT
  | Z_ERRNO, Z_ERRNO | Z_STREAM_ERROR, Z_STREAM_ERROR
  | Z_DATA_ERROR, Z_DATA_ERROR | Z_MEM_ERROR, Z_MEM_ERROR
  | Z_BUF_ERROR, Z_BUF_ERROR | Z_VERSION_ERROR, Z_VERSION_ERROR => true
  | _, _ => false
  end.

Inductive zflush : Type := Z_NO_FLUSH | Z_FINISH.

(** A pointer is the number of a heap block; [NULL] is 0. *)
Definition ptr := N.
Definition NULL : ptr := 0.

(** [uInt] subtraction, with its wrap-around. *)
Definition uInt_sub (a b : N) : N := (a + 2 ^ 32 - b) mod 2 ^ 32.

(** A [size_t] assigned to a [uInt]: the low 32 bits. *)
Definition to_uInt (n : N) : N := n mod 2 ^ 32.

(** The length of [d] is a [uInt]. *)
Definition fits_uInt {A} (d : list A) : Prop := N.of_nat (length d) < 2 ^ 32.

(** [buf[i] = b]: the bytes of [buf] that were never written read as
    zero. *)
Definition poke (buf : list byte) (i : N) (b : byte) : list byte :=
  firstn (N.to_nat i) buf
    ++ repeat x00 (N.to_nat i - length buf)%nat
    ++ b :: skipn (S (N.to_nat i)) buf.

(** The enumeration of [compress_io.h].  An object of a C enumeration
    type can hold any other integer as well. *)
Inductive CompressionAlgorithm : Type :=
| COMPR_ALG_NONE
| COMPR_ALG_LIBZ
| COMPR_ALG_other (v : Z).

(** [z_stream], over zlib's [struct internal_state].  [next_in] is the
    memory [next_in] points to; [next_out] is what has been stored
    between the start of the output buffer and [next_out], so that
    pointing [next_out] back to the buffer is [next_out := []].  [state]
    is [None] until an init function has set it. *)
Record z_stream_of (internal_state : Type) : Type := mk_z_stream {
  next_in : list byte;
  avail_in : N;
  next_out : list byte;
  avail_out : N;
  state : option internal_state
}.

Arguments mk_z_stream {internal_state}.
Arguments next_in {internal_state}.
Arguments avail_in {internal_state}.
Arguments next_out {internal_state}.
Arguments avail_out {internal_state}.
Arguments state {internal_state}.

(** The entry points of zlib that the file calls. *)
Class Zlib : Type := {
  internal_state : Type;
  deflateInit : z_stream_of internal_state -> Z -> zret * z_stream_of internal_state;
  deflate : z_stream_of internal_state -> zflush -> zret * z_stream_of internal_state;
  deflateEnd : z_stream_of internal_state -> zret * z_stream_of internal_state;
  inflateInit : z_stream_of internal_state -> zret * z_stream_of internal_state;
  inflate : z_stream_of internal_state -> zflush -> zret * z_stream_of internal_state;
  inflateEnd : z_stream_of internal_state -> zret * z_stream_of internal_state
}.

(** What the file is compiled against: whether [HAVE_LIBZ] is defined,
    and the constants of [zlib.h] and [compress_io.h]. *)
Class Build : Type := {
  HAVE_LIBZ : bool;
  Z_DEFAULT_COMPRESSION : Z;
  ZLIB_OUT_SIZE : N;
  ZLIB_IN_SIZE : N;
  sizeof_z_stream : N;
  sizeof_CompressorState : N
}.

(** The archiver.  The handle is opaque to this file: it is only handed
    to the callbacks, to [ahwrite] and to [die_horribly].  The result of
    [ahwrite(ptr, size, nmemb, AH)] is not used here. *)
Class Archiver : Type := {
  ArchiveHandle : Type;
  ahwrite : list byte -> N -> N -> ArchiveHandle -> ArchiveHandle
}.

Section Model.

Context {zlib : Zlib} {build : Build} {archiver : Archiver}.

Definition z_stream : Type := z_stream_of internal_state.

Definition set_in (z : z_stream) (p : list byte) (n : N) : z_stream :=
  mk_z_stream p n (next_out z) (avail_out z) (state z).

Definition set_out (z : z_stream) (p : list byte) (n : N) : z_stream :=
  mk_z_stream (next_in z) (avail_in z) p n (state z).

(** A freshly [malloc]ed [z_stream]. *)
Definition z_stream_fresh : z_stream := mk_z_stream [] 0 [] 0 None.

(** What leaves this file. *)
Inductive event : Type :=
| Ev_writeF (buf : list byte) (len : N) (ret : N)
| Ev_readF (cnt : N) (buf : list byte)
| Ev_ahwrite (p : list byte) (size nmemb : N)
| Ev_deflate (flush : zflush) (z : z_stream) (res : zret) (z' : z_stream)
| Ev_inflate (z : z_stream) (res : zret) (z' : z_stream).

(** The heap lists the live blocks with their sizes.  [mem_budget] is
    the number of allocations that will still succeed. *)
Record world : Type := mk_world {
  AH : ArchiveHandle;
  heap : list (ptr * N);
  next_ptr : ptr;
  mem_budget : nat;
  trace : list event
}.

(** The part of it that a callback can allocate and free in. *)
Record memory : Type := mk_memory {
  m_heap : list (ptr * N);
  m_next_ptr : ptr;
  m_mem_budget : nat
}.

Definition M (A : Type) : Type := world -> outcome A * world.

Definition ret {A} (a : A) : M A := fun w => (Ret a, w).

Definition bind {A B} (m : M A) (f : A -> M B) : M B :=
  fun w =>
    match m w with
    | (Ret a, w') => f a w'
    | (Die e, w') => (Die e, w')
    | (Fault f, w') => (Fault f, w')
    | (Timeout, w') => (Timeout, w')
    end.

Definition die_horribly {A} (e : fatal) : M A := fun w => (Die e, w).
Definition undefined {A} (f : fault) : M A := fun w => (Fault f, w).
Definition out_of_fuel {A} : M A := fun w => (Timeout, w).

Definition log (e : event) : M unit :=
  fun w => (Ret tt,
            mk_world (AH w) (heap w) (next_ptr w) (mem_budget w) (trace w ++ [e])).

Definition with_AH {A} (f : ArchiveHandle -> A * ArchiveHandle) : M A :=
  fun w =>
    let (a, ah) := f (AH w) in
    (Ret a, mk_world ah (heap w) (next_ptr w) (mem_budget w) (trace w)).

Definition with_memory {A}
  (f : ArchiveHandle -> memory -> A * ArchiveHandle * memory) : M A :=
  fun w =>
    let '(a, ah, m) :=
      f (AH w) (mk_memory (heap w) (next_ptr w) (mem_budget w)) in
    (Ret a, mk_world ah (m_heap m) (m_next_ptr m) (m_mem_budget m) (trace w)).

Notation "x <- m ;; k" := (bind m (fun x => k))
  (at level 61, m at next level, right associativity).
Notation "m ;;; k" := (bind m (fun _ => k))
  (at level 61, right associativity).

(** *** The heap *)

Fixpoint heap_size (h : list (ptr * N)) (p : ptr) : option N :=
  match h with
  | [] => None
  | (q, sz) :: h' => if q =? p then Some sz else heap_size h' p
  end.

Fixpoint heap_remove (h : list (ptr * N)) (p : ptr) : list (ptr * N) :=
  match h with
  | [] => []
  | (q, sz) :: h' =>
      if q =? p then heap_remove h' p else (q, sz) :: heap_remove h' p
  end.

(** The size of the live block at [p]; there is none at [NULL]. *)
Definition block_size (w : world) (p : ptr) : option N :=
  if p =? NULL then None else heap_size (heap w) p.

Definition live (w : world) (p : ptr) : bool :=
  match block_size w p with Some _ => true | None => false end.

(** [malloc(size)] and [calloc(1, size)]: a fresh block, or [NULL]. *)
Definition malloc (size : N) : M ptr :=
  fun w =>
    match mem_budget w with
    | O => (Ret NULL, w)
    | S b =>
        let p := N.succ (next_ptr w) in
        (Ret p, mk_world (AH w) ((p, size) :: heap w) p b (trace w))
    end.

(** [free(p)]. *)
Definition free (p : ptr) : M unit :=
  fun w =>
    if p =? NULL then (Ret tt, w)
    else if live w p
    then (Ret tt, mk_world (AH w) (heap_remove (heap w) p) (next_ptr w)
                           (mem_budget w) (trace w))
    else (Fault BadPointer, w).

(** [p[i] = b], for a buffer [p] whose contents are [buf]. *)
Definition store (p : ptr) (buf : list byte) (i : N) (b : byte)
  : M (list byte) :=
  fun w =>
    match block_size w p with
    | None => (Fault BadPointer, w)
    | Some sz => if i <? sz then (Ret (poke buf i b), w)
                 else (Fault OutOfBounds, w)
    end.

(** *** Callbacks and the compressor context *)

(** [WriteFunc]: called with the handle, a buffer and a length, it
    returns the number of bytes written. *)
Definition WriteFunc : Type :=
  ArchiveHandle -> list byte -> N -> N * ArchiveHandle.

(** [ReadFunc]: called with the handle and with the addresses of a
    buffer pointer and of a length, it returns the count.  A buffer is
    its pointer with the bytes the pointer points to.  The buffer and
    the length that the call leaves at the two addresses are part of the
    result, and so is the memory, in which the call may have freed the
    buffer it was given and allocated another. *)
Definition ReadFunc : Type :=
  ArchiveHandle -> memory -> ptr * list byte -> N ->
  (N * (ptr * list byte) * N) * ArchiveHandle * memory.

(** [struct CompressorState].  [addr] is where the structure itself
    lives; [zp] is [None] for a null pointer and otherwise the address
    of the stream with its contents.  The contents of [zlibOut] are the
    [next_out] of the stream. *)
Record CompressorState : Type := mk_CompressorState {
  addr : ptr;
  writeF : WriteFunc;
  comprAlg : CompressionAlgorithm;
  zp : option (ptr * z_stream);
  zlibOut : ptr;
  zlibOutSize : N
}.

Definition set_zp (cs : CompressorState) (z : z_stream) : CompressorState :=
  mk_CompressorState (addr cs) (writeF cs) (comprAlg cs)
    (match zp cs with Some (a, _) => Some (a, z) | None => None end)
    (zlibOut cs) (zlibOutSize cs).

(** The pointer [cs->zp]. *)
Definition zp_addr (cs : CompressorState) : ptr :=
  match zp cs with Some (a, _) => a | None => NULL end.

(** [*cs->zp] *)
Definition deref_zp (cs : CompressorState) : M z_stream :=
  match zp cs with
  | Some (_, z) => ret z
  | None => undefined NullDeref
  end.

(** *** Calls that leave the file, each one logged *)

Definition call_writeF (f : WriteFunc) (buf : list byte) (len : N) : M N :=
  n <- with_AH (fun ah => f ah buf len) ;;
  log (Ev_writeF buf len n) ;;;
  ret n.

Definition call_readF (f : ReadFunc) (buf : ptr * list byte) (buflen : N)
  : M (N * (ptr * list byte) * N) :=
  r <- with_memory (fun ah m => f ah m buf buflen) ;;
  log (Ev_readF (fst (fst r)) (snd (snd (fst r)))) ;;;
  ret r.

Definition call_ahwrite (p : list byte) (size nmemb : N) : M unit :=
  with_AH (fun ah => (tt, ahwrite p size nmemb ah)) ;;;
  log (Ev_ahwrite p size nmemb).

Definition call_deflate (z : z_stream) (flush : zflush) : M (zret * z_stream) :=
  let r := deflate z flush in
  log (Ev_deflate flush z (fst r) (snd r)) ;;;
  ret r.

Definition call_inflate (z : z_stream) (flush : zflush) : M (zret * z_stream) :=
  let r := inflate z flush in
  log (Ev_inflate z (fst r) (snd r)) ;;;
  ret r.

(** ** The functions of compress_io.c *)

(** [ParseCompressionOption(compression, &alg, level)]; [want_level]
    says that [level] is not null. *)
Definition ParseCompressionOption (compression : Z) (want_level : bool)
  : M (CompressionAlgorithm * option Z) :=
  alg <- (if (compression =? Z_DEFAULT_COMPRESSION)%Z
             || ((0 <? compression)%Z && (compression <=? 9)%Z)
          then ret COMPR_ALG_LIBZ
          else if (compression =? 0)%Z
          then ret COMPR_ALG_NONE
          else die_horribly (InvalidCompressionCode compression)) ;;
  (* The level is just the passed-in value. *)
  ret (alg, if want_level then Some compression else None).

Definition is_LIBZ (alg : CompressionAlgorithm) : bool :=
  match alg with COMPR_ALG_LIBZ => true | _ => false end.

Definition is_NONE (alg : CompressionAlgorithm) : bool :=
  match alg with COMPR_ALG_NONE => true | _ => false end.

Definition InitCompressorZlib (cs : CompressorState) (level : Z)
  : M CompressorState :=
  p <- malloc sizeof_z_stream ;;
  (if p =? NULL then die_horribly OutOfMemory else ret tt) ;;;
  (* zlibOutSize is the buffer size we tell zlib it can output to; one
     extra byte is allocated for a trailing zero byte. *)
  o <- malloc (ZLIB_OUT_SIZE + 1) ;;
  (if o =? NULL then die_horribly OutOfMemory else ret tt) ;;;
  let (r, z) := deflateInit z_stream_fresh level in
  (if negb (zret_eqb r Z_OK) then die_horribly CouldNotInitialize else ret tt) ;;;
  (* Just be paranoid - maybe End is called after Start, with no Write *)
  ret (mk_CompressorState (addr cs) (writeF cs) (comprAlg cs)
         (Some (p, set_out z [] ZLIB_OUT_SIZE)) o ZLIB_OUT_SIZE).

(** The body of the loop of [DeflateCompressorZlib]: the second
    component of the result says that the loop is left by [break]. *)
Definition DeflateCompressorZlib_body (cs : CompressorState) (flush : bool)
  : M (CompressorState * bool) :=
  z <- deref_zp cs ;;
  r <- call_deflate z (if flush then Z_FINISH else Z_NO_FLUSH) ;;
  let (res, z) := r in
  (if zret_eqb res Z_STREAM_ERROR then die_horribly CouldNotCompress else ret tt) ;;;
  z <- (if (flush && (avail_out z <? zlibOutSize cs))
           || (avail_out z =? 0)
           || negb (avail_in z =? 0)
        then
          (* Extra paranoia: avoid zero-length chunks, since a zero length
             chunk is the EOF marker in the custom format. *)
          (if avail_out z <? zlibOutSize cs
           then
             let len := zlibOutSize cs - avail_out z in
             n <- call_writeF (writeF cs) (next_out z) len ;;
             if negb (n =? len) then die_horribly CouldNotWrite else ret tt
           else ret tt) ;;;
          ret (set_out z [] (zlibOutSize cs))
        else ret z) ;;
  ret (set_zp cs z, zret_eqb res Z_STREAM_END).

Fixpoint DeflateCompressorZlib (fuel : nat) (cs : CompressorState)
  (flush : bool) : M CompressorState :=
  z <- deref_zp cs ;;
  if negb (avail_in z =? 0) || flush
  then
    match fuel with
    | O => out_of_fuel
    | S fuel' =>
        r <- DeflateCompressorZlib_body cs flush ;;
        let (cs', stop) := r in
        if stop then ret cs' else DeflateCompressorZlib fuel' cs' flush
    end
  else ret cs.

Definition WriteDataToArchiveZlib (fuel : nat) (cs : CompressorState)
  (data : list byte) (dLen : N) : M (N * CompressorState) :=
  z <- deref_zp cs ;;
  cs <- DeflateCompressorZlib fuel (set_zp cs (set_in z data (to_uInt dLen)))
          false ;;
  (* we have either succeeded in writing dLen bytes or we have called
     die_horribly() *)
  ret (dLen, cs).

Definition EndCompressorZlib (fuel : nat) (cs : CompressorState) : M unit :=
  z <- deref_zp cs ;;
  (* Flush any remaining data from zlib buffer *)
  cs <- DeflateCompressorZlib fuel (set_zp cs (set_in z [] 0)) true ;;
  z <- deref_zp cs ;;
  (if negb (zret_eqb (fst (deflateEnd z)) Z_OK)
   then die_horribly CouldNotCloseStream else ret tt) ;;;
  free (zlibOut cs) ;;;
  free (zp_addr cs).

Definition WriteDataToArchiveNone (cs : CompressorState)
  (data : list byte) (dLen : N) : M (N * CompressorState) :=
  n <- call_writeF (writeF cs) data dLen ;;
  (if negb (n =? dLen) then die_horribly CouldNotWrite else ret tt) ;;;
  ret (dLen, cs).

(** Allocate a new compressor *)
Definition AllocateCompressor (compression : Z) (writeF : WriteFunc)
  : M CompressorState :=
  r <- ParseCompressionOption compression true ;;
  let alg := fst r in
  let level := match snd r with Some l => l | None => 0%Z end in
  (if negb HAVE_LIBZ && is_LIBZ alg
   then die_horribly NotBuiltWithZlib else ret tt) ;;;
  p <- malloc sizeof_CompressorState ;;
  (if p =? NULL then die_horribly OutOfMemory else ret tt) ;;;
  let cs := mk_CompressorState p writeF alg None NULL 0 in
  (* Perform compression algorithm specific initialization. *)
  if HAVE_LIBZ && is_LIBZ alg then InitCompressorZlib cs level else ret cs.

(** Compress and write data to the output stream (via writeF). *)
Definition WriteDataToArchive (fuel : nat) (cs : CompressorState)
  (data : list byte) (dLen : N) : M (N * CompressorState) :=
  match comprAlg cs with
  | COMPR_ALG_LIBZ =>
      if HAVE_LIBZ then WriteDataToArchiveZlib fuel cs data dLen
      else die_horribly NotBuiltWithZlib
  | COMPR_ALG_NONE => WriteDataToArchiveNone cs data dLen
  | COMPR_ALG_other _ => ret (0, cs) (* keep compiler quiet *)
  end.

(** Terminate compression library context and flush its buffers. *)
Definition EndCompressor (fuel : nat) (cs : CompressorState) : M unit :=
  (if HAVE_LIBZ && is_LIBZ (comprAlg cs)
   then EndCompressorZlib fuel cs else ret tt) ;;;
  free (addr cs).

(** *** Reading *)

(** The statements that both the inner loop and the last loop of
    [ReadDataFromArchiveZlib] run: point the stream at the output
    buffer, inflate, end it with a zero byte and pass it on. *)
Definition inflate_to_ahwrite (out : ptr) (z : z_stream)
  : M (zret * z_stream) :=
  r <- call_inflate (set_out z [] ZLIB_OUT_SIZE) Z_NO_FLUSH ;;
  let (res, z) := r in
  (if negb (zret_eqb res Z_OK) && negb (zret_eqb res Z_STREAM_END)
   then die_horribly CouldNotUncompress else ret tt) ;;;
  let n := uInt_sub ZLIB_OUT_SIZE (avail_out z) in
  buf <- store out (next_out z) n x00 ;;
  call_ahwrite buf 1 n ;;;
  ret (res, z).

(** [while (zp->avail_in > 0)] *)
Fixpoint inflate_chunk (fuel : nat) (out : ptr) (res : zret) (z : z_stream)
  : M (zret * z_stream) :=
  if 0 <? avail_in z
  then
    match fuel with
    | O => out_of_fuel
    | S fuel' =>
        r <- inflate_to_ahwrite out z ;;
        inflate_chunk fuel' out (fst r) (snd r)
    end
  else ret (res, z).

(** [while ((cnt = readF(AH, &buf, &buflen)))]: the result is the
    buffer pointer as the last [readF] left it, with the result of the
    last [inflate] and the stream. *)
Fixpoint inflate_chunks (fuel : nat) (readF : ReadFunc) (out : ptr)
  (buf : ptr * list byte) (buflen : N) (res : zret) (z : z_stream)
  : M (ptr * (zret * z_stream)) :=
  match fuel with
  | O => out_of_fuel
  | S fuel' =>
      r <- call_readF readF buf buflen ;;
      let '(cnt, buf, buflen) := r in
      if negb (cnt =? 0)
      then
        r <- inflate_chunk fuel' out res (set_in z (snd buf) (to_uInt cnt)) ;;
        inflate_chunks fuel' readF out buf buflen (fst r) (snd r)
      else ret (fst buf, (res, z))
  end.

(** [while (res != Z_STREAM_END)] *)
Fixpoint inflate_drain (fuel : nat) (out : ptr) (res : zret) (z : z_stream)
  : M (zret * z_stream) :=
  if negb (zret_eqb res Z_STREAM_END)
  then
    match fuel with
    | O => out_of_fuel
    | S fuel' =>
        r <- inflate_to_ahwrite out z ;;
        inflate_drain fuel' out (fst r) (snd r)
    end
  else ret (res, z).

Definition ReadDataFromArchiveZlib (fuel : nat) (readF : ReadFunc) : M unit :=
  p <- malloc sizeof_z_stream ;;
  (if p =? NULL then die_horribly OutOfMemory else ret tt) ;;;
  b <- malloc ZLIB_IN_SIZE ;;
  (if b =? NULL then die_horribly OutOfMemory else ret tt) ;;;
  out <- malloc (ZLIB_OUT_SIZE + 1) ;;
  (if out =? NULL then die_horribly OutOfMemory else ret tt) ;;;
  let (r, z) := inflateInit z_stream_fresh in
  (if negb (zret_eqb r Z_OK) then die_horribly CouldNotInitialize else ret tt) ;;;
  (* no minimal chunk size for zlib *)
  r <- inflate_chunks fuel readF out (b, []) ZLIB_IN_SIZE Z_OK z ;;
  let (buf, r) := r in
  r <- inflate_drain fuel out (fst r) (set_in (snd r) [] 0) ;;
  (if negb (zret_eqb (fst (inflateEnd (snd r))) Z_OK)
   then die_horribly CouldNotCloseLibrary else ret tt) ;;;
  free buf ;;;
  free out ;;;
  free p.

(** [while ((cnt = readF(AH, &buf, &buflen))) ahwrite(buf, 1, cnt, AH);]:
    the result is the buffer pointer as the last [readF] left it. *)
Fixpoint copy_chunks (fuel : nat) (readF : ReadFunc) (buf : ptr * list byte)
  (buflen : N) : M ptr :=
  match fuel with
  | O => out_of_fuel
  | S fuel' =>
      r <- call_readF readF buf buflen ;;
      let '(cnt, buf, buflen) := r in
      if negb (cnt =? 0)
      then call_ahwrite (snd buf) 1 cnt ;;; copy_chunks fuel' readF buf buflen
      else ret (fst buf)
  end.

Definition ReadDataFromArchiveNone (fuel : nat) (readF : ReadFunc) : M unit :=
  b <- malloc ZLIB_OUT_SIZE ;;
  (if b =? NULL then die_horribly OutOfMemory else ret tt) ;;;
  buf <- copy_chunks fuel readF (b, []) ZLIB_OUT_SIZE ;;
  free buf.

(** Read all compressed data from the input stream (via readF) and print
    it out with ahwrite(). *)
Definition ReadDataFromArchive (fuel : nat) (compression : Z)
  (readF : ReadFunc) : M unit :=
  r <- ParseCompressionOption compression false ;;
  let alg := fst r in
  (if is_NONE alg then ReadDataFromArchiveNone fuel readF else ret tt) ;;;
  if is_LIBZ alg
  then if HAVE_LIBZ then ReadDataFromArchiveZlib fuel readF
       else die_horribly NotBuiltWithZlib
  else ret tt.

End Model.

Notation "x <- m ;; k" := (bind m (fun x => k))
  (at level 61, m at next level, right associativity).
Notation "m ;;; k" := (bind m (fun _ => k))
  (at level 61, right associativity).

(** ** Sessions and what is said about their logs *)

Section Sessions.

Context {zlib : Zlib} {build : Build} {archiver : Archiver}.

(** The hints that select Deflate. *)
Definition selects_Deflate (compression : Z) : Prop :=
  compression = Z_DEFAULT_COMPRESSION \/ (1 <= compression <= 9)%Z.

(** One [WriteDataToArchive] per element of [datas]. *)
Fixpoint write_all (fuel : nat) (cs : CompressorState)
  (datas : list (list byte)) : M CompressorState :=
  match datas with
  | [] => ret cs
  | data :: datas' =>
      r <- WriteDataToArchive fuel cs data (N.of_nat (length data)) ;;
      write_all fuel (snd r) datas'
  end.

(** A whole write session. *)
Definition WriteSession (fuel : nat) (compression : Z) (wF : WriteFunc)
  (datas : list (list byte)) : M unit :=
  cs <- AllocateCompressor compression wF ;;
  cs <- write_all fuel cs datas ;;
  EndCompressor fuel cs.

(** [writeF] is handed at least one byte. *)
Definition nonempty_write (e : event) : Prop :=
  match e with
  | Ev_writeF _ len _ => 1 <= len
  | _ => True
  end.

(** The result of the last [deflate] of a log. *)
Fixpoint last_deflate (tr : list event) (r : option zret) : option zret :=
  match tr with
  | [] => r
  | Ev_deflate _ _ res _ :: tr' => last_deflate tr' (Some res)
  | _ :: tr' => last_deflate tr' r
  end.

(** The result of an [inflate] that the reader accepts. *)
Definition inflate_ok (res : zret) : bool :=
  zret_eqb res Z_OK || zret_eqb res Z_STREAM_END.

(** Some [inflate] of the log gave a result that is not accepted. *)
Fixpoint inflate_failed (tr : list event) : bool :=
  match tr with
  | [] => false
  | Ev_inflate _ res _ :: tr' => negb (inflate_ok res) || inflate_failed tr'
  | _ :: tr' => inflate_failed tr'
  end.

(** The log of a run of [inflate] calls on no new input: call [k+1]
    is given the stream that call [k] left, pointed at the start of the
    output buffer, and what a call stored is passed to [ahwrite] right
    after it.  [rs] are the results of the calls. *)
Fixpoint drain_log (z : z_stream) (rs : list zret) : list event :=
  match rs with
  | [] => []
  | r :: rs' =>
      let z0 := set_out z [] ZLIB_OUT_SIZE in
      let z' := snd (inflate z0 Z_NO_FLUSH) in
      let n := uInt_sub ZLIB_OUT_SIZE (avail_out z') in
      Ev_inflate z0 r z'
        :: (if inflate_ok r
            then Ev_ahwrite (poke (next_out z') n x00) 1 n :: drain_log z' rs'
            else [])
  end.

(** The results of the calls that the last loop makes when it is
    entered with fuel [n], after a last result [res] and with the stream
    [z]: the codec is run on no input until it gives [Z_STREAM_END] or
    a result that is not accepted. *)
Fixpoint drain_calls (n : nat) (res : zret) (z : z_stream) : list zret :=
  if zret_eqb res Z_STREAM_END then []
  else
    match n with
    | O => []
    | S n' =>
        let r := inflate (set_out z [] ZLIB_OUT_SIZE) Z_NO_FLUSH in
        fst r :: (if inflate_ok (fst r)
                  then drain_calls n' (fst r) (snd r) else [])
    end.

(** The result of the last [inflate] of a log, or [r]. *)
Fixpoint last_inflate (tr : list event) (r : zret) : zret :=
  match tr with
  | [] => r
  | Ev_inflate _ res _ :: tr' => last_inflate tr' res
  | _ :: tr' => last_inflate tr' r
  end.

(** The stream that the last [inflate] of a log left, or [z]. *)
Fixpoint last_stream (tr : list event) (z : z_stream) : z_stream :=
  match tr with
  | [] => z
  | Ev_inflate _ _ z' :: tr' => last_stream tr' z'
  | _ :: tr' => last_stream tr' z
  end.

(** The stream that the last loop starts on, when [pre] is the log of
    the chunks: the stream that the last [inflate] left, or else the
    one that [inflateInit] made, with no input. *)
Definition stream_at_eof (pre : list event) : z_stream :=
  set_in (last_stream pre (snd (inflateInit z_stream_fresh))) [] 0.

(** The outcome is a death with message [e]. *)
Definition died_with {A} (e : fatal) (o : outcome A) : Prop :=
  match o with Die e' => e' = e | _ => False end.

(** A computation dies of a failed decompression exactly when its log
    has an [inflate] whose result is not accepted. *)
Definition dies_of_inflate {A} (m : M A) : Prop :=
  forall w, exists tr,
    trace (snd (m w)) = trace w ++ tr
    /\ (inflate_failed tr = true <-> died_with CouldNotUncompress (fst (m w))).

(** [deflate] gave [Z_STREAM_ERROR]. *)
Definition failed_deflate (e : event) : bool :=
  match e with
  | Ev_deflate _ _ res _ => zret_eqb res Z_STREAM_ERROR
  | _ => false
  end.

(** [writeF] took less, or more, than it was given. *)
Definition failed_write (e : event) : bool :=
  match e with
  | Ev_writeF _ len n => negb (n =? len)
  | _ => false
  end.

(** A computation dies with the message [e] exactly when its log has
    an event that [bad] marks. *)
Definition dies_when (bad : event -> bool) (e : fatal) {A} (m : M A) : Prop :=
  forall w, exists tr,
    trace (snd (m w)) = trace w ++ tr
    /\ (existsb bad tr = true <-> fst (m w) = Die e).

(** A computation takes every world to one that is [R]-related to it,
    whatever its outcome. *)
Definition preserves (R : world -> world -> Prop) {A} (m : M A) : Prop :=
  forall w, R w (snd (m w)).

(** The log grows by events that all satisfy [P]. *)
Definition emits (P : event -> Prop) (w w' : world) : Prop :=
  exists tr, trace w' = trace w ++ tr /\ Forall P tr.

(** Two contexts that differ at most in the contents of their stream. *)
Definition same_context (cs cs' : CompressorState) : Prop :=
  exists z, cs' = set_zp cs z.


(** On the heap [h], a computation has no undefined behaviour and
    leaves the heap as it is. *)
Definition steady (h : list (ptr * N)) {A} (m : M A) : Prop :=
  forall w, heap w = h ->
    (forall f, fst (m w) <> Fault f) /\ heap (snd (m w)) = h.

(** [inflate] never gives back more room for output than it was
    given. *)
Definition inflate_keeps_room : Prop :=
  forall z fl, avail_out (snd (inflate z fl)) <= avail_out z.

(** The heap [h] without the block [buf] is [rest], and [buf] is a
    block of [h]. *)
Definition buffer_in (rest h : list (ptr * N)) (buf : ptr) : Prop :=
  buf <> NULL /\ heap_size h buf <> None /\ heap_remove h buf = rest.

(** A [readF] that works on the handle and on the bytes of the buffer
    alone: it leaves the buffer pointer and the memory as they are. *)
Definition in_place
  (f : ArchiveHandle -> list byte -> N -> (N * list byte * N) * ArchiveHandle)
  : ReadFunc :=
  fun ah m buf buflen =>
    let r := f ah (snd buf) buflen in
    ((fst (fst (fst r)), (fst buf, snd (fst (fst r))), snd (fst r)),
     snd r, m).

(** [readF] keeps to its buffer: called with a buffer that is a block,
    it leaves a buffer that is a block (the same, or another in its
    place), and every other block as it was. *)
Definition keeps_to_its_buffer (rF : ReadFunc) : Prop :=
  forall ah m buf buflen,
    buffer_in (heap_remove (m_heap m) (fst buf)) (m_heap m) (fst buf) ->
    buffer_in (heap_remove (m_heap m) (fst buf))
      (m_heap (snd (rF ah m buf buflen)))
      (fst (snd (fst (fst (fst (rF ah m buf buflen)))))).

(** What is handed to [ahwrite] fits the room that [inflate] was told
    of. *)
Definition span_in_bounds (e : event) : Prop :=
  match e with
  | Ev_ahwrite _ _ nmemb => nmemb <= ZLIB_OUT_SIZE
  | _ => True
  end.

(** From some amount of fuel on, the computation returns, always with
    the same result and world, which satisfy [Q]. *)
Definition settles {A} (F : nat -> M A) (w : world)
  (Q : A -> world -> Prop) : Prop :=
  exists a w', Q a w' /\ exists f0, forall f, (f0 <= f)%nat ->
                                    F f w = (Ret a, w').

(** A computation dies with the messages of [S] only. *)
Definition dies_in (S : fatal -> Prop) {A} (m : M A) : Prop :=
  forall w e w', m w = (Die e, w') -> S e.

(** The messages of a failed write or flush. *)
Definition write_failure (e : fatal) : Prop :=
  e = CouldNotCompress \/ e = CouldNotWrite.

(** The heap is the same. *)
Definition same_heap (w w' : world) : Prop := heap w' = heap w.

End Sessions.

(** ** A test bench: a small codec and an archiver that records *)

Module Bench.

(** The codec writes every input byte [b] as [x01 b] and ends the
    stream with [x00]; it takes in at most one byte per call and keeps
    what does not fit in the output buffer for the next call. *)
Inductive mode : Type := Deflating | Deflated | WantTag | WantByte | Ended.

Record codec_state : Type := mk_codec_state {
  pending : list byte;
  phase : mode
}.

Definition zs : Type := z_stream_of codec_state.

(** Store as much of [p] as the output buffer takes. *)
Definition emit (z : zs) (p : list byte) (m : mode) : zs :=
  let k := N.min (N.of_nat (length p)) (avail_out z) in
  mk_z_stream (next_in z) (avail_in z)
    (next_out z ++ firstn (N.to_nat k) p) (avail_out z - k)
    (Some (mk_codec_state (skipn (N.to_nat k) p) m)).

(** Take one byte of input. *)
Definition advance (z : zs) : zs :=
  mk_z_stream (tl (next_in z)) (avail_in z - 1) (next_out z) (avail_out z)
    (state z).

Definition left_over (z : zs) : list byte :=
  match state z with Some st => pending st | None => [] end.

Definition is_nil {A} (l : list A) : bool :=
  match l with [] => true | _ => false end.

Definition bench_deflateInit (z : zs) (level : Z) : zret * zs :=
  if ((-1 <=? level) && (level <=? 9))%Z
  then (Z_OK, mk_z_stream (next_in z) (avail_in z) (next_out z) (avail_out z)
                (Some (mk_codec_state [] Deflating)))
  else (Z_STREAM_ERROR, z).

Definition bench_deflate (z : zs) (flush : zflush) : zret * zs :=
  match state z with
  | Some (mk_codec_state p Deflating) =>
      if avail_in z =? 0
      then match flush with
           | Z_FINISH =>
               let z' := emit z (p ++ [x00]) Deflated in
               (if is_nil (left_over z') then Z_STREAM_END else Z_OK, z')
           | Z_NO_FLUSH =>
               let z' := emit z p Deflating in
               (if N.of_nat (length (left_over z')) <? N.of_nat (length p)
                then Z_OK else Z_BUF_ERROR, z')
           end
      else (Z_OK, emit (advance z) (p ++ [x01; hd x00 (next_in z)]) Deflating)
  | Some (mk_codec_state p Deflated) =>
      let z' := emit z p Deflated in
      (if is_nil (left_over z') then Z_STREAM_END
       else if N.of_nat (length (left_over z')) <? N.of_nat (length p)
       then Z_OK else Z_BUF_ERROR, z')
  | _ => (Z_STREAM_ERROR, z)
  end.

Definition bench_deflateEnd (z : zs) : zret * zs :=
  match state z with
  | Some (mk_codec_state [] Deflated) =>
      (Z_OK, mk_z_stream (next_in z) (avail_in z) (next_out z) (avail_out z) None)
  | Some _ =>
      (Z_DATA_ERROR, mk_z_stream (next_in z) (avail_in z) (next_out z) (avail_out z) None)
  | None => (Z_STREAM_ERROR, z)
  end.

Definition bench_inflateInit (z : zs) : zret * zs :=
  (Z_OK, mk_z_stream (next_in z) (avail_in z) (next_out z) (avail_out z)
           (Some (mk_codec_state [] WantTag))).

(** A call that takes no input. *)
Definition flush_only (z : zs) (p : list byte) (m : mode) : zret * zs :=
  let z' := emit z p m in
  (if N.of_nat (length (left_over z')) <? N.of_nat (length p)
   then Z_OK else Z_BUF_ERROR, z').

Definition bench_inflate (z : zs) (flush : zflush) : zret * zs :=
  match state z with
  | Some (mk_codec_state p Ended) =>
      let z' := emit z p Ended in
      (if is_nil (left_over z') then Z_STREAM_END else Z_OK, z')
  | Some (mk_codec_state p WantTag) =>
      if avail_in z =? 0 then flush_only z p WantTag
      else
        let b := hd x00 (next_in z) in
        if Byte.eqb b x01 then (Z_OK, emit (advance z) p WantByte)
        else if Byte.eqb b x00
        then let z' := emit (advance z) p Ended in
             (if is_nil (left_over z') then Z_STREAM_END else Z_OK, z')
        else (Z_DATA_ERROR, z)
  | Some (mk_codec_state p WantByte) =>
      if avail_in z =? 0 then flush_only z p WantByte
      else (Z_OK, emit (advance z) (p ++ [hd x00 (next_in z)]) WantTag)
  | _ => (Z_STREAM_ERROR, z)
  end.

Definition bench_inflateEnd (z : zs) : zret * zs :=
  match state z with
  | Some _ =>
      (Z_OK, mk_z_stream (next_in z) (avail_in z) (next_out z) (avail_out z) None)
  | None => (Z_STREAM_ERROR, z)
  end.


Definition codec : Zlib := {|
  internal_state := codec_state;
  deflateInit := bench_deflateInit;
  deflate := bench_deflate;
  deflateEnd := bench_deflateEnd;
  inflateInit := bench_inflateInit;
  inflate := bench_inflate;
  inflateEnd := bench_inflateEnd
|}.

(** A codec that holds back what it is given: [late_inflate] takes in
    all of its input and stores nothing, and gives out what it holds,
    as much as the output buffer takes, when it is called on no
    input. *)
Definition late_inflate (z : zs) (flush : zflush) : zret * zs :=
  match state z with
  | Some (mk_codec_state p m) =>
      if avail_in z =? 0
      then let z' := emit z p Ended in
           (if is_nil (left_over z') then Z_STREAM_END else Z_OK, z')
      else (Z_OK,
            mk_z_stream (skipn (N.to_nat (avail_in z)) (next_in z)) 0
              (next_out z) (avail_out z)
              (Some (mk_codec_state
                       (p ++ firstn (N.to_nat (avail_in z)) (next_in z))
                       WantTag)))
  | None => (Z_STREAM_ERROR, z)
  end.

Definition late_codec : Zlib := {|
  internal_state := codec_state;
  deflateInit := bench_deflateInit;
  deflate := bench_deflate;
  deflateEnd := bench_deflateEnd;
  inflateInit := bench_inflateInit;
  inflate := late_inflate;
  inflateEnd := bench_inflateEnd
|}.

(** A codec whose [deflateEnd] fails. *)
Definition stubborn_deflateEnd (z : zs) : zret * zs := (Z_STREAM_ERROR, z).

Definition stubborn_codec : Zlib := {|
  internal_state := codec_state;
  deflateInit := bench_deflateInit;
  deflate := bench_deflate;
  deflateEnd := stubborn_deflateEnd;
  inflateInit := bench_inflateInit;
  inflate := bench_inflate;
  inflateEnd := bench_inflateEnd
|}.

(** A build with or without zlib, with output buffers of [out_size]
    bytes. *)
Definition a_build (have_libz : bool) (out_size : N) : Build := {|
  HAVE_LIBZ := have_libz;
  Z_DEFAULT_COMPRESSION := (-1)%Z;
  ZLIB_OUT_SIZE := out_size;
  ZLIB_IN_SIZE := 4;
  sizeof_z_stream := 112;
  sizeof_CompressorState := 40
|}.

(** The handle records the chunks it was given to write, holds the
    chunks it will hand to a reader, and collects what [ahwrite] is
    given. *)
Record Handle : Type := mk_Handle {
  written : list (list byte);
  to_read : list (list byte);
  sink : list byte
}.

Definition recorder : Archiver := {|
  ArchiveHandle := Handle;
  ahwrite := fun p size nmemb h =>
    mk_Handle (written h) (to_read h)
      (sink h ++ firstn (N.to_nat (size * nmemb)) p)
|}.

End Bench.

Section Callbacks.

Context {zlib : Zlib} {build : Build}.
#[local] Existing Instance Bench.recorder.

(** [collect]: a [WriteFunc] that keeps every chunk. *)
Definition collect : WriteFunc :=
  fun h buf len =>
    (len, Bench.mk_Handle (Bench.written h ++ [firstn (N.to_nat len) buf])
            (Bench.to_read h) (Bench.sink h)).

(** A [WriteFunc] that writes nothing. *)
Definition write_nothing : WriteFunc := fun h buf len => (0, h).

(** [feed]: a [ReadFunc] that hands out the chunks of the handle one
    by one, and then 0; it keeps the buffer it is given. *)
Definition feed : ReadFunc :=
  fun h m buf buflen =>
    match Bench.to_read h with
    | [] => ((0, buf, buflen), h, m)
    | c :: cs =>
        ((N.of_nat (length c), (fst buf, c),
          N.max buflen (N.of_nat (length c))),
         Bench.mk_Handle (Bench.written h) cs (Bench.sink h), m)
    end.

(** A pointer above every block and above the last pointer that
    [malloc] gave out. *)
Definition fresh_ptr (m : memory) : ptr :=
  N.succ (fold_right N.max (m_next_ptr m) (map fst (m_heap m))).

(** [refeed]: a [ReadFunc] that hands out the chunks of the handle as
    [feed] does, but puts a chunk that is longer than the buffer in a
    buffer of its own: it frees the buffer it was given and leaves
    another, of the length of the chunk, in its place. *)
Definition refeed : ReadFunc :=
  fun h m buf buflen =>
    match Bench.to_read h with
    | [] => ((0, buf, buflen), h, m)
    | c :: cs =>
        let h' := Bench.mk_Handle (Bench.written h) cs (Bench.sink h) in
        let len := N.of_nat (length c) in
        if buflen <? len
        then
          let p := fresh_ptr m in
          ((len, (p, c), len), h',
           mk_memory ((p, len) :: heap_remove (m_heap m) (fst buf)) p
             (Nat.pred (m_mem_budget m)))
        else ((len, (fst buf, c), buflen), h', m)
    end.

(** A world with an empty heap and room for [budget] allocations. *)
Definition start (h : Bench.Handle) (budget : nat) : world :=
  mk_world h [] 0 budget [].

(** Write [datas] in a session that collects its chunks, then read the
    chunks back with the same hint: the result is what reached
    [ahwrite], when both runs return. *)
Definition round_trip (fuel : nat) (compression : Z)
  (datas : list (list byte)) : option (list byte) :=
  match WriteSession fuel compression collect datas
          (start (Bench.mk_Handle [] [] []) 8) with
  | (Ret _, w) =>
      match ReadDataFromArchive fuel compression feed
              (start (Bench.mk_Handle [] (Bench.written (AH w)) []) 8) with
      | (Ret _, w') => Some (Bench.sink (AH w'))
      | _ => None
      end
  | _ => None
  end.

(** The writes that come before the first empty one. *)
Fixpoint before_empty (datas : list (list byte)) : list (list byte) :=
  match datas with
  | [] => []
  | [] :: _ => []
  | data :: datas' => data :: before_empty datas'
  end.

End Callbacks.

(** ** What a round trip assumes of the codec *)

Section LosslessCodec.

Context {zlib : Zlib}.

(** What [deflate] or [inflate] does to the buffers of the stream [z]
    when it takes [k] bytes of input and stores [p]. *)
Definition moves (z z' : z_stream_of internal_state) (k : nat) (p : list byte)
  : Prop :=
  (k <= length (next_in z))%nat
  /\ N.of_nat (length p) <= avail_out z
  /\ next_in z' = skipn k (next_in z)
  /\ avail_in z' = avail_in z - N.of_nat k
  /\ next_out z' = next_out z ++ p
  /\ avail_out z' = avail_out z - N.of_nat (length p).

Definition is_finish (fl : zflush) : bool :=
  match fl with Z_FINISH => true | Z_NO_FLUSH => false end.

(** The codec loses nothing.  [encodes c s] says that [c] is a whole
    compressed stream that holds [s].  [deflating st fin s c] says that
    a compressor in state [st] has taken [s] and stored [c] so far, and
    [fin] that it has been asked to finish; [inflating st c s] says that
    a decompressor in state [st] has taken [c] and stored [s] so far.
    [mu] and [nu] are measures that the calls bring down.  A compressor
    that has been asked to finish is only asked to finish again, and is
    asked to finish on no input, as [EndCompressorZlib] does; a
    decompressor is called on input that goes on a whole stream, with
    an empty output buffer, and on no input only once it has taken the
    whole stream. *)
Record Lossless (encodes : list byte -> list byte -> Prop)
  (deflating : option internal_state -> bool -> list byte -> list byte -> Prop)
  (inflating : option internal_state -> list byte -> list byte -> Prop)
  (mu nu : z_stream_of internal_state -> nat) : Prop := {
  deflate_starts : forall level,
    (0 <= level <= 9)%Z ->
    fst (deflateInit (mk_z_stream [] 0 [] 0 None) level) = Z_OK
    /\ deflating (state (snd (deflateInit (mk_z_stream [] 0 [] 0 None) level)))
         false [] [];
  deflate_steps : forall z fl fin s c,
    deflating (state z) fin s c ->
    avail_in z = N.of_nat (length (next_in z)) ->
    (fin = true -> fl = Z_FINISH) ->
    (fl = Z_FINISH -> next_in z = []) ->
    exists k p,
      moves z (snd (deflate z fl)) k p
      /\ deflating (state (snd (deflate z fl))) (is_finish fl)
           (s ++ firstn k (next_in z)) (c ++ p)
      /\ fst (deflate z fl) <> Z_STREAM_ERROR
      /\ (fst (deflate z fl) = Z_STREAM_END ->
          fl = Z_FINISH
          /\ encodes (c ++ p) s
          /\ forall z', state z' = state (snd (deflate z fl)) ->
                        fst (deflateEnd z') = Z_OK)
      /\ (fst (deflate z fl) <> Z_STREAM_END ->
          0 < avail_out z ->
          avail_in z <> 0 \/ fl = Z_FINISH ->
          (fl = Z_NO_FLUSH /\ avail_in (snd (deflate z fl)) = 0)
          \/ (mu (snd (deflate z fl)) < mu z)%nat);
  deflate_measure : forall z p n,
    mu (mk_z_stream (next_in z) (avail_in z) p n (state z)) = mu z;
  inflate_starts :
    fst (inflateInit (mk_z_stream [] 0 [] 0 None)) = Z_OK
    /\ inflating (state (snd (inflateInit (mk_z_stream [] 0 [] 0 None)))) [] [];
  inflate_steps : forall z c s fed out,
    encodes c s ->
    inflating (state z) fed out ->
    avail_in z = N.of_nat (length (next_in z)) ->
    (exists rest, c = fed ++ next_in z ++ rest) ->
    next_out z = [] ->
    0 < avail_out z ->
    next_in z <> [] \/ fed = c ->
    exists k p,
      moves z (snd (inflate z Z_NO_FLUSH)) k p
      /\ inflating (state (snd (inflate z Z_NO_FLUSH)))
           (fed ++ firstn k (next_in z)) (out ++ p)
      /\ (fst (inflate z Z_NO_FLUSH) = Z_OK
          \/ fst (inflate z Z_NO_FLUSH) = Z_STREAM_END)
      /\ (fst (inflate z Z_NO_FLUSH) = Z_STREAM_END ->
          fed ++ firstn k (next_in z) = c /\ out ++ p = s
          /\ forall z', state z' = state (snd (inflate z Z_NO_FLUSH)) ->
                        fst (inflateEnd z') = Z_OK)
      /\ (fst (inflate z Z_NO_FLUSH) <> Z_STREAM_END ->
          (nu (snd (inflate z Z_NO_FLUSH)) < nu z)%nat);
  inflate_measure : forall z p n,
    nu (mk_z_stream (next_in z) (avail_in z) p n (state z)) = nu z
}.

End LosslessCodec.

(** *** The bench codec as a lossless codec *)

Module BenchSpec.

Import Bench.

(** Every byte behind a tag. *)
Definition stuff (s : list byte) : list byte :=
  flat_map (fun b => [x01; b]) s.

Definition encodes (c s : list byte) : Prop := c = stuff s ++ [x00].

Definition deflating (st : option codec_state) (fin : bool) (s c : list byte)
  : Prop :=
  exists p,
    (fin = false /\ st = Some (mk_codec_state p Deflating) /\ c ++ p = stuff s)
    \/ (fin = true /\ st = Some (mk_codec_state p Deflated)
        /\ c ++ p = stuff s ++ [x00]).

Definition inflating (st : option codec_state) (c s : list byte) : Prop :=
  exists p,
    (st = Some (mk_codec_state p WantTag) /\ c = stuff (s ++ p))
    \/ (st = Some (mk_codec_state p WantByte) /\ c = stuff (s ++ p) ++ [x01])
    \/ (st = Some (mk_codec_state p Ended) /\ c = stuff (s ++ p) ++ [x00]).

Definition mu (z : zs) : nat :=
  (3 * N.to_nat (avail_in z) + length (left_over z)
   + match state z with
     | Some (mk_codec_state _ Deflating) => 2
     | _ => 0
     end)%nat.

Definition nu (z : zs) : nat :=
  (2 * N.to_nat (avail_in z) + length (left_over z)
   + match state z with
     | Some (mk_codec_state _ Ended) => 0
     | _ => 1
     end)%nat.

End BenchSpec.

(** *** What a session keeps true *)

Section SessionInvariants.

Context {zlib : Zlib} {build : Build}.
#[local] Existing Instance Bench.recorder.

Variable encodes : list byte -> list byte -> Prop.
Variable deflating :
  option internal_state -> bool -> list byte -> list byte -> Prop.
Variable inflating : option internal_state -> list byte -> list byte -> Prop.

(** No chunk is empty. *)
Definition no_empty_chunk (chunks : list (list byte)) : Prop :=
  Forall (fun c => c <> []) chunks.

(** No chunk is empty, and none is longer than [n]. *)
Definition chunks_up_to (n : N) (chunks : list (list byte)) : Prop :=
  Forall (fun c => c <> [] /\ N.of_nat (length c) <= n) chunks.

(** A Deflate context whose stream is [z] and that collects: the
    compressor has taken [s] and stored the chunks that were collected
    and what waits in the output buffer. *)
Definition staged (cs : CompressorState) (w : world) (fin : bool)
  (s : list byte) (z : z_stream) : Prop :=
  zp cs = Some (zp_addr cs, z)
  /\ writeF cs = collect
  /\ deflating (state z) fin s (concat (Bench.written (AH w)) ++ next_out z)
  /\ N.of_nat (length (next_out z)) + avail_out z = zlibOutSize cs
  /\ 0 < avail_out z
  /\ avail_in z = N.of_nat (length (next_in z))
  /\ chunks_up_to (zlibOutSize cs) (Bench.written (AH w)).

(** The same between two calls, when nothing is known of the input
    fields of the stream: it holds for whatever input the next call
    sets. *)
Definition holds (cs : CompressorState) (w : world) (s : list byte)
  (z : z_stream) : Prop :=
  zp cs = Some (zp_addr cs, z)
  /\ comprAlg cs = COMPR_ALG_LIBZ
  /\ forall d,
       staged (set_zp cs (set_in z d (N.of_nat (length d)))) w false s
         (set_in z d (N.of_nat (length d))).

(** What the loop leaves: in a call that is asked to finish, a whole
    stream in the chunks and a compressor that closes; in another call,
    a context that has taken all of the input. *)
Definition flushed (cs : CompressorState) (w : world) (flush : bool)
  (s : list byte) (cs' : CompressorState) (w' : world) : Prop :=
  same_context cs cs' /\ heap w' = heap w
  /\ if flush
     then encodes (concat (Bench.written (AH w'))) s
          /\ chunks_up_to (zlibOutSize cs') (Bench.written (AH w'))
          /\ exists z', zp cs' = Some (zp_addr cs', z')
                        /\ fst (deflateEnd z') = Z_OK
     else exists z', staged cs' w' false s z' /\ next_in z' = [].

(** Reading the stream [c] of [s] back: the decompressor has taken
    [fed] and what it stored has reached the sink; the rest of [c] is
    the input of the stream and the chunks still to read; [out] is the
    output buffer with room for the trailing zero byte, in the heap
    [hp]; and once the decompressor has reported the end, [s] is in the
    sink. *)
Definition draining (c s : list byte) (out : ptr) (hp : list (ptr * N))
  (w : world) (fed : list byte) (res : zret) (z : z_stream) : Prop :=
  heap w = hp
  /\ block_size w out = Some (ZLIB_OUT_SIZE + 1)
  /\ inflating (state z) fed (Bench.sink (AH w))
  /\ avail_in z = N.of_nat (length (next_in z))
  /\ c = fed ++ next_in z ++ concat (Bench.to_read (AH w))
  /\ no_empty_chunk (Bench.to_read (AH w))
  /\ (res = Z_STREAM_END ->
      fed = c /\ Bench.sink (AH w) = s
      /\ forall z', state z' = state z -> fst (inflateEnd z') = Z_OK).

(** The three blocks of a Deflate context are allocated. *)
Definition owns (cs : CompressorState) (w : world) : Prop :=
  live w (zlibOut cs) = true /\ live w (zp_addr cs) = true
  /\ live w (addr cs) = true
  /\ zlibOut cs <> zp_addr cs /\ zlibOut cs <> addr cs
  /\ zp_addr cs <> addr cs.

End SessionInvariants.

(** *** Memory, chunk sizes and the ways to die *)

Section Accounts.

Context {zlib : Zlib} {build : Build} {archiver : Archiver}.

(** [writeF] is handed at most [n] bytes. *)
Definition chunk_within (n : N) (e : event) : Prop :=
  match e with
  | Ev_writeF _ len _ => len <= n
  | _ => True
  end.

(** No block of the heap lies above the last pointer that [malloc]
    gave out, so that what [malloc] gives next is no block yet. *)
Definition heap_below (w : world) : Prop :=
  Forall (fun b => fst b <= next_ptr w) (heap w).

(** The messages of the write session for the hint [compression]. *)
Definition session_failure (compression : Z) (e : fatal) : Prop :=
  e = InvalidCompressionCode compression \/ e = NotBuiltWithZlib
  \/ e = OutOfMemory \/ e = CouldNotInitialize
  \/ e = CouldNotCompress \/ e = CouldNotWrite \/ e = CouldNotCloseStream.

(** The messages of the reader for the hint [compression]. *)
Definition reader_failure (compression : Z) (e : fatal) : Prop :=
  e = InvalidCompressionCode compression \/ e = NotBuiltWithZlib
  \/ e = OutOfMemory \/ e = CouldNotInitialize
  \/ e = CouldNotUncompress \/ e = CouldNotCloseLibrary.

(** The log of a session without compression whose every write is
    taken whole: one [writeF] for each. *)
Definition plain_log (datas : list (list byte)) : list event :=
  map (fun d => Ev_writeF d (N.of_nat (length d)) (N.of_nat (length d))) datas.

(** [readF] is not called. *)
Definition asks_nothing (e : event) : Prop :=
  match e with
  | Ev_readF _ _ => False
  | _ => True
  end.

(** [readF], when it is called, gives a chunk. *)
Definition asks_more (e : event) : Prop :=
  match e with
  | Ev_readF cnt _ => cnt <> 0
  | _ => True
  end.

(** In the log [tr], no [readF] comes after a [readF] that gave 0. *)
Fixpoint eof_is_final (tr : list event) : Prop :=
  match tr with
  | [] => True
  | Ev_readF cnt _ :: tr' =>
      if cnt =? 0 then Forall asks_nothing tr' else eof_is_final tr'
  | _ :: tr' => eof_is_final tr'
  end.

(** The log grows by a log in which the end of the input is final. *)
Definition honours_eof (w w' : world) : Prop :=
  exists tr, trace w' = trace w ++ tr /\ eof_is_final tr.

(** [writeF] took all that it was given. *)
Definition whole_write (e : event) : Prop :=
  match e with
  | Ev_writeF _ len n => n = len
  | _ => True
  end.

(** In the log [tr], a [writeF] that took less than it was given is
    the last event. *)
Fixpoint short_write_is_last (tr : list event) : Prop :=
  match tr with
  | [] => True
  | Ev_writeF _ len n :: tr' =>
      if n =? len then short_write_is_last tr' else tr' = []
  | _ :: tr' => short_write_is_last tr'
  end.

(** Every write of the computation is taken whole, or the computation
    dies at the first that is not. *)
Definition stops_at_short_write {A} (m : M A) : Prop :=
  forall w, exists tr,
    trace (snd (m w)) = trace w ++ tr
    /\ (Forall whole_write tr
        \/ (fst (m w) = Die CouldNotWrite /\ short_write_is_last tr)).

End Accounts.

(** *** The cases that the properties are tried on *)

Module Cases.

#[local] Existing Instance Bench.codec.
#[local] Existing Instance Bench.recorder.

Definition with_zlib : Build := Bench.a_build true 4.
Definition without_zlib : Build := Bench.a_build false 4.

Definition empty_handle : Bench.Handle := Bench.mk_Handle [] [] [].

(** Nothing allocated, nothing logged. *)
Definition fresh_world : world := start empty_handle 8.

(** A Deflate context as [AllocateCompressor] makes it, and the world
    it is in. *)
Definition a_stream : z_stream :=
  mk_z_stream [] 0 [] 4 (Some (Bench.mk_codec_state [] Bench.Deflating)).

Definition a_context (wF : WriteFunc) : CompressorState :=
  mk_CompressorState 1 wF COMPR_ALG_LIBZ (Some (2, a_stream)) 3 4.

Definition its_world : world :=
  mk_world empty_handle [(3, 5); (2, 112); (1, 40)] 3 5 [].

(** An input of [2 ^ 32] bytes. *)
Definition four_GiB : list byte := repeat x61 (N.to_nat (2 ^ 32)).

(** A stream of the bench codec that holds ["hi"]. *)
Definition hi_chunks : list (list byte) :=
  [[x01; x68]; [x01; x69; x00]].

Definition hi_world : world :=
  start (Bench.mk_Handle [] hi_chunks []) 8.

(** The same stream in one chunk, which is longer than the reader's
    buffer of [ZLIB_IN_SIZE] bytes. *)
Definition whole_hi_world : world :=
  start (Bench.mk_Handle [] [concat hi_chunks] []) 8.

(** A codec that cannot be set up: both init functions report that
    they have no memory. *)
Definition no_memory_codec : Zlib := {|
  internal_state := Bench.codec_state;
  deflateInit := fun z _ => (Z_MEM_ERROR, z);
  deflate := Bench.bench_deflate;
  deflateEnd := Bench.bench_deflateEnd;
  inflateInit := fun z => (Z_MEM_ERROR, z);
  inflate := Bench.bench_inflate;
  inflateEnd := Bench.bench_inflateEnd
|}.

(** The same context and world, for the codec that does not close. *)
Definition stubborn_context : @CompressorState Bench.stubborn_codec _ :=
  @mk_CompressorState Bench.stubborn_codec _ 1 collect COMPR_ALG_LIBZ
    (Some (2, a_stream)) 3 4.

Definition stubborn_world : @world Bench.stubborn_codec _ :=
  @mk_world Bench.stubborn_codec _ empty_handle [(3, 5); (2, 112); (1, 40)]
    3 5 [].

(** Six bytes in two chunks, for the codec that holds back: the four
    bytes of the output buffer come out in the first call after the end
    of the input, the other two in the second. *)
Definition late_world : @world Bench.late_codec Bench.recorder :=
  start (zlib := Bench.late_codec)
    (Bench.mk_Handle [] [[x61; x62; x63]; [x64; x65; x66]] []) 8.

Definition late_log : list (@event Bench.late_codec) :=
  trace (snd (ReadDataFromArchiveZlib (zlib := Bench.late_codec)
                (build := with_zlib) 10 feed late_world)).

End Cases.

(** * Properties *)

(** ** Reasoning about runs *)

Ltac ret_inv H :=
  unfold ret, die_horribly, undefined, out_of_fuel in H;
  first [ discriminate H | injection H as ?; subst ].

Section Basics.

Context {zlib : Zlib} {build : Build} {archiver : Archiver}.

Lemma bind_Ret {A B} (m : M A) (f : A -> M B) w b w' :
  bind m f w = (Ret b, w') ->
  exists a w1, m w = (Ret a, w1) /\ f a w1 = (Ret b, w').
Proof.
  unfold bind. destruct (m w) as [[a | e | x | ] w1]; intros H;
    try discriminate.
  exists a, w1. split; [reflexivity | exact H].
Qed.

Lemma bind_eq {A B} (m : M A) (f : A -> M B) w a w1 :
  m w = (Ret a, w1) -> bind m f w = f a w1.
Proof. unfold bind. intros ->. reflexivity. Qed.

Lemma bind_Die {A B} (m : M A) (f : A -> M B) w e w1 :
  m w = (Die e, w1) -> bind m f w = (Die e, w1).
Proof. unfold bind. intros ->. reflexivity. Qed.

Lemma Parse_Deflate compression want w :
  selects_Deflate compression ->
  ParseCompressionOption compression want w
  = (Ret (COMPR_ALG_LIBZ, if want then Some compression else None), w).
Proof.
  intros H. unfold ParseCompressionOption.
  assert (E : (compression =? Z_DEFAULT_COMPRESSION)%Z
              || ((0 <? compression)%Z && (compression <=? 9)%Z) = true).
  { destruct H as [-> | [H1 H2]].
    - rewrite Z.eqb_refl. reflexivity.
    - apply orb_true_iff. right. apply andb_true_iff.
      split; [apply Z.ltb_lt | apply Z.leb_le]; lia. }
  rewrite E. reflexivity.
Qed.

Lemma Parse_None want w :
  ~ selects_Deflate 0 ->
  ParseCompressionOption 0 want w
  = (Ret (COMPR_ALG_NONE, if want then Some 0%Z else None), w).
Proof.
  intros H. unfold ParseCompressionOption.
  destruct (0 =? Z_DEFAULT_COMPRESSION)%Z eqn:E.
  - exfalso. apply H. left. symmetry. apply Z.eqb_eq. exact E.
  - reflexivity.
Qed.

Lemma Parse_invalid compression want w :
  ~ selects_Deflate compression -> compression <> 0%Z ->
  ParseCompressionOption compression want w
  = (Die (InvalidCompressionCode compression), w).
Proof.
  intros H H0. unfold ParseCompressionOption.
  destruct (compression =? Z_DEFAULT_COMPRESSION)%Z eqn:E.
  { exfalso. apply H. left. apply Z.eqb_eq. exact E. }
  destruct ((0 <? compression)%Z && (compression <=? 9)%Z) eqn:E1.
  { exfalso. apply H. right. apply andb_true_iff in E1.
    destruct E1 as [E1 E2]. apply Z.ltb_lt in E1. apply Z.leb_le in E2. lia. }
  destruct (compression =? 0)%Z eqn:E2.
  { apply Z.eqb_eq in E2. contradiction. }
  reflexivity.
Qed.

(** C7.  A hint that is neither 0, nor in 1..9, nor the default value
    makes [AllocateCompressor] and [ReadDataFromArchive] die with the
    message of class [InvalidConfiguration], in the state they were
    called in: the handle, the heap and the log of calls are untouched,
    so no callback and no [ahwrite] has run and no context exists. *)
Theorem invalid_hint_rejected (compression : Z) (wF : WriteFunc)
  (rF : ReadFunc) (fuel : nat) (w : world) :
  compression <> 0%Z ->
  ~ (1 <= compression <= 9)%Z ->
  compression <> Z_DEFAULT_COMPRESSION ->
  AllocateCompressor compression wF w
    = (Die (InvalidCompressionCode compression), w)
  /\ ReadDataFromArchive fuel compression rF w
    = (Die (InvalidCompressionCode compression), w)
  /\ classify (InvalidCompressionCode compression) = InvalidConfiguration.
Proof.
  intros H0 H19 Hd.
  assert (Hs : ~ selects_Deflate compression).
  { intros [E | E]; [apply Hd, E | apply H19, E]. }
  repeat split.
  - unfold AllocateCompressor.
    apply bind_Die. apply Parse_invalid; assumption.
  - unfold ReadDataFromArchive.
    apply bind_Die. apply Parse_invalid; assumption.
Qed.

(** C4, as the code has it.  Without [HAVE_LIBZ], a hint that selects
    Deflate makes [AllocateCompressor] and [ReadDataFromArchive] die
    with the message of class [UnsupportedAlgorithm] before anything
    else happens, and so does [WriteDataToArchive] on a context whose
    algorithm is Deflate.  [EndCompressor] has no such test: on such a
    context it only frees the structure. *)
Theorem no_zlib_unsupported (compression : Z) (wF : WriteFunc)
  (rF : ReadFunc) (fuel : nat) (cs : CompressorState)
  (data : list byte) (dLen : N) (w : world) :
  HAVE_LIBZ = false ->
  selects_Deflate compression ->
  comprAlg cs = COMPR_ALG_LIBZ ->
  AllocateCompressor compression wF w = (Die NotBuiltWithZlib, w)
  /\ ReadDataFromArchive fuel compression rF w = (Die NotBuiltWithZlib, w)
  /\ WriteDataToArchive fuel cs data dLen w = (Die NotBuiltWithZlib, w)
  /\ EndCompressor fuel cs w = free (addr cs) w
  /\ classify NotBuiltWithZlib = UnsupportedAlgorithm.
Proof.
  intros HL Hs Hc. repeat split.
  - unfold AllocateCompressor.
    rewrite (bind_eq _ _ _ _ _ (Parse_Deflate _ true w Hs)).
    rewrite HL. reflexivity.
  - unfold ReadDataFromArchive.
    rewrite (bind_eq _ _ _ _ _ (Parse_Deflate _ false w Hs)).
    rewrite HL. reflexivity.
  - unfold WriteDataToArchive. rewrite Hc, HL. reflexivity.
  - unfold EndCompressor. rewrite HL. reflexivity.
Qed.

(** *** Relations that every step keeps *)

Section Preserved.

Variable R : world -> world -> Prop.
Hypothesis R_refl : forall w, R w w.
Hypothesis R_trans : forall a b c, R a b -> R b c -> R a c.

Lemma preserves_ret {A} (a : A) : preserves R (ret a).
Proof. intros w. apply R_refl. Qed.

Lemma preserves_die {A} e : preserves R (die_horribly e : M A).
Proof. intros w. apply R_refl. Qed.

Lemma preserves_undefined {A} f : preserves R (undefined f : M A).
Proof. intros w. apply R_refl. Qed.

Lemma preserves_out_of_fuel {A} : preserves R (out_of_fuel : M A).
Proof. intros w. apply R_refl. Qed.

Lemma preserves_bind {A B} (m : M A) (f : A -> M B) :
  preserves R m -> (forall a, preserves R (f a)) -> preserves R (bind m f).
Proof.
  intros Hm Hf w. unfold bind. specialize (Hm w).
  destruct (m w) as [[a | e | x | ] w1]; simpl in *; try exact Hm.
  eapply R_trans; [exact Hm | apply Hf].
Qed.

Lemma preserves_bind_post {A B} (Q : A -> Prop) (m : M A) (f : A -> M B) :
  (forall w a w', m w = (Ret a, w') -> Q a) ->
  preserves R m -> (forall a, Q a -> preserves R (f a)) ->
  preserves R (bind m f).
Proof.
  intros HQ Hm Hf w. unfold bind. specialize (Hm w). specialize (HQ w).
  destruct (m w) as [[a | e | x | ] w1]; simpl in *; try exact Hm.
  eapply R_trans; [exact Hm | apply Hf]. eapply HQ. reflexivity.
Qed.

Lemma preserves_if {A} (b : bool) (m1 m2 : M A) :
  preserves R m1 -> preserves R m2 -> preserves R (if b then m1 else m2).
Proof. destruct b; auto. Qed.

Lemma preserves_deref_zp cs : preserves R (deref_zp cs).
Proof.
  unfold deref_zp. destruct (zp cs) as [[a z] | ].
  - apply preserves_ret.
  - apply preserves_undefined.
Qed.

End Preserved.

Lemma emits_refl P w : emits P w w.
Proof. exists []. rewrite app_nil_r. split; [reflexivity | constructor]. Qed.

Lemma emits_same_trace P w w' : trace w' = trace w -> emits P w w'.
Proof.
  intros E. exists []. rewrite app_nil_r. split; [exact E | constructor].
Qed.

Lemma emits_trans P a b c : emits P a b -> emits P b c -> emits P a c.
Proof.
  intros (t1 & E1 & F1) (t2 & E2 & F2). exists (t1 ++ t2).
  rewrite E2, E1, app_assoc. split; [reflexivity | ].
  apply Forall_app. split; assumption.
Qed.

Lemma emits_log P e : P e -> preserves (emits P) (log e).
Proof.
  intros H w. exists [e]. split; [reflexivity | ].
  constructor; [exact H | constructor].
Qed.

Lemma emits_with_AH P {A} (f : ArchiveHandle -> A * ArchiveHandle) :
  preserves (emits P) (with_AH f).
Proof.
  intros w. unfold with_AH. destruct (f (AH w)) as [a ah].
  apply emits_same_trace. reflexivity.
Qed.

Lemma emits_with_memory P {A}
  (f : ArchiveHandle -> memory -> A * ArchiveHandle * memory) :
  preserves (emits P) (with_memory f).
Proof.
  intros w. unfold with_memory.
  destruct (f (AH w) _) as [[a ah] m]. apply emits_same_trace. reflexivity.
Qed.

Lemma emits_malloc P size : preserves (emits P) (malloc size).
Proof.
  intros w. unfold malloc.
  destruct (mem_budget w); apply emits_same_trace; reflexivity.
Qed.

Lemma emits_free P p : preserves (emits P) (free p).
Proof.
  intros w. unfold free. destruct (p =? NULL); [apply emits_refl | ].
  destruct (live w p); apply emits_same_trace; reflexivity.
Qed.

Lemma emits_store P p buf i b : preserves (emits P) (store p buf i b).
Proof.
  intros w. unfold store. destruct (block_size w p); [ | apply emits_refl].
  destruct (i <? n); apply emits_refl.
Qed.

Lemma emits_call_writeF P f buf len :
  (forall n, P (Ev_writeF buf len n)) ->
  preserves (emits P) (call_writeF f buf len).
Proof.
  intros H. unfold call_writeF.
  apply preserves_bind; [apply emits_trans | apply emits_with_AH | ].
  intros n. apply preserves_bind; [apply emits_trans | | ].
  - apply emits_log. apply H.
  - intros _. apply preserves_ret. apply emits_refl.
Qed.

Lemma emits_call_deflate P z flush :
  (forall r, P (Ev_deflate flush z (fst r) (snd r))) ->
  preserves (emits P) (call_deflate z flush).
Proof.
  intros H. unfold call_deflate.
  apply preserves_bind; [apply emits_trans | | ].
  - apply emits_log. apply H.
  - intros _. apply preserves_ret. apply emits_refl.
Qed.

Lemma bind_Die_inv {A B} (m : M A) (f : A -> M B) w e w' :
  bind m f w = (Die e, w') ->
  m w = (Die e, w')
  \/ exists a w1, m w = (Ret a, w1) /\ f a w1 = (Die e, w').
Proof.
  unfold bind. destruct (m w) as [[a | e1 | x | ] w1]; intros H;
    try discriminate.
  - right. exists a, w1. split; [reflexivity | exact H].
  - left. injection H as -> ->. reflexivity.
Qed.

Lemma same_heap_refl w : same_heap w w.
Proof. reflexivity. Qed.

Lemma same_heap_trans a b c : same_heap a b -> same_heap b c -> same_heap a c.
Proof. unfold same_heap. congruence. Qed.

Lemma same_heap_log e : preserves same_heap (log e).
Proof. intros w. reflexivity. Qed.

Lemma same_heap_with_AH {A} (f : ArchiveHandle -> A * ArchiveHandle) :
  preserves same_heap (with_AH f).
Proof.
  intros w. unfold with_AH. destruct (f (AH w)) as [a ah]. reflexivity.
Qed.

Lemma same_heap_store p buf i b : preserves same_heap (store p buf i b).
Proof.
  intros w. unfold store. destruct (block_size w p); [ | reflexivity].
  destruct (i <? n); reflexivity.
Qed.

(** *** The heap after [free] *)

Lemma heap_size_remove_other h p q :
  q <> p -> heap_size (heap_remove h p) q = heap_size h q.
Proof.
  intros Hne. induction h as [ | [r sz] h IH]; simpl; [reflexivity | ].
  destruct (r =? p) eqn:Erp.
  - rewrite IH. destruct (r =? q) eqn:Erq; [ | reflexivity].
    apply N.eqb_eq in Erp, Erq. congruence.
  - simpl. rewrite IH. reflexivity.
Qed.

Lemma heap_size_remove h p q :
  heap_size h q = None \/ q = p -> heap_size (heap_remove h p) q = None.
Proof.
  induction h as [ | [r sz] h IH]; intros H; simpl; [reflexivity | ].
  destruct (r =? p) eqn:Erp.
  - apply IH. destruct H as [H | H]; [ | right; exact H].
    simpl in H. destruct (r =? q); [discriminate | left; exact H].
  - simpl. destruct (r =? q) eqn:Erq.
    + destruct H as [H | H].
      * simpl in H. rewrite Erq in H. discriminate.
      * apply N.eqb_eq in Erq. subst. rewrite N.eqb_refl in Erp. discriminate.
    + apply IH. destruct H as [H | H]; [ | right; exact H].
      simpl in H. rewrite Erq in H. left. exact H.
Qed.

Lemma free_Ret p w u w' :
  free p w = (Ret u, w') ->
  live w' p = false
  /\ (forall q, live w q = false -> live w' q = false)
  /\ trace w' = trace w.
Proof.
  unfold free, live, block_size. destruct (p =? NULL) eqn:Ep.
  - intros H. ret_inv H. auto.
  - destruct (heap_size (heap w) p) eqn:El; intros H; ret_inv H.
    cbn [heap trace]. split; [ | split; [ | reflexivity]].
    + rewrite heap_size_remove; auto.
    + intros q. destruct (q =? NULL); [reflexivity | ].
      destruct (heap_size (heap w) q) eqn:Eq; [discriminate | ].
      intros _. rewrite heap_size_remove; auto.
Qed.

Lemma free_block p w :
  p <> NULL -> heap_size (heap w) p <> None ->
  free p w
  = (Ret tt, mk_world (AH w) (heap_remove (heap w) p) (next_ptr w)
               (mem_budget w) (trace w)).
Proof.
  intros Hp Hl. unfold free, live, block_size.
  apply N.eqb_neq in Hp. rewrite Hp.
  destruct (heap_size (heap w) p); [reflexivity | contradiction].
Qed.

Lemma buffer_in_other rest h buf q sz :
  buffer_in rest h buf -> heap_size rest q = Some sz ->
  heap_size h q = Some sz /\ q <> buf.
Proof.
  intros (Hn & Hl & <-) Hq.
  destruct (N.eq_dec q buf) as [-> | Hne].
  - rewrite heap_size_remove in Hq by (right; reflexivity). discriminate.
  - rewrite heap_size_remove_other in Hq by exact Hne. auto.
Qed.

(** A [readF] that keeps to its buffer returns, and the heap without
    the buffer is what it was. *)
Lemma call_readF_keeps rF rest buf buflen w :
  keeps_to_its_buffer rF -> buffer_in rest (heap w) (fst buf) ->
  exists r w',
    call_readF rF buf buflen w = (Ret r, w')
    /\ buffer_in rest (heap w') (fst (snd (fst r)))
    /\ trace w' = trace w ++ [Ev_readF (fst (fst r)) (snd (snd (fst r)))].
Proof.
  intros Hk Hb.
  specialize (Hk (AH w) (mk_memory (heap w) (next_ptr w) (mem_budget w))
                buf buflen).
  cbn [m_heap] in Hk. destruct Hb as (Hn & Hl & Hr).
  assert (Hk' := Hk (conj Hn (conj Hl eq_refl))). rewrite Hr in Hk'.
  unfold call_readF, bind, with_memory, log, ret.
  destruct (rF (AH w) (mk_memory (heap w) (next_ptr w) (mem_budget w))
              buf buflen) as [[r ah] m].
  cbn [fst snd] in Hk'. exists r. eexists. split; [reflexivity | ].
  cbn [heap trace]. split; [exact Hk' | reflexivity].
Qed.

(** The three [free]s that end a reader. *)
Lemma frees_of_reader rest buf out p w s1 s2 :
  buffer_in rest (heap w) buf ->
  heap_size rest out = Some s1 -> heap_size rest p = Some s2 ->
  out <> NULL -> p <> NULL -> out <> p ->
  exists w',
    (free buf ;;; free out ;;; free p) w = (Ret tt, w')
    /\ heap w' = heap_remove (heap_remove rest out) p
    /\ trace w' = trace w /\ AH w' = AH w.
Proof.
  intros (Hn & Hl & Hr) Ho Hp No Np Nop.
  rewrite (bind_eq _ _ _ _ _ (free_block buf w Hn Hl)).
  rewrite Hr.
  match goal with |- context [bind _ _ ?w1] =>
    rewrite (bind_eq _ _ _ _ _ (free_block out w1 No
               ltac:(cbn [heap]; rewrite Ho; discriminate)))
  end.
  cbn [heap AH next_ptr mem_budget trace].
  match goal with |- context [free p ?w2] =>
    rewrite (free_block p w2 Np
               ltac:(cbn [heap]; rewrite heap_size_remove_other
                       by (intros E; apply Nop; symmetry; exact E);
                     rewrite Hp; discriminate))
  end.
  eexists. split; [reflexivity | ]. cbn [heap trace AH]. auto.
Qed.

Lemma free_not_Die p w e w' : free p w <> (Die e, w').
Proof.
  unfold free. destruct (p =? NULL); [discriminate | ].
  destruct (live w p); discriminate.
Qed.

(** *** The messages a computation can die with *)

Lemma dies_in_bind S {A B} (m : M A) (f : A -> M B) :
  dies_in S m -> (forall a, dies_in S (f a)) -> dies_in S (bind m f).
Proof.
  intros Hm Hf w e w' H. apply bind_Die_inv in H.
  destruct H as [H | (a & w1 & _ & H)]; [eapply Hm | eapply Hf]; exact H.
Qed.

Lemma dies_in_ret S {A} (a : A) : dies_in S (ret a).
Proof. intros w e w' H. discriminate H. Qed.

Lemma dies_in_die S {A} e : S e -> dies_in S (die_horribly e : M A).
Proof. intros He w e' w' H. injection H as <- _. exact He. Qed.

Lemma dies_in_undefined S {A} f : dies_in S (undefined f : M A).
Proof. intros w e w' H. discriminate H. Qed.

Lemma dies_in_out_of_fuel S {A} : dies_in S (out_of_fuel : M A).
Proof. intros w e w' H. discriminate H. Qed.

Lemma dies_in_log S e : dies_in S (log e).
Proof. intros w e' w' H. discriminate H. Qed.

Lemma dies_in_with_AH S {A} (f : ArchiveHandle -> A * ArchiveHandle) :
  dies_in S (with_AH f).
Proof.
  intros w e w'. unfold with_AH. destruct (f (AH w)). discriminate.
Qed.

Lemma dies_in_with_memory S {A}
  (f : ArchiveHandle -> memory -> A * ArchiveHandle * memory) :
  dies_in S (with_memory f).
Proof.
  intros w e w'. unfold with_memory.
  destruct (f (AH w) _) as [[a ah] m]. discriminate.
Qed.

Lemma dies_in_deref_zp S cs : dies_in S (deref_zp cs).
Proof.
  unfold deref_zp. destruct (zp cs) as [[a z] | ].
  - apply dies_in_ret.
  - apply dies_in_undefined.
Qed.

Lemma dies_in_free S p : dies_in S (free p).
Proof. intros w e w' H. exfalso. exact (free_not_Die _ _ _ _ H). Qed.

Lemma dies_in_store S p buf i b : dies_in S (store p buf i b).
Proof.
  intros w e w'. unfold store. destruct (block_size w p); [ | discriminate].
  destruct (i <? n); discriminate.
Qed.

End Basics.

Ltac bind_inv H :=
  let a := fresh "a" in
  let w := fresh "w" in
  let E := fresh "E" in
  apply bind_Ret in H; destruct H as (a & w & E & H).

Create HintDb pres.
#[local] Hint Resolve emits_refl emits_trans : pres.
#[local] Hint Resolve preserves_ret preserves_die preserves_undefined
  preserves_out_of_fuel preserves_deref_zp emits_with_AH emits_with_memory
  emits_malloc emits_free emits_store : pres.
#[local] Hint Resolve same_heap_refl same_heap_trans same_heap_log
  same_heap_with_AH same_heap_store : pres.

#[local] Hint Resolve dies_in_ret dies_in_undefined dies_in_out_of_fuel
  dies_in_log dies_in_with_AH dies_in_with_memory dies_in_deref_zp
  dies_in_free dies_in_store : pres.
#[local] Hint Extern 1 (write_failure _) => (left; reflexivity) : pres.
#[local] Hint Extern 1 (write_failure _) => (right; reflexivity) : pres.

(** Take a computation apart, leaving the calls that matter. *)
Ltac pres_step :=
  match goal with
  | |- preserves _ (bind _ _) =>
      apply preserves_bind; [solve [eauto with pres] | | intro]
  | |- preserves _ (if ?b then _ else _) => destruct b eqn:?
  | |- preserves _ (let (_, _) := ?r in _) => destruct r eqn:?
  | |- preserves _ (match ?r with _ => _ end) => destruct r eqn:?
  | |- preserves _ _ => solve [auto with pres]
  end.

Ltac pres := repeat pres_step.

Ltac dies_step :=
  match goal with
  | |- dies_in _ (bind _ _) => apply dies_in_bind; [ | intro]
  | |- dies_in _ (die_horribly _) => apply dies_in_die; solve [auto with pres]
  | |- dies_in _ (if ?b then _ else _) => destruct b eqn:?
  | |- dies_in _ (let (_, _) := ?r in _) => destruct r eqn:?
  | |- dies_in _ (match ?r with _ => _ end) => destruct r eqn:?
  | |- dies_in _ _ => solve [auto with pres]
  end.

Ltac dies := repeat dies_step.

(** ** The write session *)

Section WritePath.

Context {zlib : Zlib} {build : Build} {archiver : Archiver}.

Lemma nonempty_body cs flush :
  preserves (emits nonempty_write) (DeflateCompressorZlib_body cs flush).
Proof.
  unfold DeflateCompressorZlib_body. pres.
  - apply emits_call_deflate. intros r. exact I.
  - apply emits_call_writeF. intros n. simpl.
    match goal with H : (_ <? _) = true |- _ => apply N.ltb_lt in H end.
    lia.
Qed.

Lemma nonempty_Deflate fuel : forall cs flush,
  preserves (emits nonempty_write) (DeflateCompressorZlib fuel cs flush).
Proof.
  induction fuel as [ | fuel IH]; intros cs flush; simpl; pres.
  apply nonempty_body.
Qed.

Lemma nonempty_Write fuel cs data dLen :
  comprAlg cs = COMPR_ALG_LIBZ ->
  preserves (emits nonempty_write) (WriteDataToArchive fuel cs data dLen).
Proof.
  intros E. unfold WriteDataToArchive. rewrite E.
  unfold WriteDataToArchiveZlib. pres. apply nonempty_Deflate.
Qed.

Lemma nonempty_End fuel cs :
  preserves (emits nonempty_write) (EndCompressor fuel cs).
Proof.
  unfold EndCompressor, EndCompressorZlib. pres; apply nonempty_Deflate.
Qed.

(** What a returning call leaves of the context. *)

Lemma same_context_refl cs : zp cs <> None -> same_context cs cs.
Proof.
  intros H. destruct cs as [a f alg [[p z] | ] o n]; [ | contradiction].
  exists z. reflexivity.
Qed.

Lemma same_context_comprAlg cs cs' :
  same_context cs cs' -> comprAlg cs' = comprAlg cs.
Proof. intros [z ->]. reflexivity. Qed.

Lemma set_zp_set_zp cs z z' : set_zp (set_zp cs z) z' = set_zp cs z'.
Proof. unfold set_zp. simpl. destruct (zp cs) as [[a y] | ]; reflexivity. Qed.

Lemma same_context_trans cs1 cs2 cs3 :
  same_context cs1 cs2 -> same_context cs2 cs3 -> same_context cs1 cs3.
Proof.
  intros [z ->] [z' ->]. exists z'. apply set_zp_set_zp.
Qed.

Lemma deref_zp_Ret cs z w w' :
  deref_zp cs w = (Ret z, w') ->
  w' = w /\ exists a, zp cs = Some (a, z).
Proof.
  unfold deref_zp. destruct (zp cs) as [[a y] | ]; intros H; ret_inv H.
  split; [reflexivity | exists a; reflexivity].
Qed.

Lemma body_Ret cs flush w cs' stop w' :
  DeflateCompressorZlib_body cs flush w = (Ret (cs', stop), w') ->
  same_context cs cs'.
Proof.
  unfold DeflateCompressorZlib_body. intros H.
  bind_inv H. bind_inv H. destruct a0 as [res z].
  bind_inv H. bind_inv H. ret_inv H.
  eexists. reflexivity.
Qed.

Lemma Deflate_Ret fuel : forall cs flush w cs' w',
  DeflateCompressorZlib fuel cs flush w = (Ret cs', w') ->
  same_context cs cs'.
Proof.
  induction fuel as [ | fuel IH]; intros cs flush w cs' w' H; simpl in H;
    bind_inv H; apply deref_zp_Ret in E; destruct E as (-> & p & E);
    destruct (negb (avail_in a =? 0) || flush).
  - ret_inv H.
  - ret_inv H. apply same_context_refl. congruence.
  - bind_inv H. destruct a0 as [cs1 stop].
    apply body_Ret in E0. destruct stop.
    + ret_inv H. exact E0.
    + apply IH in H. eapply same_context_trans; eassumption.
  - ret_inv H. apply same_context_refl. congruence.
Qed.

Lemma Write_Ret fuel cs data dLen w n cs' w' :
  WriteDataToArchive fuel cs data dLen w = (Ret (n, cs'), w') ->
  comprAlg cs' = comprAlg cs
  /\ (comprAlg cs = COMPR_ALG_LIBZ \/ comprAlg cs = COMPR_ALG_NONE ->
      n = dLen).
Proof.
  unfold WriteDataToArchive. intros H.
  destruct (comprAlg cs) eqn:Ealg.
  - unfold WriteDataToArchiveNone in H.
    bind_inv H. bind_inv H. ret_inv H. auto.
  - destruct HAVE_LIBZ; [ | ret_inv H].
    unfold WriteDataToArchiveZlib in H.
    bind_inv H. bind_inv H. ret_inv H.
    apply Deflate_Ret, same_context_comprAlg in E0.
    split; [ | reflexivity].
    rewrite E0. unfold set_zp. simpl. exact Ealg.
  - ret_inv H. split; [exact Ealg | ].
    intros [D | D]; discriminate D.
Qed.

Lemma Parse_Ret compression want w alg l w' :
  ParseCompressionOption compression want w = (Ret (alg, l), w') ->
  w' = w
  /\ ((alg = COMPR_ALG_LIBZ /\ selects_Deflate compression)
      \/ (alg = COMPR_ALG_NONE /\ compression = 0%Z
          /\ ~ selects_Deflate compression)).
Proof.
  intros H.
  assert (D : selects_Deflate compression \/ ~ selects_Deflate compression).
  { unfold selects_Deflate.
    destruct (Z.eq_dec compression Z_DEFAULT_COMPRESSION); [tauto | ].
    destruct (Z_le_dec 1 compression); [ | right; lia].
    destruct (Z_le_dec compression 9); [left; right; lia | right; lia]. }
  destruct D as [D | D].
  - rewrite (Parse_Deflate _ want w D) in H. ret_inv H. auto.
  - destruct (Z.eq_dec compression 0) as [-> | N0].
    + rewrite (Parse_None want w D) in H. ret_inv H. auto.
    + rewrite (Parse_invalid _ want w D N0) in H. discriminate H.
Qed.

Lemma Init_Ret cs level w cs' w' :
  InitCompressorZlib cs level w = (Ret cs', w') ->
  comprAlg cs' = comprAlg cs /\ writeF cs' = writeF cs.
Proof.
  unfold InitCompressorZlib. intros H.
  bind_inv H. bind_inv H. bind_inv H. bind_inv H.
  destruct (deflateInit z_stream_fresh level) as [r z].
  bind_inv H. ret_inv H. split; reflexivity.
Qed.

Lemma Allocate_Ret compression wF w cs w' :
  AllocateCompressor compression wF w = (Ret cs, w') ->
  writeF cs = wF
  /\ ((comprAlg cs = COMPR_ALG_LIBZ /\ selects_Deflate compression
       /\ HAVE_LIBZ = true)
      \/ (comprAlg cs = COMPR_ALG_NONE /\ compression = 0%Z
          /\ ~ selects_Deflate compression)).
Proof.
  unfold AllocateCompressor. intros H.
  bind_inv H. destruct a as [alg l]. apply Parse_Ret in E.
  destruct E as (-> & E). simpl in H.
  bind_inv H. bind_inv H. bind_inv H.
  destruct E as [(-> & D) | (-> & D)]; simpl in *.
  - destruct HAVE_LIBZ; simpl in *; [ | ret_inv E0].
    apply Init_Ret in H. simpl in H. destruct H as (-> & ->). auto.
  - rewrite andb_false_r in H. ret_inv H. simpl. auto.
Qed.

Lemma emits_Allocate P compression wF :
  preserves (emits P) (AllocateCompressor compression wF).
Proof.
  unfold AllocateCompressor, ParseCompressionOption, InitCompressorZlib.
  pres.
Qed.

Lemma write_all_Ret fuel : forall datas cs w cs' w',
  write_all fuel cs datas w = (Ret cs', w') -> comprAlg cs' = comprAlg cs.
Proof.
  induction datas as [ | d datas IH]; intros cs w cs' w' H; simpl in H.
  - ret_inv H. reflexivity.
  - bind_inv H. destruct a as [n cs1]. apply Write_Ret in E.
    apply IH in H. simpl in H. destruct E as [E _]. congruence.
Qed.

Lemma nonempty_write_all fuel : forall datas cs,
  comprAlg cs = COMPR_ALG_LIBZ ->
  preserves (emits nonempty_write) (write_all fuel cs datas).
Proof.
  induction datas as [ | d datas IH]; intros cs E; simpl.
  - pres.
  - apply preserves_bind_post
      with (Q := fun r => comprAlg (snd r) = COMPR_ALG_LIBZ).
    + apply emits_trans.
    + intros w [n cs1] w' H. apply Write_Ret in H. simpl.
      destruct H as [H _]. congruence.
    + apply nonempty_Write. exact E.
    + intros r Hr. apply IH. exact Hr.
Qed.

(** C2.  In a Deflate session no call hands [writeF] a chunk of length
    zero: every [writeF] call that [WriteDataToArchive] or
    [EndCompressor] makes on a Deflate context, in whatever state the
    context is, whatever the codec does and however the call ends, has
    a length of at least 1; and so has every [writeF] call of a whole
    session opened with a hint that selects Deflate. *)
Theorem deflate_session_never_writes_empty_chunk (fuel : nat)
  (cs : CompressorState) (data : list byte) (dLen : N) (compression : Z)
  (wF : WriteFunc) (datas : list (list byte)) (w : world) :
  comprAlg cs = COMPR_ALG_LIBZ ->
  selects_Deflate compression ->
  emits nonempty_write w (snd (WriteDataToArchive fuel cs data dLen w))
  /\ emits nonempty_write w (snd (EndCompressor fuel cs w))
  /\ emits nonempty_write w (snd (WriteSession fuel compression wF datas w)).
Proof.
  intros E D. split; [ | split].
  - apply nonempty_Write. exact E.
  - apply nonempty_End.
  - revert w. change (preserves (emits nonempty_write)
                        (WriteSession fuel compression wF datas)).
    unfold WriteSession.
    apply preserves_bind_post
      with (Q := fun c => comprAlg c = COMPR_ALG_LIBZ).
    + apply emits_trans.
    + intros w a w' H. apply Allocate_Ret in H.
      destruct H as (_ & [(H & _) | (_ & _ & H)]); [exact H | contradiction].
    + apply emits_Allocate.
    + intros c Hc. pres.
      * apply nonempty_write_all. exact Hc.
      * apply nonempty_End.
Qed.

(** C10.  The context that [AllocateCompressor] returns has algorithm
    Deflate or None, and so has it after any number of writes; on such
    a context [WriteDataToArchive] never takes the branch that returns
    0: when it returns for a [dLen] other than 0, the result is not
    0. *)
Theorem allocated_context_never_falls_through (fuel fuel' : nat)
  (compression : Z) (wF : WriteFunc) (datas : list (list byte))
  (w w' w1 w2 : world) (cs cs1 : CompressorState)
  (data : list byte) (dLen n : N) :
  bind (AllocateCompressor compression wF)
       (fun c => write_all fuel c datas) w = (Ret cs, w') ->
  (comprAlg cs = COMPR_ALG_LIBZ \/ comprAlg cs = COMPR_ALG_NONE)
  /\ (dLen <> 0 ->
      WriteDataToArchive fuel' cs data dLen w1 = (Ret (n, cs1), w2) ->
      n <> 0).
Proof.
  intros H. bind_inv H. apply Allocate_Ret in E. apply write_all_Ret in H.
  assert (Halg : comprAlg cs = COMPR_ALG_LIBZ \/ comprAlg cs = COMPR_ALG_NONE).
  { rewrite H. destruct E as (_ & [(E & _) | (E & _)]); auto. }
  split; [exact Halg | ].
  intros Hd Hw. apply Write_Ret in Hw. destruct Hw as [_ Hw].
  rewrite (Hw Halg). exact Hd.
Qed.

(** The branch exists: on a context whose algorithm is neither, the
    result is 0. *)
Lemma fall_through_returns_0 fuel cs data dLen w v :
  comprAlg cs = COMPR_ALG_other v ->
  WriteDataToArchive fuel cs data dLen w = (Ret (0, cs), w).
Proof. intros E. unfold WriteDataToArchive. rewrite E. reflexivity. Qed.

(** *** What [EndCompressor] leaves of the heap *)

Lemma same_heap_Deflate fuel : forall cs flush,
  preserves same_heap (DeflateCompressorZlib fuel cs flush).
Proof.
  induction fuel as [ | fuel IH]; intros cs flush; simpl; pres;
    unfold DeflateCompressorZlib_body, call_deflate, call_writeF; pres.
Qed.

Lemma dies_in_Deflate fuel : forall cs flush,
  dies_in write_failure (DeflateCompressorZlib fuel cs flush).
Proof.
  induction fuel as [ | fuel IH]; intros cs flush; simpl; dies;
    unfold DeflateCompressorZlib_body, call_deflate, call_writeF; dies.
Qed.

(** *** A failed flush is fatal *)

Section DiesWhen.

Variable bad : event -> bool.
Variable e : fatal.

Lemma dies_when_quiet {A} (m : M A) :
  (forall w, trace (snd (m w)) = trace w /\ fst (m w) <> Die e) ->
  dies_when bad e m.
Proof.
  intros H w. destruct (H w) as [E N]. exists []. rewrite app_nil_r.
  split; [exact E | ]. simpl. split; [discriminate | intros D; contradiction].
Qed.

Lemma dies_when_ret {A} (a : A) : dies_when bad e (ret a).
Proof. apply dies_when_quiet. intros w. split; [reflexivity | discriminate]. Qed.

Lemma dies_when_out_of_fuel {A} : dies_when bad e (out_of_fuel : M A).
Proof. apply dies_when_quiet. intros w. split; [reflexivity | discriminate]. Qed.

Lemma dies_when_die {A} e' : e' <> e -> dies_when bad e (die_horribly e' : M A).
Proof.
  intros He. apply dies_when_quiet. intros w. split; [reflexivity | ].
  intros D. injection D as D. contradiction.
Qed.

Lemma dies_when_deref_zp cs : dies_when bad e (deref_zp cs).
Proof.
  apply dies_when_quiet. intros w. unfold deref_zp.
  destruct (zp cs) as [[a z] | ]; split; (reflexivity || discriminate).
Qed.

Lemma dies_when_free p : dies_when bad e (free p).
Proof.
  apply dies_when_quiet. intros w. unfold free.
  destruct (p =? NULL); [split; [reflexivity | discriminate] | ].
  destruct (live w p); split; (reflexivity || discriminate).
Qed.

Lemma dies_when_bind {A B} (m : M A) (f : A -> M B) :
  dies_when bad e m -> (forall a, dies_when bad e (f a)) ->
  dies_when bad e (bind m f).
Proof.
  intros Hm Hf w. unfold bind. destruct (Hm w) as (tr1 & E1 & D1).
  destruct (m w) as [[a | e1 | x | ] w1]; cbn [fst snd] in *;
    try (exists tr1; split; [exact E1 | ];
         split; intros H;
         [apply D1 in H; (discriminate H || (injection H as ->; reflexivity))
         | (discriminate H || (injection H as ->; apply D1; reflexivity))]).
  destruct (Hf a w1) as (tr2 & E2 & D2). exists (tr1 ++ tr2). split.
  - rewrite E2, E1, app_assoc. reflexivity.
  - rewrite existsb_app.
    destruct (existsb bad tr1);
      [exfalso; assert (D : Ret a = Die e) by (apply D1; reflexivity);
       discriminate D | ].
    exact D2.
Qed.

End DiesWhen.

(** One turn of the loop of [DeflateCompressorZlib]: a [deflate] that
    gives [Z_STREAM_ERROR] and a [writeF] that does not take what it is
    given are the two ways to die. *)
Lemma body_dies cs flush :
  dies_when failed_deflate CouldNotCompress
    (DeflateCompressorZlib_body cs flush)
  /\ dies_when failed_write CouldNotWrite
       (DeflateCompressorZlib_body cs flush).
Proof.
  split; intros w;
    unfold DeflateCompressorZlib_body, deref_zp;
    (destruct (zp cs) as [[a z] | ];
     [ | exists []; rewrite app_nil_r; split; [reflexivity | ];
         cbn; split; discriminate]);
    unfold call_deflate, call_writeF;
    unfold bind, ret, log, die_horribly, with_AH;
    cbv beta iota zeta;
    destruct (deflate z (if flush then Z_FINISH else Z_NO_FLUSH)) as [res z1];
    cbn [fst snd AH heap trace next_ptr mem_budget];
    (destruct (zret_eqb res Z_STREAM_ERROR) eqn:Er; cbv beta iota;
     [eexists; split; [reflexivity | ];
      cbn [existsb failed_deflate failed_write fst]; rewrite ?Er;
      cbn [orb]; split; (reflexivity || discriminate) | ]);
    (destruct (flush && (avail_out z1 <? zlibOutSize cs) || (avail_out z1 =? 0)
               || negb (avail_in z1 =? 0)); cbv beta iota;
     [ | eexists; split; [reflexivity | ];
         cbn [existsb failed_deflate failed_write fst]; rewrite ?Er;
         cbn [orb]; split; discriminate]);
    (destruct (avail_out z1 <? zlibOutSize cs); cbv beta iota;
     cbn [fst snd AH heap trace next_ptr mem_budget];
     [ | eexists; split; [reflexivity | ];
         cbn [existsb failed_deflate failed_write fst]; rewrite ?Er;
         cbn [orb]; split; discriminate]);
    destruct (writeF cs (AH w) (next_out z1) (zlibOutSize cs - avail_out z1))
      as [n ah];
    cbv beta iota; cbn [fst snd AH heap trace next_ptr mem_budget];
    destruct (negb (n =? zlibOutSize cs - avail_out z1)) eqn:En;
    cbv beta iota; cbn [fst snd trace]; rewrite <- app_assoc;
    (eexists; split; [reflexivity | ]);
    cbn [app existsb failed_deflate failed_write fst]; rewrite ?Er, ?En;
    cbn [orb]; split; (reflexivity || discriminate).
Qed.

Lemma Deflate_dies fuel : forall cs flush,
  dies_when failed_deflate CouldNotCompress
    (DeflateCompressorZlib fuel cs flush)
  /\ dies_when failed_write CouldNotWrite
       (DeflateCompressorZlib fuel cs flush).
Proof.
  induction fuel as [ | fuel IH]; intros cs flush; cbn [DeflateCompressorZlib];
    (split; apply dies_when_bind; [apply dies_when_deref_zp | intros z | apply dies_when_deref_zp | intros z]);
    destruct (negb (avail_in z =? 0) || flush);
    try apply dies_when_ret; try apply dies_when_out_of_fuel.
  - apply dies_when_bind; [apply body_dies | intros [cs' stop]].
    destruct stop; [apply dies_when_ret | apply IH].
  - apply dies_when_bind; [apply body_dies | intros [cs' stop]].
    destruct stop; [apply dies_when_ret | apply IH].
Qed.

Lemma End_dies fuel cs :
  dies_when failed_deflate CouldNotCompress (EndCompressor fuel cs)
  /\ dies_when failed_write CouldNotWrite (EndCompressor fuel cs).
Proof.
  unfold EndCompressor, EndCompressorZlib.
  split;
    (apply dies_when_bind; [ | intros u; apply dies_when_free]);
    (destruct (HAVE_LIBZ && is_LIBZ (comprAlg cs)); [ | apply dies_when_ret]);
    (apply dies_when_bind; [apply dies_when_deref_zp | intros z]);
    (apply dies_when_bind; [apply Deflate_dies | intros cs1]);
    (apply dies_when_bind; [apply dies_when_deref_zp | intros z1]);
    (apply dies_when_bind; [ | intros u]);
    try (destruct (negb (zret_eqb (fst (deflateEnd z1)) Z_OK));
         [apply dies_when_die; discriminate | apply dies_when_ret]);
    (apply dies_when_bind; [ | intros u']); apply dies_when_free.
Qed.

(** After a flush that returned, [deflateEnd] decides. *)
Lemma End_after_flush fuel cs a z w cs1 a1 z1 w1 :
  HAVE_LIBZ = true -> comprAlg cs = COMPR_ALG_LIBZ ->
  zp cs = Some (a, z) ->
  DeflateCompressorZlib fuel (set_zp cs (set_in z [] 0)) true w
  = (Ret cs1, w1) ->
  zp cs1 = Some (a1, z1) ->
  EndCompressor fuel cs w
  = if zret_eqb (fst (deflateEnd z1)) Z_OK
    then (free (zlibOut cs) ;;; free a ;;; free (addr cs)) w1
    else (Die CouldNotCloseStream, w1).
Proof.
  intros HL Halg Hzp Hf Hzp1.
  pose proof (Deflate_Ret _ _ _ _ _ _ Hf) as [y Ey].
  assert (Eo : zlibOut cs1 = zlibOut cs) by (rewrite Ey; reflexivity).
  assert (Ea : zp_addr cs1 = a).
  { unfold zp_addr. rewrite Hzp1. rewrite Ey in Hzp1.
    unfold set_zp in Hzp1. cbn [zp] in Hzp1. rewrite Hzp in Hzp1.
    congruence. }
  unfold EndCompressor, EndCompressorZlib. rewrite HL, Halg.
  cbn [andb is_LIBZ]. unfold bind, deref_zp. rewrite Hzp.
  unfold ret at 1. cbv beta iota. rewrite Hf. cbv beta iota. rewrite Hzp1.
  unfold ret at 1. cbv beta iota. rewrite Eo, Ea.
  destruct (zret_eqb (fst (deflateEnd z1)) Z_OK); cbn [negb]; cbv beta iota.
  - unfold ret.
    destruct (free (zlibOut cs) w1) as [[u | e | x | ] w2]; reflexivity.
  - reflexivity.
Qed.

(** C3, as the code has it.  On a Deflate context, an [EndCompressor]
    that returns has freed the output buffer, the stream and the
    context.  One that dies does so with the message of a failed
    compression, of a failed write or of a failed close of the stream,
    and has freed nothing: the heap is the one it was called with.  And
    it does die when the flush or the close fails: with the message of
    a failed compression exactly when a [deflate] of its log gave
    [Z_STREAM_ERROR], with that of a failed write exactly when a
    [writeF] of its log did not take what it was given, and, once the
    flush has returned, with that of a failed close when [deflateEnd]
    gives another result than [Z_OK], in the world that the flush left;
    when [deflateEnd] gives [Z_OK] it goes on to the three [free]s. *)
Theorem EndCompressor_frees_unless_it_dies (fuel : nat)
  (cs : CompressorState) (w : world) :
  HAVE_LIBZ = true ->
  comprAlg cs = COMPR_ALG_LIBZ ->
  (fst (EndCompressor fuel cs w) = Ret tt ->
   live (snd (EndCompressor fuel cs w)) (zlibOut cs) = false
   /\ live (snd (EndCompressor fuel cs w)) (zp_addr cs) = false
   /\ live (snd (EndCompressor fuel cs w)) (addr cs) = false)
  /\ (forall e, fst (EndCompressor fuel cs w) = Die e ->
      heap (snd (EndCompressor fuel cs w)) = heap w
      /\ (write_failure e \/ e = CouldNotCloseStream))
  /\ (exists tr,
        trace (snd (EndCompressor fuel cs w)) = trace w ++ tr
        /\ (existsb failed_deflate tr = true
            <-> fst (EndCompressor fuel cs w) = Die CouldNotCompress)
        /\ (existsb failed_write tr = true
            <-> fst (EndCompressor fuel cs w) = Die CouldNotWrite))
  /\ (forall a z cs1 a1 z1 w1,
        zp cs = Some (a, z) ->
        DeflateCompressorZlib fuel (set_zp cs (set_in z [] 0)) true w
        = (Ret cs1, w1) ->
        zp cs1 = Some (a1, z1) ->
        EndCompressor fuel cs w
        = if zret_eqb (fst (deflateEnd z1)) Z_OK
          then (free (zlibOut cs) ;;; free a ;;; free (addr cs)) w1
          else (Die CouldNotCloseStream, w1)).
Proof.
  intros HL Halg.
  split; [ | split; [ | split]].
  3:{ destruct (End_dies fuel cs) as [Hd Hw].
      destruct (Hd w) as (tr & Etr & Dd). destruct (Hw w) as (tr' & Etr' & Dw).
      rewrite Etr in Etr'. apply app_inv_head in Etr'. subst tr'.
      exists tr. auto. }
  3:{ intros a z cs1 a1 z1 w1. apply End_after_flush; assumption. }
  all: destruct (EndCompressor fuel cs w) as [o w'] eqn:H; simpl;
    unfold EndCompressor in H; rewrite HL, Halg in H; simpl in H.
  - intros ->. bind_inv H. unfold EndCompressorZlib in E.
    bind_inv E. bind_inv E. bind_inv E. bind_inv E. bind_inv E.
    apply Deflate_Ret in E1. destruct E1 as [z1 ->].
    assert (Ez : zp_addr (set_zp (set_zp cs (set_in a0 [] 0)) z1) = zp_addr cs).
    { unfold zp_addr, set_zp. simpl. destruct (zp cs) as [[q y] | ]; reflexivity. }
    rewrite Ez in E. simpl in E4.
    apply free_Ret in E4. apply free_Ret in E. apply free_Ret in H.
    destruct E4 as (F1 & _ & _). destruct E as (F2 & K2 & _).
    destruct H as (F3 & K3 & _). auto.
  - intros e ->. apply bind_Die_inv in H.
    destruct H as [H | (u & w1 & _ & H)];
      [ | exfalso; exact (free_not_Die _ _ _ _ H)].
    unfold EndCompressorZlib in H.
    apply bind_Die_inv in H. destruct H as [H | (z & w1 & E & H)].
    { exfalso. revert H. apply (dies_in_deref_zp (fun _ => False)). }
    apply deref_zp_Ret in E. destruct E as (-> & _).
    apply bind_Die_inv in H. destruct H as [H | (cs1 & w2 & E & H)].
    { split; [ | left; exact (dies_in_Deflate _ _ _ _ _ _ H)].
      pose proof (same_heap_Deflate fuel (set_zp cs (set_in z [] 0)) true w) as S.
      rewrite H in S. exact S. }
    pose proof (same_heap_Deflate fuel (set_zp cs (set_in z [] 0)) true w) as S.
    rewrite E in S. simpl in S.
    apply bind_Die_inv in H. destruct H as [H | (z1 & w3 & E1 & H)].
    { exfalso. revert H. apply (dies_in_deref_zp (fun _ => False)). }
    apply deref_zp_Ret in E1. destruct E1 as (-> & _).
    apply bind_Die_inv in H. destruct H as [H | (u & w4 & E2 & H)].
    + destruct (negb (zret_eqb (fst (deflateEnd z1)) Z_OK)); ret_inv H.
      split; [exact S | right; reflexivity].
    + exfalso. apply bind_Die_inv in H.
      destruct H as [H | (u1 & w5 & _ & H)];
        exact (free_not_Die _ _ _ _ H).
Qed.

End WritePath.

(** ** Termination of the flush loop *)

Section Termination.
Context {zlib : Zlib} {build : Build} {archiver : Archiver}.

Lemma body_run cs a z flush w o w' :
  zp cs = Some (a, z) ->
  DeflateCompressorZlib_body cs flush w = (o, w') ->
  let fl := if flush then Z_FINISH else Z_NO_FLUSH in
  let res := fst (deflate z fl) in
  let z1 := snd (deflate z fl) in
  exists tr,
    trace w' = trace w ++ Ev_deflate fl z res z1 :: tr
    /\ (forall x, last_deflate tr x = x)
    /\ match o with
       | Ret (cs', stop) =>
           stop = zret_eqb res Z_STREAM_END
           /\ zret_eqb res Z_STREAM_ERROR = false
           /\ exists z2, cs' = set_zp cs z2
              /\ (z2 = set_out z1 [] (zlibOutSize cs)
                  \/ (z2 = z1 /\ avail_out z1 <> 0 /\ avail_in z1 = 0))
       | Die e => write_failure e
       | _ => False
       end.
Proof.
  intros Hzp. cbv zeta.
  unfold DeflateCompressorZlib_body, deref_zp. rewrite Hzp.
  unfold call_deflate, call_writeF.
  unfold bind, ret, log, die_horribly, with_AH.
  cbv beta iota zeta.
  destruct (deflate z (if flush then Z_FINISH else Z_NO_FLUSH)) as [res z1].
  cbn [fst snd AH heap trace next_ptr mem_budget].
  destruct (zret_eqb res Z_STREAM_ERROR) eqn:Er; cbv beta iota.
  { intros H. injection H as <- <-. exists []. cbn [trace].
    split; [reflexivity | split; [intros x; reflexivity | left; reflexivity]]. }
  destruct (flush && (avail_out z1 <? zlibOutSize cs) || (avail_out z1 =? 0)
            || negb (avail_in z1 =? 0)) eqn:Ec; cbv beta iota.
  - destruct (avail_out z1 <? zlibOutSize cs); cbv beta iota;
      cbn [fst snd AH heap trace next_ptr mem_budget].
    + destruct (writeF cs (AH w) (next_out z1) (zlibOutSize cs - avail_out z1))
        as [n ah].
      cbv beta iota; cbn [fst snd AH heap trace next_ptr mem_budget].
      destruct (negb (n =? zlibOutSize cs - avail_out z1));
        cbv beta iota; intros H; injection H as <- <-; cbn [trace];
        rewrite <- app_assoc;
        (eexists; split; [reflexivity | split; [intros x; reflexivity | ]]).
      * right; reflexivity.
      * split; [reflexivity | split; [reflexivity | ]].
        eexists. split; [reflexivity | left; reflexivity].
    + intros H. injection H as <- <-. exists []. cbn [trace].
      split; [reflexivity | split; [intros x; reflexivity | ]].
      split; [reflexivity | split; [reflexivity | ]].
      eexists. split; [reflexivity | left; reflexivity].
  - intros H. injection H as <- <-. exists []. cbn [trace].
    split; [reflexivity | split; [intros x; reflexivity | ]].
    split; [reflexivity | split; [reflexivity | ]].
    eexists. split; [reflexivity | right].
    apply orb_false_iff in Ec. destruct Ec as [Ec E3].
    apply orb_false_iff in Ec. destruct Ec as [_ E2].
    apply negb_false_iff in E3. apply N.eqb_eq in E3. apply N.eqb_neq in E2.
    auto.
Qed.

Lemma last_deflate_app tr1 : forall tr2 x,
  last_deflate (tr1 ++ tr2) x = last_deflate tr2 (last_deflate tr1 x).
Proof.
  induction tr1 as [ | e tr1 IH]; intros tr2 x; simpl; [reflexivity | ].
  destruct e; apply IH.
Qed.

Lemma last_deflate_Some tr : forall x r,
  last_deflate tr None = Some r -> last_deflate tr x = Some r.
Proof.
  induction tr as [ | e tr IH]; intros x r; simpl; [discriminate | ].
  destruct e; auto.
Qed.

Lemma Deflate_no_input fuel cs a z w :
  zp cs = Some (a, z) -> avail_in z = 0 ->
  DeflateCompressorZlib fuel cs false w = (Ret cs, w).
Proof.
  intros Hzp Hin. destruct fuel; simpl; unfold deref_zp; rewrite Hzp;
    unfold bind, ret; simpl; rewrite Hin; reflexivity.
Qed.



(** *** What a write takes *)

(** A [DeflateCompressorZlib] that is not asked to finish and returns
    has called [deflate] on the stream as it was given, unless the
    stream had no input, and leaves a stream with no input left, or one
    whose last [deflate] reported the end. *)
Lemma Deflate_exit (a : ptr) : forall fuel cs z w cs' w',
  zp cs = Some (a, z) ->
  DeflateCompressorZlib fuel cs false w = (Ret cs', w') ->
  exists z' tr,
    zp cs' = Some (a, z')
    /\ trace w' = trace w ++ tr
    /\ (avail_in z <> 0 ->
        exists res z1 tr', tr = Ev_deflate Z_NO_FLUSH z res z1 :: tr')
    /\ (avail_in z' = 0 \/ last_deflate tr None = Some Z_STREAM_END).
Proof.
  induction fuel as [ | fuel IH]; intros cs z w cs' w' Hzp;
    simpl; unfold deref_zp; rewrite Hzp; unfold bind at 1, ret at 1;
    rewrite orb_false_r; destruct (avail_in z =? 0) eqn:Ec; cbn [negb];
    try (intros H; ret_inv H; apply N.eqb_eq in Ec;
         exists z, []; rewrite app_nil_r;
         split; [exact Hzp | split; [reflexivity | split; [ | left; exact Ec]]];
         intros Hne; contradiction).
  { intros H. ret_inv H. }
  unfold bind.
  destruct (DeflateCompressorZlib_body cs false w) as [o1 w1] eqn:Eb.
  pose proof (body_run _ _ _ _ _ _ _ Hzp Eb) as (tr1 & Etr & Hnd & Ho).
  cbv zeta in *.
  destruct o1 as [[cs1 stop] | e | f | ]; try contradiction;
    [ | intros H; discriminate H].
  destruct Ho as (-> & Herr & z2 & -> & Hz2).
  assert (Hzp1 : zp (set_zp cs z2) = Some (a, z2)).
  { unfold set_zp. simpl. rewrite Hzp. reflexivity. }
  destruct (zret_eqb (fst (deflate z Z_NO_FLUSH)) Z_STREAM_END) eqn:Eend.
  - intros H. ret_inv H. exists z2. eexists.
    split; [exact Hzp1 | split; [exact Etr | split]].
    + intros _. eexists. eexists. eexists. reflexivity.
    + right. simpl. rewrite Hnd.
      match type of Eend with zret_eqb ?r _ = true =>
        assert (Er : r = Z_STREAM_END)
          by (destruct r; try discriminate; reflexivity);
        rewrite Er
      end.
      reflexivity.
  - intros H.
    destruct (IH _ _ _ _ _ Hzp1 H) as (z' & tr2 & Hzp' & Etr2 & _ & Hlast).
    exists z'. eexists. split; [exact Hzp' | split; [ | split]].
    + rewrite Etr2, Etr, <- app_assoc. reflexivity.
    + intros _. eexists. eexists. eexists. reflexivity.
    + destruct Hlast as [Hl | Hl]; [left; exact Hl | right].
      simpl. rewrite last_deflate_app, Hnd.
      apply last_deflate_Some. exact Hl.
Qed.

(** On a context without compression a write that returns has handed
    all of [data] to [writeF], which took [dLen].  On a Deflate context
    a write of a length that a [uInt] holds has handed all of [data] to
    [deflate], and when it returns the stream has no input left, or the
    last [deflate] reported the end. *)
Lemma write_takes_what_a_uInt_counts fuel cs data dLen w n cs' w' :
  WriteDataToArchive fuel cs data dLen w = (Ret (n, cs'), w') ->
  (comprAlg cs = COMPR_ALG_NONE ->
   n = dLen /\ cs' = cs
   /\ trace w' = trace w ++ [Ev_writeF data dLen dLen])
  /\ (comprAlg cs = COMPR_ALG_LIBZ -> dLen < 2 ^ 32 ->
      n = dLen
      /\ exists a z z' tr,
           zp cs = Some (a, z) /\ zp cs' = Some (a, z')
           /\ trace w' = trace w ++ tr
           /\ (dLen <> 0 ->
               exists res z1 tr',
                 tr = Ev_deflate Z_NO_FLUSH (set_in z data dLen) res z1 :: tr')
           /\ (avail_in z' = 0 \/ last_deflate tr None = Some Z_STREAM_END)).
Proof.
  unfold WriteDataToArchive. intros H.
  destruct (comprAlg cs) eqn:Ealg;
    (split; [intros Hn; try discriminate Hn | intros Hz; try discriminate Hz]).
  - unfold WriteDataToArchiveNone, call_writeF in H.
    unfold bind, ret, log, die_horribly, with_AH in H.
    cbv beta iota zeta in H.
    destruct (writeF cs (AH w) data dLen) as [m ah].
    cbn [fst snd AH heap trace next_ptr mem_budget] in H.
    destruct (negb (m =? dLen)) eqn:En; [discriminate H | ].
    apply negb_false_iff, N.eqb_eq in En. subst m.
    injection H as <- <- <-. cbn [trace]. auto.
  - intros Hlt. destruct HAVE_LIBZ; [ | ret_inv H].
    unfold WriteDataToArchiveZlib in H.
    bind_inv H. apply deref_zp_Ret in E. destruct E as (-> & p & Hzp).
    bind_inv H. ret_inv H.
    assert (Eu : to_uInt n = n) by (apply N.mod_small; exact Hlt).
    rewrite Eu in E.
    assert (Hzp1 : zp (set_zp cs (set_in a data n)) = Some (p, set_in a data n)).
    { unfold set_zp. simpl. rewrite Hzp. reflexivity. }
    destruct (Deflate_exit p _ _ _ _ _ _ Hzp1 E)
      as (z' & tr & Hzp' & Etr & Hfirst & Hlast).
    split; [reflexivity | ].
    exists p, a, z', tr.
    split; [exact Hzp | split; [exact Hzp' | split; [exact Etr | split]]].
    + intros Hne. apply Hfirst. exact Hne.
    + exact Hlast.
Qed.

(** A Deflate write counts its input in a [uInt]: a write of [dLen]
    bytes does what a write of [dLen] modulo [2 ^ 32] bytes does, and
    returns [dLen]. *)
Lemma Write_narrows fuel cs data dLen w :
  HAVE_LIBZ = true -> comprAlg cs = COMPR_ALG_LIBZ ->
  WriteDataToArchive fuel cs data dLen w
  = let (o, w') := WriteDataToArchive fuel cs data (to_uInt dLen) w in
    (match o with
     | Ret (_, cs') => Ret (dLen, cs')
     | Die e => Die e
     | Fault f => Fault f
     | Timeout => Timeout
     end, w').
Proof.
  intros HL Halg. unfold WriteDataToArchive. rewrite HL, Halg.
  unfold WriteDataToArchiveZlib.
  assert (Eu : to_uInt (to_uInt dLen) = to_uInt dLen).
  { unfold to_uInt. apply N.Div0.mod_mod. }
  rewrite Eu. unfold bind, ret.
  destruct (deref_zp cs w) as [[z | e | f | ] w1]; try reflexivity.
  destruct (DeflateCompressorZlib fuel (set_zp cs (set_in z data (to_uInt dLen)))
              false w1) as [[cs1 | e | f | ] w2]; reflexivity.
Qed.

(** C5 fails beyond the range of [uInt].  On a Deflate context a write
    whose length is a multiple of [2 ^ 32] returns that length at once,
    in the world it was called in: [deflate] and [writeF] have not been
    called, and the stream is left with no input, so that no byte of
    [data] has been taken or will be. *)
Theorem wide_write_is_dropped (fuel : nat) (cs : CompressorState)
  (a : ptr) (z : z_stream) (data : list byte) (k : N) (w : world) :
  HAVE_LIBZ = true ->
  comprAlg cs = COMPR_ALG_LIBZ ->
  zp cs = Some (a, z) ->
  N.of_nat (length data) = k * 2 ^ 32 ->
  WriteDataToArchive fuel cs data (N.of_nat (length data)) w
  = (Ret (k * 2 ^ 32, set_zp cs (set_in z data 0)), w).
Proof.
  intros HL Halg Hzp Hk. rewrite Hk.
  unfold WriteDataToArchive. rewrite HL, Halg.
  unfold WriteDataToArchiveZlib, deref_zp. rewrite Hzp.
  unfold bind at 1, ret at 1.
  assert (Eu : to_uInt (k * 2 ^ 32) = 0).
  { unfold to_uInt. apply N.Div0.mod_mul. }
  rewrite Eu.
  assert (Hzp1 : zp (set_zp cs (set_in z data 0)) = Some (a, set_in z data 0)).
  { unfold set_zp. simpl. rewrite Hzp. reflexivity. }
  unfold bind.
  rewrite (Deflate_no_input fuel _ _ _ w Hzp1 eq_refl). reflexivity.
Qed.

End Termination.

(** ** The reader *)

Section ReadPath.

Context {zlib : Zlib} {build : Build} {archiver : Archiver}.

Lemma to_uInt_fits {A} (d : list A) :
  fits_uInt d -> to_uInt (N.of_nat (length d)) = N.of_nat (length d).
Proof. intros H. apply N.mod_small. exact H. Qed.

Lemma uInt_sub_exact a b : b <= a -> a < 2 ^ 32 -> uInt_sub a b = a - b.
Proof.
  intros Hb Ha. unfold uInt_sub.
  replace (a + 2 ^ 32 - b) with ((a - b) + 1 * 2 ^ 32) by lia.
  rewrite N.Div0.mod_add. apply N.mod_small. lia.
Qed.

Lemma steady_ret h {A} (a : A) : steady h (ret a).
Proof. intros w E. split; [discriminate | exact E]. Qed.

Lemma steady_die h {A} e : steady h (die_horribly e : M A).
Proof. intros w E. split; [discriminate | exact E]. Qed.

Lemma steady_out_of_fuel h {A} : steady h (out_of_fuel : M A).
Proof. intros w E. split; [discriminate | exact E]. Qed.

Lemma steady_bind h {A B} (m : M A) (f : A -> M B) :
  steady h m -> (forall a, steady h (f a)) -> steady h (bind m f).
Proof.
  intros Hm Hf w E. unfold bind. destruct (Hm w E) as [Hn Hh].
  destruct (m w) as [[a | e | x | ] w1]; simpl in *.
  - apply Hf. exact Hh.
  - split; [discriminate | exact Hh].
  - exfalso. exact (Hn x eq_refl).
  - split; [discriminate | exact Hh].
Qed.

Lemma steady_bind_post h {A B} (Q : A -> Prop) (m : M A) (f : A -> M B) :
  (forall w a w', m w = (Ret a, w') -> Q a) ->
  steady h m -> (forall a, Q a -> steady h (f a)) -> steady h (bind m f).
Proof.
  intros HQ Hm Hf w E. unfold bind. destruct (Hm w E) as [Hn Hh].
  specialize (HQ w).
  destruct (m w) as [[a | e | x | ] w1]; simpl in *.
  - apply Hf; [eapply HQ; reflexivity | exact Hh].
  - split; [discriminate | exact Hh].
  - exfalso. exact (Hn x eq_refl).
  - split; [discriminate | exact Hh].
Qed.

Lemma call_inflate_Ret z fl w r w' :
  call_inflate z fl w = (Ret r, w') -> r = inflate z fl.
Proof. unfold call_inflate, bind, log, ret. intros H. ret_inv H. reflexivity. Qed.

Lemma steady_log h e : steady h (log e).
Proof. intros w E. split; [discriminate | exact E]. Qed.

Lemma steady_with_AH h {A} (f : ArchiveHandle -> A * ArchiveHandle) :
  steady h (with_AH f).
Proof.
  intros w E. unfold with_AH. destruct (f (AH w)) as [a ah].
  split; [discriminate | exact E].
Qed.

Lemma steady_store h p buf i b sz :
  p <> NULL -> heap_size h p = Some sz -> i < sz ->
  steady h (store p buf i b).
Proof.
  intros Hp Hs Hi w E. unfold store, block_size.
  apply N.eqb_neq in Hp. rewrite Hp, E, Hs.
  apply N.ltb_lt in Hi. rewrite Hi. split; [discriminate | exact E].
Qed.

End ReadPath.

#[local] Hint Resolve steady_ret steady_die steady_out_of_fuel steady_log
  steady_with_AH : pres.

Ltac steady_step :=
  match goal with
  | |- steady _ (bind _ _) => apply steady_bind; [ | intro]
  | |- steady _ (if ?b then _ else _) => destruct b eqn:?
  | |- steady _ (let (_, _) := ?r in _) => destruct r eqn:?
  | |- steady _ (match ?r with _ => _ end) => destruct r eqn:?
  | |- steady _ _ => solve [auto with pres]
  end.

Ltac steady := repeat steady_step.

Section Bounds.

Context {zlib : Zlib} {build : Build} {archiver : Archiver}.

Hypothesis inflate_room : inflate_keeps_room.
Hypothesis out_size_uInt : ZLIB_OUT_SIZE < 2 ^ 32.

Lemma span_exact z :
  uInt_sub ZLIB_OUT_SIZE
    (avail_out (snd (inflate (set_out z [] ZLIB_OUT_SIZE) Z_NO_FLUSH)))
  = ZLIB_OUT_SIZE
    - avail_out (snd (inflate (set_out z [] ZLIB_OUT_SIZE) Z_NO_FLUSH))
  /\ avail_out (snd (inflate (set_out z [] ZLIB_OUT_SIZE) Z_NO_FLUSH))
     <= ZLIB_OUT_SIZE.
Proof.
  pose proof (inflate_room (set_out z [] ZLIB_OUT_SIZE) Z_NO_FLUSH) as H.
  simpl in H. split; [ | exact H].
  apply uInt_sub_exact; assumption.
Qed.

Lemma steady_inflate_to_ahwrite h out z :
  out <> NULL -> heap_size h out = Some (ZLIB_OUT_SIZE + 1) ->
  steady h (inflate_to_ahwrite out z).
Proof.
  intros Hp Hs. unfold inflate_to_ahwrite.
  apply steady_bind_post
    with (Q := fun r => r = inflate (set_out z [] ZLIB_OUT_SIZE) Z_NO_FLUSH).
  - intros w a w'. apply call_inflate_Ret.
  - unfold call_inflate. steady.
  - intros r ->. destruct (span_exact z) as [Hx Hle].
    destruct (inflate (set_out z [] ZLIB_OUT_SIZE) Z_NO_FLUSH) as [res z1].
    simpl in Hx, Hle. unfold call_ahwrite. steady.
    eapply steady_store; [exact Hp | exact Hs | ]. rewrite Hx. lia.
Qed.

Lemma steady_inflate_chunk h out :
  out <> NULL -> heap_size h out = Some (ZLIB_OUT_SIZE + 1) ->
  forall fuel res z, steady h (inflate_chunk fuel out res z).
Proof.
  intros Hp Hs. induction fuel as [ | fuel IH]; intros res z; simpl; steady.
  apply steady_inflate_to_ahwrite; assumption.
Qed.

Lemma steady_inflate_drain h out :
  out <> NULL -> heap_size h out = Some (ZLIB_OUT_SIZE + 1) ->
  forall fuel res z, steady h (inflate_drain fuel out res z).
Proof.
  intros Hp Hs. induction fuel as [ | fuel IH]; intros res z; simpl; steady.
  apply steady_inflate_to_ahwrite; assumption.
Qed.

(** The loop over the chunks, when [readF] keeps to its buffer: the
    output buffer stays where it is. *)
Lemma chunks_keep rest out readF :
  keeps_to_its_buffer readF -> out <> NULL ->
  heap_size rest out = Some (ZLIB_OUT_SIZE + 1) ->
  forall fuel buf buflen res z w,
    buffer_in rest (heap w) (fst buf) ->
    (forall f, fst (inflate_chunks fuel readF out buf buflen res z w)
               <> Fault f)
    /\ (forall b r w',
          inflate_chunks fuel readF out buf buflen res z w = (Ret (b, r), w') ->
          buffer_in rest (heap w') b).
Proof.
  intros Hk Hp Hs.
  induction fuel as [ | fuel IH]; intros buf buflen res z w Hb;
    cbn [inflate_chunks].
  - split; [discriminate | intros b r w' H; discriminate H].
  - destruct (call_readF_keeps readF rest buf buflen w Hk Hb)
      as (r & w1 & E & Hb1 & _).
    rewrite (bind_eq _ _ _ _ _ E). destruct r as [[cnt buf1] buflen1].
    cbn [fst snd] in Hb1. destruct (negb (cnt =? 0)).
    + destruct (buffer_in_other _ _ _ _ _ Hb1 Hs) as [Ho _].
      pose proof (steady_inflate_chunk (heap w1) out Hp Ho fuel res
                    (set_in z (snd buf1) (to_uInt cnt)) w1 eq_refl)
        as [Hnf Hh].
      unfold bind.
      destruct (inflate_chunk fuel out res
                  (set_in z (snd buf1) (to_uInt cnt)) w1)
        as [[r1 | e | f | ] w2]; cbn [fst snd] in *.
      * apply IH. rewrite Hh. exact Hb1.
      * split; [discriminate | intros b r w' H; discriminate H].
      * exfalso. exact (Hnf f eq_refl).
      * split; [discriminate | intros b r w' H; discriminate H].
    + split; [discriminate | ].
      intros b r w' H. ret_inv H. exact Hb1.
Qed.


Lemma malloc_cases size w :
  malloc size w = (Ret NULL, w)
  \/ exists b,
       malloc size w
       = (Ret (N.succ (next_ptr w)),
          mk_world (AH w) ((N.succ (next_ptr w), size) :: heap w)
            (N.succ (next_ptr w)) b (trace w)).
Proof.
  unfold malloc. destruct (mem_budget w) as [ | b]; [left | right; exists b];
    reflexivity.
Qed.

Lemma malloc_budget size w :
  (mem_budget w = O /\ malloc size w = (Ret NULL, w))
  \/ exists b,
       mem_budget w = S b
       /\ malloc size w
          = (Ret (N.succ (next_ptr w)),
             mk_world (AH w) ((N.succ (next_ptr w), size) :: heap w)
               (N.succ (next_ptr w)) b (trace w)).
Proof.
  unfold malloc. destruct (mem_budget w) as [ | b];
    [left; split; reflexivity | right; exists b; split; reflexivity].
Qed.

Lemma succ_not_NULL n : (N.succ n =? NULL) = false.
Proof. apply N.eqb_neq. unfold NULL. apply N.neq_succ_0. Qed.

Lemma no_fault_bind {A B} (m : M A) (k : A -> M B) w :
  (forall f, fst (m w) <> Fault f) ->
  (forall a w', m w = (Ret a, w') -> forall f, fst (k a w') <> Fault f) ->
  forall f, fst (bind m k w) <> Fault f.
Proof.
  intros Hm Hk f. unfold bind.
  destruct (m w) as [[a | e | x | ] w1]; cbn [fst] in *; try discriminate.
  - apply Hk. reflexivity.
  - exfalso. exact (Hm x eq_refl).
Qed.

Lemma emits_call_inflate P z fl :
  (forall r, P (Ev_inflate z (fst r) (snd r))) ->
  preserves (emits P) (call_inflate z fl).
Proof.
  intros H. unfold call_inflate.
  apply preserves_bind; [apply emits_trans | | ].
  - apply emits_log. apply H.
  - intros _. apply preserves_ret. apply emits_refl.
Qed.

Lemma emits_call_readF P rF buf buflen :
  (forall cnt b, P (Ev_readF cnt b)) ->
  preserves (emits P) (call_readF rF buf buflen).
Proof.
  intros H. unfold call_readF.
  apply preserves_bind; [apply emits_trans | apply emits_with_memory | ].
  intros r. apply preserves_bind; [apply emits_trans | | ].
  - apply emits_log. apply H.
  - intros _. apply preserves_ret. apply emits_refl.
Qed.

Lemma emits_call_ahwrite P p size nmemb :
  P (Ev_ahwrite p size nmemb) ->
  preserves (emits P) (call_ahwrite p size nmemb).
Proof.
  intros H. unfold call_ahwrite.
  apply preserves_bind; [apply emits_trans | apply emits_with_AH | ].
  intros _. apply emits_log. exact H.
Qed.

Lemma bounds_inflate_to_ahwrite out z :
  preserves (emits span_in_bounds) (inflate_to_ahwrite out z).
Proof.
  unfold inflate_to_ahwrite.
  apply preserves_bind_post
    with (Q := fun r => r = inflate (set_out z [] ZLIB_OUT_SIZE) Z_NO_FLUSH).
  - apply emits_trans.
  - intros w a w'. apply call_inflate_Ret.
  - apply emits_call_inflate. intros r. exact I.
  - intros r ->. destruct (span_exact z) as [Hx Hle].
    destruct (inflate (set_out z [] ZLIB_OUT_SIZE) Z_NO_FLUSH) as [res z1].
    simpl in Hx, Hle. pres.
    apply emits_call_ahwrite. simpl. rewrite Hx. lia.
Qed.

Lemma bounds_Zlib fuel readF :
  preserves (emits span_in_bounds) (ReadDataFromArchiveZlib fuel readF).
Proof.
  assert (Hc : forall fuel out res z,
             preserves (emits span_in_bounds) (inflate_chunk fuel out res z)).
  { induction fuel0 as [ | fuel0 IH]; intros out res z; simpl; pres.
    apply bounds_inflate_to_ahwrite. }
  assert (Hd : forall fuel out res z,
             preserves (emits span_in_bounds) (inflate_drain fuel out res z)).
  { induction fuel0 as [ | fuel0 IH]; intros out res z; simpl; pres.
    apply bounds_inflate_to_ahwrite. }
  assert (Hs : forall fuel out buf buflen res z,
             preserves (emits span_in_bounds)
               (inflate_chunks fuel readF out buf buflen res z)).
  { induction fuel0 as [ | fuel0 IH]; intros out buf buflen res z; simpl; pres.
    apply emits_call_readF. intros cnt b. exact I. }
  unfold ReadDataFromArchiveZlib. pres.
Qed.

Lemma guard_run (b : bool) e w :
  (forall f, fst ((if b then die_horribly e else ret tt) w) <> Fault f)
  /\ forall u w', (if b then die_horribly e else ret tt) w = (Ret u, w') ->
                  w' = w.
Proof.
  destruct b; (split; [discriminate | ]); intros u w' H; ret_inv H;
    reflexivity.
Qed.

Lemma no_fault_Zlib fuel readF w f :
  keeps_to_its_buffer readF ->
  fst (ReadDataFromArchiveZlib fuel readF w) <> Fault f.
Proof.
  intros Hk. unfold ReadDataFromArchiveZlib.
  destruct (malloc_cases sizeof_z_stream w) as [E | [b1 E]];
    rewrite (bind_eq _ _ _ _ _ E); [discriminate | ].
  rewrite succ_not_NULL. unfold bind at 1, ret at 1.
  match goal with |- fst (bind _ _ ?w1) <> _ =>
    destruct (malloc_cases ZLIB_IN_SIZE w1) as [E1 | [b2 E1]];
      rewrite (bind_eq _ _ _ _ _ E1); [discriminate | ]
  end.
  rewrite succ_not_NULL. unfold bind at 1, ret at 1.
  match goal with |- fst (bind _ _ ?w1) <> _ =>
    destruct (malloc_cases (ZLIB_OUT_SIZE + 1) w1) as [E2 | [b3 E2]];
      rewrite (bind_eq _ _ _ _ _ E2); [discriminate | ]
  end.
  rewrite succ_not_NULL. unfold bind at 1, ret at 1.
  cbn [next_ptr heap AH trace mem_budget].
  destruct (inflateInit z_stream_fresh) as [r z].
  set (p := N.succ (next_ptr w)). set (b := N.succ p). set (out := N.succ b).
  match goal with |- fst (_ ?w3) <> _ => set (w3' := w3) end.
  set (rest := heap_remove (heap w3') b).
  assert (Hp : p <> NULL) by (unfold NULL, p; lia).
  assert (Hb : b <> NULL) by (unfold NULL, b; lia).
  assert (Ho : out <> NULL) by (unfold NULL, out; lia).
  assert (Hbuf : buffer_in rest (heap w3') b).
  { split; [exact Hb | split; [ | reflexivity]].
    unfold w3'. cbn [heap heap_size].
    replace (out =? b) with false by (symmetry; apply N.eqb_neq; unfold out; lia).
    rewrite N.eqb_refl. discriminate. }
  assert (Hso : heap_size rest out = Some (ZLIB_OUT_SIZE + 1)).
  { unfold rest. rewrite heap_size_remove_other by (unfold out; lia).
    unfold w3'. cbn [heap heap_size]. rewrite N.eqb_refl. reflexivity. }
  assert (Hsp : heap_size rest p = Some sizeof_z_stream).
  { unfold rest. rewrite heap_size_remove_other by (unfold b; lia).
    unfold w3'. cbn [heap heap_size].
    replace (out =? p) with false
      by (symmetry; apply N.eqb_neq; unfold out, b; lia).
    replace (b =? p) with false by (symmetry; apply N.eqb_neq; unfold b; lia).
    rewrite N.eqb_refl. reflexivity. }
  clearbody w3' rest.
  apply no_fault_bind; [apply guard_run | ].
  intros u4 w4 E4. apply guard_run in E4. subst w4.
  destruct (chunks_keep rest out readF Hk Ho Hso fuel (b, []) ZLIB_IN_SIZE
              Z_OK z w3' Hbuf) as [Hnf Hkeep].
  apply no_fault_bind; [exact Hnf | ].
  intros [buf r1] w5 E5. apply Hkeep in E5.
  destruct (buffer_in_other _ _ _ _ _ E5 Hso) as [Ho5 _].
  pose proof (steady_inflate_drain (heap w5) out Ho Ho5 fuel (fst r1)
                (set_in (snd r1) [] 0) w5 eq_refl) as [Hnf6 Hh6].
  apply no_fault_bind; [exact Hnf6 | ].
  intros r2 w6 E6. rewrite E6 in Hh6. cbn [snd] in Hh6.
  apply no_fault_bind; [apply guard_run | ].
  intros u7 w7 E7. apply guard_run in E7. subst w7.
  rewrite <- Hh6 in E5.
  destruct (frees_of_reader rest buf out p w6 _ _ E5 Hso Hsp Ho Hp)
    as (w8 & E8 & _); [unfold out, b; lia | ].
  rewrite E8. discriminate.
Qed.

Lemma in_place_keeps g : keeps_to_its_buffer (in_place g).
Proof. intros ah m buf buflen H. exact H. Qed.

(** C9.  If [inflate] never gives back more room for output than it
    was given, and the size of the output buffer is a [uInt], then
    [ReadDataFromArchiveZlib] never stores outside a block: the zero
    byte goes to an index of the block of [ZLIB_OUT_SIZE + 1] bytes, and
    that index, which is the length handed to [ahwrite], is at most
    [ZLIB_OUT_SIZE] in every step of the inner loop and of the last
    loop, whatever [readF] does.  With a [readF] that keeps to its
    buffer, the reader has no other undefined behaviour either; a
    [readF] that works on the handle and on the bytes of the buffer
    alone is one. *)
Theorem trailing_zero_store_in_bounds (fuel : nat) (readF : ReadFunc)
  (w : world) :
  (keeps_to_its_buffer readF ->
   forall f, fst (ReadDataFromArchiveZlib fuel readF w) <> Fault f)
  /\ (forall g f,
        fst (ReadDataFromArchiveZlib fuel (in_place g) w) <> Fault f)
  /\ emits span_in_bounds w (snd (ReadDataFromArchiveZlib fuel readF w)).
Proof.
  split; [ | split].
  - intros Hk f. apply no_fault_Zlib. exact Hk.
  - intros g f. apply no_fault_Zlib. apply in_place_keeps.
  - apply bounds_Zlib.
Qed.

End Bounds.

(** ** The last loop of the reader *)

Section Drain.

Context {zlib : Zlib} {build : Build} {archiver : Archiver}.

Lemma step_run out z w o w' :
  inflate_to_ahwrite out z w = (o, w') ->
  let z0 := set_out z [] ZLIB_OUT_SIZE in
  let r := fst (inflate z0 Z_NO_FLUSH) in
  let z' := snd (inflate z0 Z_NO_FLUSH) in
  let n := uInt_sub ZLIB_OUT_SIZE (avail_out z') in
  match o with
  | Ret (r1, z1) =>
      r1 = r /\ z1 = z' /\ inflate_ok r = true
      /\ trace w' = trace w
           ++ [Ev_inflate z0 r z'; Ev_ahwrite (poke (next_out z') n x00) 1 n]
  | Die e =>
      e = CouldNotUncompress /\ inflate_ok r = false
      /\ trace w' = trace w ++ [Ev_inflate z0 r z']
  | Fault _ =>
      inflate_ok r = true /\ trace w' = trace w ++ [Ev_inflate z0 r z']
  | Timeout => False
  end.
Proof.
  unfold inflate_to_ahwrite, call_inflate, call_ahwrite, store.
  unfold bind, ret, log, die_horribly, with_AH.
  cbv beta iota zeta.
  destruct (inflate (set_out z [] ZLIB_OUT_SIZE) Z_NO_FLUSH) as [r z'].
  cbn [fst snd AH heap trace next_ptr mem_budget].
  unfold inflate_ok.
  destruct (zret_eqb r Z_OK), (zret_eqb r Z_STREAM_END);
    cbn [negb andb orb]; cbv beta iota.
  all: try (intros H; injection H as <- <-; cbn [trace]; auto; fail).
  all: match goal with |- context [block_size ?w0 ?p] =>
         destruct (block_size w0 p) as [sz | ]
       end;
       [destruct (_ <? sz) | ]; cbv beta iota;
       intros H; injection H as <- <-; cbn [trace];
       rewrite <- ?app_assoc; auto.
Qed.

Lemma inflate_failed_app tr1 tr2 :
  inflate_failed (tr1 ++ tr2) = inflate_failed tr1 || inflate_failed tr2.
Proof.
  induction tr1 as [ | e tr1 IH]; simpl; [reflexivity | ].
  destruct e; try exact IH. rewrite IH. apply orb_assoc.
Qed.

Lemma last_inflate_app tr1 : forall tr2 r,
  last_inflate (tr1 ++ tr2) r = last_inflate tr2 (last_inflate tr1 r).
Proof.
  induction tr1 as [ | e tr1 IH]; intros tr2 r; simpl; [reflexivity | ].
  destruct e; apply IH.
Qed.

Lemma last_stream_app tr1 : forall tr2 z,
  last_stream (tr1 ++ tr2) z = last_stream tr2 (last_stream tr1 z).
Proof.
  induction tr1 as [ | e tr1 IH]; intros tr2 z; simpl; [reflexivity | ].
  destruct e; apply IH.
Qed.

(** The input fields of the stream before a log do not matter to the
    stream it leaves, once that one is given no input. *)
Lemma last_stream_no_input tr : forall z1 z2 : z_stream,
  set_in z1 [] 0 = set_in z2 [] 0 ->
  set_in (last_stream tr z1) [] 0 = set_in (last_stream tr z2) [] 0.
Proof.
  induction tr as [ | e tr IH]; intros z1 z2 H; simpl; [exact H | ].
  destruct e; try (apply IH; exact H). reflexivity.
Qed.

Lemma zret_eqb_eq a b : zret_eqb a b = true -> a = b.
Proof. destruct a, b; simpl; intros H; try discriminate H; reflexivity. Qed.

Lemma inflate_ok_cases r :
  inflate_ok r = true -> r = Z_OK \/ r = Z_STREAM_END.
Proof. destruct r; simpl; intros H; try discriminate H; auto. Qed.

Lemma last_cons {A} (a : A) l d : last (a :: l) d = last l a.
Proof.
  revert a d. induction l as [ | b l IH]; intros a d; [reflexivity | ].
  change (last (a :: b :: l) d) with (last (b :: l) d).
  rewrite !IH. reflexivity.
Qed.

Lemma drain_log_asks_nothing : forall rs z, Forall asks_nothing (drain_log z rs).
Proof.
  induction rs as [ | r rs IH]; intros z; cbn [drain_log]; [constructor | ].
  constructor; [exact I | ].
  destruct (inflate_ok r); [ | constructor].
  constructor; [exact I | apply IH].
Qed.

Lemma asks_nothing_more tr : Forall asks_nothing tr -> Forall asks_more tr.
Proof.
  intros H. eapply Forall_impl; [ | exact H].
  intros e He. destruct e; simpl in *; auto; contradiction.
Qed.

(** A log has one place at most where the input ends, when [readF] is
    not called after it. *)
Lemma eof_splits_once : forall pre0 pre b b0 post post0,
  pre ++ Ev_readF 0 b :: post = pre0 ++ Ev_readF 0 b0 :: post0 ->
  Forall asks_more pre0 -> Forall asks_nothing post0 ->
  pre = pre0 /\ b = b0 /\ post = post0.
Proof.
  induction pre0 as [ | e0 pre0 IH]; intros pre b b0 post post0 E H0 H1.
  - destruct pre as [ | e pre]; simpl in E.
    + injection E as -> ->. auto.
    + exfalso. injection E as _ E. rewrite <- E in H1.
      apply Forall_app in H1. destruct H1 as [_ H1].
      inversion H1 as [ | ? ? Hx _]. exact Hx.
  - destruct pre as [ | e pre]; simpl in E.
    + exfalso. injection E as E _. subst e0.
      inversion H0 as [ | ? ? Hx _]. apply Hx. reflexivity.
    + injection E as -> E. inversion H0 as [ | ? ? _ H0'].
      destruct (IH _ _ _ _ _ E H0' H1) as (-> & -> & ->). auto.
Qed.

(** The inner loop returns the result and the stream of its last
    [inflate]. *)
Lemma chunk_run : forall fuel out res z w r z' w',
  inflate_chunk fuel out res z w = (Ret (r, z'), w') ->
  exists tr,
    trace w' = trace w ++ tr /\ r = last_inflate tr res
    /\ z' = last_stream tr z /\ Forall asks_nothing tr
    /\ (inflate_ok res = true -> inflate_ok r = true).
Proof.
  induction fuel as [ | fuel IH]; intros out res z w r z' w' H; simpl in H.
  - destruct (0 <? avail_in z); ret_inv H.
    exists []. rewrite app_nil_r. auto.
  - destruct (0 <? avail_in z).
    2:{ ret_inv H. exists []. rewrite app_nil_r. auto. }
    bind_inv H. pose proof (step_run _ _ _ _ _ E) as S. cbv zeta in S.
    destruct a as [r1 z1]. destruct S as (-> & -> & Hok & Etr).
    apply IH in H. destruct H as (tr & Etr2 & -> & -> & Hn & Hk).
    eexists. split; [ | split; [ | split; [ | split]]].
    + rewrite Etr2, Etr, <- app_assoc. reflexivity.
    + rewrite last_inflate_app. reflexivity.
    + rewrite last_stream_app. reflexivity.
    + apply Forall_app. split; [ | exact Hn].
      constructor; [exact I | constructor; [exact I | constructor]].
    + intros _. apply Hk. exact Hok.
Qed.

Lemma call_readF_Ret rF buf buflen w r w' :
  call_readF rF buf buflen w = (Ret r, w') ->
  trace w' = trace w ++ [Ev_readF (fst (fst r)) (snd (snd (fst r)))].
Proof.
  unfold call_readF, bind, with_memory, log, ret.
  destruct (rF (AH w) _ buf buflen) as [[x ah] m]. intros H. ret_inv H.
  reflexivity.
Qed.

Lemma call_readF_returns rF buf buflen w :
  exists r w', call_readF rF buf buflen w = (Ret r, w').
Proof.
  unfold call_readF, bind, with_memory, log, ret.
  destruct (rF (AH w) _ buf buflen) as [[x ah] m].
  eexists. eexists. reflexivity.
Qed.

(** The outer loop returns after a [readF] that gave 0, the only one
    that did, with the result of the last [inflate] and with the stream
    as it left it, up to the input that was set since. *)
Lemma chunks_run rF : forall fuel out buf buflen res z w bp r z' w',
  inflate_chunks fuel rF out buf buflen res z w = (Ret (bp, (r, z')), w') ->
  exists pre b,
    trace w' = trace w ++ pre ++ [Ev_readF 0 b]
    /\ Forall asks_more pre
    /\ r = last_inflate pre res
    /\ set_in z' [] 0 = set_in (last_stream pre z) [] 0
    /\ (inflate_ok res = true -> inflate_ok r = true).
Proof.
  induction fuel as [ | fuel IH];
    intros out buf buflen res z w bp r z' w' H;
    simpl in H; [ret_inv H | ].
  bind_inv H. apply call_readF_Ret in E. destruct a as [[cnt b] bl].
  simpl in E. destruct (cnt =? 0) eqn:Ec; simpl in H.
  - ret_inv H. apply N.eqb_eq in Ec. subst cnt.
    exists [], (snd b). split; [exact E | ]. simpl. auto.
  - bind_inv H. destruct a as [r1 z1]. apply chunk_run in E0.
    destruct E0 as (tr & Etr & -> & -> & Hn & Hk). apply IH in H.
    destruct H as (pre & b' & Etr2 & Hm & -> & Ez & Hk2).
    exists (Ev_readF cnt (snd b) :: tr ++ pre), b'.
    split; [ | split; [ | split; [ | split]]].
    + rewrite Etr2, Etr, E. cbn [fst snd]. simpl.
      rewrite <- !app_assoc. reflexivity.
    + constructor; [simpl; apply N.eqb_neq; exact Ec | ].
      apply Forall_app. split; [apply asks_nothing_more; exact Hn | exact Hm].
    + simpl. rewrite last_inflate_app. reflexivity.
    + simpl. rewrite last_stream_app, Ez.
      apply last_stream_no_input, last_stream_no_input. reflexivity.
    + intros Hr. apply Hk2, Hk, Hr.
Qed.

Lemma asks_nothing_step out z :
  preserves (emits asks_nothing) (inflate_to_ahwrite out z).
Proof.
  unfold inflate_to_ahwrite. pres.
  - apply emits_call_inflate. intros r. exact I.
  - apply emits_call_ahwrite. exact I.
Qed.

Lemma asks_nothing_chunk out : forall fuel res z,
  preserves (emits asks_nothing) (inflate_chunk fuel out res z).
Proof.
  induction fuel as [ | fuel IH]; intros res z; simpl; pres.
  apply asks_nothing_step.
Qed.

Lemma emits_more w w' : emits asks_nothing w w' -> emits asks_more w w'.
Proof.
  intros (tr & E & H). exists tr. split; [exact E | ].
  apply asks_nothing_more. exact H.
Qed.

(** The outer loop, when it does not return: no [readF] gave 0. *)
Lemma chunks_stopped rF : forall fuel out buf buflen res z w,
  (forall a, fst (inflate_chunks fuel rF out buf buflen res z w) <> Ret a) ->
  emits asks_more w (snd (inflate_chunks fuel rF out buf buflen res z w)).
Proof.
  induction fuel as [ | fuel IH]; intros out buf buflen res z w H;
    cbn [inflate_chunks] in *; [apply emits_refl | ].
  destruct (call_readF_returns rF buf buflen w) as (r & w1 & E).
  rewrite (bind_eq _ _ _ _ _ E) in *.
  pose proof (call_readF_Ret _ _ _ _ _ _ E) as Etr.
  destruct r as [[cnt b] bl]. cbn [fst snd] in Etr.
  destruct (cnt =? 0) eqn:Ec; cbn [negb] in *.
  { exfalso. exact (H _ eq_refl). }
  assert (H1 : emits asks_more w w1).
  { exists [Ev_readF cnt (snd b)]. split; [exact Etr | ].
    constructor; [simpl; apply N.eqb_neq; exact Ec | constructor]. }
  pose proof (asks_nothing_chunk out fuel res
                (set_in z (snd b) (to_uInt cnt)) w1) as H2.
  apply emits_more in H2. unfold bind in *.
  destruct (inflate_chunk fuel out res (set_in z (snd b) (to_uInt cnt)) w1)
    as [[r1 | e | f | ] w2]; cbn [fst snd] in *;
    try (eapply emits_trans; [exact H1 | exact H2]).
  eapply emits_trans; [exact H1 | ].
  eapply emits_trans; [exact H2 | ].
  apply IH. exact H.
Qed.

Lemma malloc_trace size w p w' :
  malloc size w = (Ret p, w') -> trace w' = trace w.
Proof.
  unfold malloc. destruct (mem_budget w); intros H; ret_inv H; reflexivity.
Qed.

Lemma guard_Ret (b : bool) e w u w' :
  (if b then die_horribly e else ret tt) w = (Ret u, w') -> w' = w.
Proof. destruct b; intros H; ret_inv H; reflexivity. Qed.

(** *** A failed [inflate] is fatal *)

Lemma doi_quiet {A} (m : M A) :
  (forall w, trace (snd (m w)) = trace w
             /\ ~ died_with CouldNotUncompress (fst (m w))) ->
  dies_of_inflate m.
Proof.
  intros H w. destruct (H w) as [E N]. exists []. rewrite app_nil_r.
  split; [exact E | ]. simpl. split; [discriminate | intros D; contradiction].
Qed.

Lemma doi_ret {A} (a : A) : dies_of_inflate (ret a).
Proof. apply doi_quiet. intros w. simpl. auto. Qed.

Lemma doi_out_of_fuel {A} : dies_of_inflate (out_of_fuel : M A).
Proof. apply doi_quiet. intros w. simpl. auto. Qed.

Lemma doi_die {A} e :
  e <> CouldNotUncompress -> dies_of_inflate (die_horribly e : M A).
Proof. intros He. apply doi_quiet. intros w. simpl. auto. Qed.

Lemma doi_malloc size : dies_of_inflate (malloc size).
Proof.
  apply doi_quiet. intros w. unfold malloc.
  destruct (mem_budget w); simpl; auto.
Qed.

Lemma doi_free p : dies_of_inflate (free p).
Proof.
  apply doi_quiet. intros w. unfold free.
  destruct (p =? NULL); [simpl; auto | ].
  destruct (live w p); simpl; auto.
Qed.

Lemma doi_call_readF rF buf buflen : dies_of_inflate (call_readF rF buf buflen).
Proof.
  intros w. unfold call_readF, bind, with_memory, log, ret.
  destruct (rF (AH w) _ buf buflen) as [[x ah] m]. simpl.
  eexists. split; [reflexivity | ]. simpl.
  split; [discriminate | intros D; contradiction].
Qed.

Lemma doi_bind {A B} (m : M A) (f : A -> M B) :
  dies_of_inflate m -> (forall a, dies_of_inflate (f a)) ->
  dies_of_inflate (bind m f).
Proof.
  intros Hm Hf w. unfold bind. destruct (Hm w) as (tr1 & E1 & D1).
  destruct (m w) as [[a | e | x | ] w1]; simpl in *;
    try (exists tr1; split; [exact E1 | exact D1]).
  destruct (Hf a w1) as (tr2 & E2 & D2). exists (tr1 ++ tr2). split.
  - rewrite E2, E1, app_assoc. reflexivity.
  - rewrite inflate_failed_app.
    destruct (inflate_failed tr1); [exfalso; apply D1; reflexivity | ].
    exact D2.
Qed.

Lemma doi_inflate_to_ahwrite out z : dies_of_inflate (inflate_to_ahwrite out z).
Proof.
  intros w. destruct (inflate_to_ahwrite out z w) as [o w'] eqn:E.
  pose proof (step_run _ _ _ _ _ E) as S. cbv zeta in S. simpl.
  destruct o as [[r1 z1] | e | f | ]; [ | | | contradiction].
  - destruct S as (_ & _ & Hok & Etr). eexists. split; [exact Etr | ].
    simpl. rewrite Hok. simpl. split; [discriminate | intros D; contradiction].
  - destruct S as (-> & Hbad & Etr). eexists. split; [exact Etr | ].
    simpl. rewrite Hbad. simpl. split; reflexivity.
  - destruct S as (Hok & Etr). eexists. split; [exact Etr | ].
    simpl. rewrite Hok. simpl. split; [discriminate | intros D; contradiction].
Qed.

End Drain.

#[local] Hint Resolve doi_ret doi_out_of_fuel doi_malloc doi_free
  doi_call_readF doi_inflate_to_ahwrite : pres.

Ltac doi_step :=
  match goal with
  | |- dies_of_inflate (bind _ _) => apply doi_bind; [ | intro]
  | |- dies_of_inflate (die_horribly _) => apply doi_die; discriminate
  | |- dies_of_inflate (if ?b then _ else _) => destruct b eqn:?
  | |- dies_of_inflate (let (_, _) := ?r in _) => destruct r eqn:?
  | |- dies_of_inflate (match ?r with _ => _ end) => destruct r eqn:?
  | |- dies_of_inflate _ => solve [auto with pres]
  end.

Ltac doi := repeat doi_step.

Section DrainLoop.

Context {zlib : Zlib} {build : Build} {archiver : Archiver}.

Lemma doi_Zlib fuel rF : dies_of_inflate (ReadDataFromArchiveZlib fuel rF).
Proof.
  assert (Hc : forall fuel out res z,
             dies_of_inflate (inflate_chunk fuel out res z)).
  { induction fuel0 as [ | fuel0 IH]; intros out res z; simpl; doi. }
  assert (Hd : forall fuel out res z,
             dies_of_inflate (inflate_drain fuel out res z)).
  { induction fuel0 as [ | fuel0 IH]; intros out res z; simpl; doi. }
  assert (Hs : forall fuel out buf buflen res z,
             dies_of_inflate (inflate_chunks fuel rF out buf buflen res z)).
  { induction fuel0 as [ | fuel0 IH]; intros out buf buflen res z; simpl; doi. }
  unfold ReadDataFromArchiveZlib. doi.
Qed.

Hypothesis inflate_room : inflate_keeps_room.
Hypothesis out_size_uInt : ZLIB_OUT_SIZE < 2 ^ 32.

(** The last loop is the run of the codec on no input: it makes the
    calls of [drain_calls], logs them as [drain_log] says, and ends as
    the last of them says. *)
Lemma drain_exact out :
  out <> NULL ->
  forall fuel res z w,
    heap_size (heap w) out = Some (ZLIB_OUT_SIZE + 1) ->
    inflate_ok res = true ->
    exists w',
      inflate_drain fuel out res z w
      = (match last (drain_calls fuel res z) res with
         | Z_STREAM_END =>
             Ret (Z_STREAM_END,
                  last_stream (drain_log z (drain_calls fuel res z)) z)
         | Z_OK => Timeout
         | _ => Die CouldNotUncompress
         end, w')
      /\ trace w' = trace w ++ drain_log z (drain_calls fuel res z)
      /\ heap w' = heap w.
Proof.
  intros Hp. induction fuel as [ | fuel IH]; intros res z w Hs Hres.
  - cbn [inflate_drain drain_calls].
    destruct (inflate_ok_cases _ Hres) as [-> | ->];
      cbn [zret_eqb negb last drain_log last_stream];
      exists w; rewrite app_nil_r; auto.
  - cbn [inflate_drain drain_calls].
    destruct (inflate_ok_cases _ Hres) as [-> | ->];
      cbn [zret_eqb negb].
    2:{ cbn [last drain_log last_stream]. exists w. rewrite app_nil_r. auto. }
    cbv zeta.
    destruct (inflate_to_ahwrite out z w) as [o1 w1] eqn:E.
    pose proof (step_run _ _ _ _ _ E) as S. cbv zeta in S.
    pose proof (steady_inflate_to_ahwrite inflate_room out_size_uInt
                  (heap w) out z Hp Hs w eq_refl) as [Hnf Hh].
    rewrite E in Hnf, Hh. cbn [fst snd] in Hnf, Hh.
    unfold bind. rewrite E.
    destruct (inflate (set_out z [] ZLIB_OUT_SIZE) Z_NO_FLUSH) as [r1 z1]
      eqn:Einf.
    cbn [fst snd] in *.
    destruct o1 as [[r z'] | e | f | ];
      [ | | exfalso; exact (Hnf f eq_refl) | contradiction].
    + destruct S as (-> & -> & Hok & Etr). rewrite Hok. cbn [fst snd].
      assert (Hs1 : heap_size (heap w1) out = Some (ZLIB_OUT_SIZE + 1))
        by (rewrite Hh; exact Hs).
      destruct (IH r1 z1 w1 Hs1 Hok) as (w' & Erun & Etr2 & Hh2).
      exists w'. rewrite last_cons. split; [ | split].
      * rewrite Erun. cbn [drain_log]. rewrite Einf. cbn [fst snd].
        rewrite Hok. cbn [last_stream]. reflexivity.
      * cbn [drain_log]. rewrite Einf. cbn [fst snd].
        rewrite Hok, Etr2, Etr, <- app_assoc. reflexivity.
      * rewrite Hh2. exact Hh.
    + destruct S as (-> & Hbad & Etr). rewrite Hbad. cbn [last].
      exists w1. split; [ | split; [ | exact Hh]].
      * destruct r1; try reflexivity; discriminate Hbad.
      * cbn [drain_log]. rewrite Einf. cbn [fst snd]. rewrite Hbad.
        exact Etr.
Qed.

Lemma emits_from P (w0 w w' : world) :
  trace w = trace w0 -> emits P w w' -> emits P w0 w'.
Proof. intros E (tr & Etr & H). exists tr. rewrite <- E. auto. Qed.

(** The loops before the end of the input die with the message of a
    failed decompression only. *)
Ltac dies_uncompressing :=
  repeat match goal with
  | |- dies_in _ (bind _ _) => apply dies_in_bind; [ | intro]
  | |- dies_in _ (die_horribly _) => apply dies_in_die; reflexivity
  | |- dies_in _ (if ?b then _ else _) => destruct b eqn:?
  | |- dies_in _ (let (_, _) := ?r in _) => destruct r eqn:?
  | |- dies_in _ (match ?r with _ => _ end) => destruct r eqn:?
  | |- dies_in _ _ => solve [auto with pres]
  end.

Lemma step_dies out z :
  dies_in (eq CouldNotUncompress) (inflate_to_ahwrite out z).
Proof.
  unfold inflate_to_ahwrite, call_inflate, call_ahwrite. dies_uncompressing.
Qed.

Lemma chunk_dies out fuel : forall res z,
  dies_in (eq CouldNotUncompress) (inflate_chunk fuel out res z).
Proof.
  induction fuel as [ | fuel IH]; intros res z; cbn [inflate_chunk];
    dies_uncompressing; first [apply step_dies | apply IH].
Qed.

Lemma chunks_die rF out fuel : forall buf buflen res z,
  dies_in (eq CouldNotUncompress)
    (inflate_chunks fuel rF out buf buflen res z).
Proof.
  induction fuel as [ | fuel IH]; intros buf buflen res z;
    cbn [inflate_chunks]; unfold call_readF; dies_uncompressing;
    first [apply chunk_dies | apply IH].
Qed.

(** The whole reader: it stops before the end of the input, for want
    of memory, because the codec does not set up, because an [inflate]
    failed or because the fuel is used up; or its log from the end of
    the input on is that of the last loop. *)
Lemma reader_log fuel rF w :
  keeps_to_its_buffer rF ->
  (emits asks_more w (snd (ReadDataFromArchiveZlib fuel rF w))
   /\ (((mem_budget w < 3)%nat
        /\ fst (ReadDataFromArchiveZlib fuel rF w) = Die OutOfMemory)
       \/ (fst (inflateInit z_stream_fresh) <> Z_OK
           /\ fst (ReadDataFromArchiveZlib fuel rF w) = Die CouldNotInitialize)
       \/ fst (ReadDataFromArchiveZlib fuel rF w) = Die CouldNotUncompress
       \/ fst (ReadDataFromArchiveZlib fuel rF w) = Timeout))
  \/ exists pre b,
       Forall asks_more pre
       /\ trace (snd (ReadDataFromArchiveZlib fuel rF w))
          = trace w ++ pre ++ Ev_readF 0 b
              :: drain_log (stream_at_eof pre)
                   (drain_calls fuel (last_inflate pre Z_OK)
                      (stream_at_eof pre))
       /\ fst (ReadDataFromArchiveZlib fuel rF w)
          = match last (drain_calls fuel (last_inflate pre Z_OK)
                          (stream_at_eof pre)) (last_inflate pre Z_OK) with
            | Z_STREAM_END =>
                if zret_eqb
                     (fst (inflateEnd
                             (last_stream
                                (drain_log (stream_at_eof pre)
                                   (drain_calls fuel (last_inflate pre Z_OK)
                                      (stream_at_eof pre)))
                                (stream_at_eof pre)))) Z_OK
                then Ret tt else Die CouldNotCloseLibrary
            | Z_OK => Timeout
            | _ => Die CouldNotUncompress
            end.
Proof.
  intros Hk.
  destruct (ReadDataFromArchiveZlib fuel rF w) as [o8 w8] eqn:R.
  cbn [fst snd]. unfold ReadDataFromArchiveZlib in R.
  destruct (malloc_budget sizeof_z_stream w) as [[B E] | (b1 & B & E)];
    rewrite (bind_eq _ _ _ _ _ E) in R.
  { left. injection R as <- <-. split; [apply emits_refl | ].
    left. split; [lia | reflexivity]. }
  rewrite succ_not_NULL in R. unfold bind at 1, ret at 1 in R.
  match type of R with context [bind (malloc ZLIB_IN_SIZE) _ ?w1] =>
    destruct (malloc_budget ZLIB_IN_SIZE w1) as [[B1 E1] | (b2 & B1 & E1)];
      rewrite (bind_eq _ _ _ _ _ E1) in R
  end.
  { left. injection R as <- <-.
    split; [apply emits_same_trace; reflexivity | ].
    left. cbn [mem_budget] in B1. split; [lia | reflexivity]. }
  rewrite succ_not_NULL in R. unfold bind at 1, ret at 1 in R.
  match type of R with context [bind (malloc (ZLIB_OUT_SIZE + 1)) _ ?w1] =>
    destruct (malloc_budget (ZLIB_OUT_SIZE + 1) w1)
      as [[B2 E2] | (b3 & B2 & E2)];
      rewrite (bind_eq _ _ _ _ _ E2) in R
  end.
  { left. injection R as <- <-.
    split; [apply emits_same_trace; reflexivity | ].
    left. cbn [mem_budget] in B1, B2. split; [lia | reflexivity]. }
  rewrite succ_not_NULL in R. unfold bind at 1, ret at 1 in R.
  cbn [next_ptr heap AH trace mem_budget] in R.
  unfold stream_at_eof.
  destruct (inflateInit z_stream_fresh) as [r z]. cbn [fst snd].
  set (p := N.succ (next_ptr w)) in *. set (b := N.succ p) in *.
  set (out := N.succ b) in *.
  match type of R with context [bind _ _ ?w3] => set (w3' := w3) in * end.
  set (rest := heap_remove (heap w3') b).
  assert (Hp : p <> NULL) by (unfold NULL, p; lia).
  assert (Hb : b <> NULL) by (unfold NULL, b; lia).
  assert (Ho : out <> NULL) by (unfold NULL, out; lia).
  assert (Hbuf : buffer_in rest (heap w3') b).
  { split; [exact Hb | split; [ | reflexivity]].
    unfold w3'. cbn [heap heap_size].
    replace (out =? b) with false by (symmetry; apply N.eqb_neq; unfold out; lia).
    rewrite N.eqb_refl. discriminate. }
  assert (Hso : heap_size rest out = Some (ZLIB_OUT_SIZE + 1)).
  { unfold rest. rewrite heap_size_remove_other by (unfold out; lia).
    unfold w3'. cbn [heap heap_size]. rewrite N.eqb_refl. reflexivity. }
  assert (Hsp : heap_size rest p = Some sizeof_z_stream).
  { unfold rest. rewrite heap_size_remove_other by (unfold b; lia).
    unfold w3'. cbn [heap heap_size].
    replace (out =? p) with false
      by (symmetry; apply N.eqb_neq; unfold out, b; lia).
    replace (b =? p) with false by (symmetry; apply N.eqb_neq; unfold b; lia).
    rewrite N.eqb_refl. reflexivity. }
  assert (Et : trace w3' = trace w) by reflexivity.
  clearbody w3' rest.
  destruct (negb (zret_eqb r Z_OK)) eqn:Er.
  { left. injection R as <- <-.
    split; [apply emits_same_trace; exact Et | ].
    right. left. split; [ | reflexivity].
    intros ->. discriminate Er. }
  unfold bind at 1, ret at 1 in R.
  destruct (inflate_chunks fuel rF out (@pair ptr _ b []) ZLIB_IN_SIZE Z_OK z w3')
    as [o5 w5] eqn:E5.
  destruct (chunks_keep inflate_room out_size_uInt rest out rF Hk Ho Hso fuel
              (@pair ptr _ b []) ZLIB_IN_SIZE Z_OK z w3' Hbuf) as [Hnf Hkeep].
  pose proof (chunks_stopped rF fuel out (@pair ptr _ b []) ZLIB_IN_SIZE Z_OK z w3')
    as Hstop.
  rewrite E5 in Hstop, Hnf. cbn [fst snd] in Hstop, Hnf.
  unfold bind at 1 in R. rewrite E5 in R.
  destruct o5 as [[buf [r1 z1]] | e | f | ].
  2:{ left. injection R as <- <-.
      split; [apply (emits_from _ _ _ _ Et); apply Hstop; discriminate | ].
      right. right. left. f_equal. symmetry.
      exact (chunks_die rF out fuel _ _ _ _ _ _ _ E5). }
  2:{ exfalso. exact (Hnf f eq_refl). }
  2:{ left. injection R as <- <-.
      split; [apply (emits_from _ _ _ _ Et); apply Hstop; discriminate | ].
      right. right. right. reflexivity. }
  clear Hstop Hnf. right.
  pose proof (Hkeep _ _ _ E5) as Hb5.
  apply chunks_run in E5.
  destruct E5 as (pre & bb & Etr & Hmore & -> & Ez & Hok).
  specialize (Hok eq_refl).
  destruct (buffer_in_other _ _ _ _ _ Hb5 Hso) as [Ho5 _].
  destruct (drain_exact out Ho fuel (last_inflate pre Z_OK) (set_in z1 [] 0)
              w5 Ho5 Hok) as (w6 & Erun & Etr6 & Hh6).
  cbn [fst snd] in R. rewrite Ez in Erun, Etr6, R.
  exists pre, bb. split; [exact Hmore | ].
  unfold bind at 1 in R. rewrite Erun in R.
  rewrite <- Hh6 in Hb5.
  destruct (last (drain_calls fuel (last_inflate pre Z_OK)
                    (set_in (last_stream pre z) [] 0))
              (last_inflate pre Z_OK));
    cbn [fst snd] in R;
    try (injection R as <- <-; split; [ | reflexivity];
         rewrite Etr6, Etr, Et, <- !app_assoc; reflexivity).
  unfold bind at 1 in R.
  destruct (zret_eqb (fst (inflateEnd _)) Z_OK); cbn [negb] in R;
    unfold die_horribly, ret in R.
  - destruct (frees_of_reader rest buf out p w6 _ _ Hb5 Hso Hsp Ho Hp)
      as (w9 & E9 & _ & T9 & _); [unfold out, b; lia | ].
    rewrite E9 in R. injection R as <- <-. split; [ | reflexivity].
    rewrite T9, Etr6, Etr, Et, <- !app_assoc. reflexivity.
  - injection R as <- <-. split; [ | reflexivity].
    rewrite Etr6, Etr, Et, <- !app_assoc. reflexivity.
Qed.

End DrainLoop.

Section DrainClaim.

Context {zlib : Zlib} {build : Build} {archiver : Archiver}.

(** C6.  In any run of the Deflate reader, an [inflate] whose result
    is neither [Z_OK] nor [Z_STREAM_END] is in the log exactly when the
    run died with the message of a failed decompression.  And when
    [readF] has given 0, the rest of the log is the last loop: [inflate]
    is called on the stream with no input, again and again on the
    stream as the call before left it, each call that gave [Z_OK] or
    [Z_STREAM_END] followed by the [ahwrite] of what it stored, until a
    call gives [Z_STREAM_END], or another result than [Z_OK], or the
    fuel is used up.  The reader returns after [Z_STREAM_END] when
    [inflateEnd] gives [Z_OK], and dies with the message of a failed
    decompression after a result that is neither.  And the reader does
    get to the end of the input: with memory for its three blocks and a
    codec that sets up, some [readF] of the log gave 0, unless an
    [inflate] failed or the fuel is used up.  The last two parts are
    for a codec that never gives back more room than it was given, an
    output buffer whose size is a [uInt] and a [readF] that keeps to
    its buffer: the reader has undefined behaviour otherwise. *)
Theorem drain_until_stream_end (fuel : nat) (rF : ReadFunc) (w : world) :
  (exists tr,
     trace (snd (ReadDataFromArchiveZlib fuel rF w)) = trace w ++ tr
     /\ (inflate_failed tr = true
         <-> died_with CouldNotUncompress
               (fst (ReadDataFromArchiveZlib fuel rF w))))
  /\ (inflate_keeps_room -> ZLIB_OUT_SIZE < 2 ^ 32 ->
      keeps_to_its_buffer rF ->
      forall pre b post,
        trace (snd (ReadDataFromArchiveZlib fuel rF w))
        = trace w ++ pre ++ Ev_readF 0 b :: post ->
        let res := last_inflate pre Z_OK in
        let z := stream_at_eof pre in
        let rs := drain_calls fuel res z in
        post = drain_log z rs
        /\ fst (ReadDataFromArchiveZlib fuel rF w)
           = match last rs res with
             | Z_STREAM_END =>
                 if zret_eqb (fst (inflateEnd (last_stream post z))) Z_OK
                 then Ret tt else Die CouldNotCloseLibrary
             | Z_OK => Timeout
             | _ => Die CouldNotUncompress
             end)
  /\ (inflate_keeps_room -> ZLIB_OUT_SIZE < 2 ^ 32 ->
      keeps_to_its_buffer rF ->
      (3 <= mem_budget w)%nat ->
      fst (inflateInit z_stream_fresh) = Z_OK ->
      (exists pre b post,
         trace (snd (ReadDataFromArchiveZlib fuel rF w))
         = trace w ++ pre ++ Ev_readF 0 b :: post)
      \/ fst (ReadDataFromArchiveZlib fuel rF w) = Die CouldNotUncompress
      \/ fst (ReadDataFromArchiveZlib fuel rF w) = Timeout).
Proof.
  split; [apply doi_Zlib | split].
  2:{ intros Hroom Hsz Hk Hmem Hinit.
      destruct (reader_log Hroom Hsz fuel rF w Hk)
        as [(_ & Hout) | (pre & b & _ & Etr & _)].
      - destruct Hout as [(Hb & _) | [(Hi & _) | [H | H]]];
          [lia | contradiction | right; left; exact H | right; right; exact H].
      - left. eexists. eexists. eexists. exact Etr. }
  intros Hroom Hsz Hk pre b post E. cbv zeta.
  destruct (reader_log Hroom Hsz fuel rF w Hk)
    as [((tr & Etr & Hm) & _) | (pre0 & b0 & Hm & Etr & Ho)].
  - exfalso. rewrite Etr in E. apply app_inv_head in E. subst tr.
    apply Forall_app in Hm. destruct Hm as [_ Hm].
    inversion Hm as [ | ? ? Hx _]. apply Hx. reflexivity.
  - rewrite Etr in E. apply app_inv_head in E. symmetry in E.
    apply eof_splits_once in E;
      [ | exact Hm | apply drain_log_asks_nothing].
    destruct E as (-> & -> & ->). split; [reflexivity | exact Ho].
Qed.

End DrainClaim.

(** ** The bench codec meets what is assumed of a codec *)

Section BenchCodec.

#[local] Existing Instance Bench.codec.
#[local] Existing Instance Bench.recorder.

Lemma emit_room z p m : avail_out (Bench.emit z p m) <= avail_out z.
Proof. unfold Bench.emit. cbn [avail_out]. lia. Qed.

Lemma bench_inflate_room (z : Bench.zs) fl :
  avail_out (snd (Bench.bench_inflate z fl)) <= avail_out z.
Proof.
  unfold Bench.bench_inflate, Bench.flush_only.
  destruct (state z) as [[p m] | ]; [ | apply N.le_refl].
  destruct m; try apply N.le_refl;
    repeat match goal with
           | |- context [if ?c then _ else _] => destruct c
           end;
    cbn [snd]; first [apply N.le_refl | apply emit_room
                     | apply (emit_room (Bench.advance z))].
Qed.

Lemma bench_keeps_room : @inflate_keeps_room Bench.codec.
Proof. exact bench_inflate_room. Qed.

Lemma late_inflate_room (z : Bench.zs) fl :
  avail_out (snd (Bench.late_inflate z fl)) <= avail_out z.
Proof.
  unfold Bench.late_inflate.
  destruct (state z) as [[p m] | ]; [ | apply N.le_refl].
  destruct (avail_in z =? 0); cbn [snd avail_out];
    [apply emit_room | apply N.le_refl].
Qed.

Lemma late_keeps_room : @inflate_keeps_room Bench.late_codec.
Proof. exact late_inflate_room. Qed.



Lemma feed_keeps : keeps_to_its_buffer feed.
Proof.
  intros ah m buf buflen H. unfold feed.
  destruct (Bench.to_read ah); exact H.
Qed.


End BenchCodec.

(** ** The properties at the cases of [Cases] *)

Section Witnesses.

#[local] Existing Instance Bench.codec.
#[local] Existing Instance Bench.recorder.
Import Cases.

Lemma Allocate_a_context :
  AllocateCompressor (build := with_zlib) 5 collect fresh_world
  = (Ret (a_context collect), its_world).
Proof. reflexivity. Qed.

Lemma invalid_hint_rejected_witness :
  (10 <> 0)%Z /\ ~ (1 <= 10 <= 9)%Z
  /\ (10 <> Z_DEFAULT_COMPRESSION (Build := with_zlib))%Z
  /\ AllocateCompressor (build := with_zlib) 10 collect fresh_world
     = (Die (InvalidCompressionCode 10), fresh_world)
  /\ ReadDataFromArchive (build := with_zlib) 3 10 feed hi_world
     = (Die (InvalidCompressionCode 10), hi_world).
Proof.
  assert (H0 : (10 <> 0)%Z) by discriminate.
  assert (H1 : ~ (1 <= 10 <= 9)%Z) by lia.
  assert (H2 : (10 <> Z_DEFAULT_COMPRESSION (Build := with_zlib))%Z)
    by discriminate.
  split; [exact H0 | split; [exact H1 | split; [exact H2 | split]]].
  - exact (proj1 (invalid_hint_rejected (build := with_zlib)
                    10 collect feed 3 fresh_world H0 H1 H2)).
  - exact (proj1 (proj2 (invalid_hint_rejected (build := with_zlib)
                           10 collect feed 3 hi_world H0 H1 H2))).
Defined.

Lemma no_zlib_unsupported_witness :
  HAVE_LIBZ (Build := without_zlib) = false
  /\ selects_Deflate (build := without_zlib) 5
  /\ comprAlg (a_context collect) = COMPR_ALG_LIBZ
  /\ AllocateCompressor (build := without_zlib) 5 collect fresh_world
     = (Die NotBuiltWithZlib, fresh_world)
  /\ ReadDataFromArchive (build := without_zlib) 3 5 feed hi_world
     = (Die NotBuiltWithZlib, hi_world)
  /\ WriteDataToArchive (build := without_zlib) 3 (a_context collect)
       [x61] 1 its_world
     = (Die NotBuiltWithZlib, its_world).
Proof.
  assert (H0 : HAVE_LIBZ (Build := without_zlib) = false) by reflexivity.
  assert (H1 : selects_Deflate (build := without_zlib) 5) by (right; lia).
  assert (H2 : comprAlg (a_context collect) = COMPR_ALG_LIBZ) by reflexivity.
  split; [exact H0 | split; [exact H1 | split; [exact H2 | ]]].
  split; [ | split].
  - exact (proj1 (no_zlib_unsupported (build := without_zlib) 5 collect feed 3
                    (a_context collect) [x61] 1 fresh_world H0 H1 H2)).
  - exact (proj1 (proj2 (no_zlib_unsupported (build := without_zlib) 5 collect
                           feed 3 (a_context collect) [x61] 1 hi_world
                           H0 H1 H2))).
  - exact (proj1 (proj2 (proj2 (no_zlib_unsupported (build := without_zlib) 5
                                  collect feed 3 (a_context collect) [x61] 1
                                  its_world H0 H1 H2)))).
Defined.

(** C4 as it is stated does not hold: without [HAVE_LIBZ],
    [EndCompressor] on a context whose algorithm is Deflate returns; it
    does not die. *)
Lemma EndCompressor_without_zlib_returns :
  HAVE_LIBZ (Build := without_zlib) = false
  /\ comprAlg (a_context collect) = COMPR_ALG_LIBZ
  /\ fst (EndCompressor (build := without_zlib) 3 (a_context collect) its_world)
     = Ret tt
  /\ fst (EndCompressor (build := without_zlib) 3 (a_context collect) its_world)
     <> Die NotBuiltWithZlib.
Proof.
  split; [reflexivity | split; [reflexivity | split; [reflexivity | ]]].
  discriminate.
Qed.

Lemma deflate_session_never_writes_empty_chunk_witness :
  comprAlg (a_context collect) = COMPR_ALG_LIBZ
  /\ selects_Deflate (build := with_zlib) 5
  /\ emits nonempty_write its_world
       (snd (WriteDataToArchive (build := with_zlib) 10 (a_context collect)
               [x61; x62; x63] 3 its_world))
  /\ emits nonempty_write its_world
       (snd (EndCompressor (build := with_zlib) 10 (a_context collect)
               its_world))
  /\ emits nonempty_write fresh_world
       (snd (WriteSession (build := with_zlib) 10 5 collect
               [[x61; x62]; []; [x63]] fresh_world)).
Proof.
  assert (H1 : comprAlg (a_context collect) = COMPR_ALG_LIBZ) by reflexivity.
  assert (H2 : selects_Deflate (build := with_zlib) 5) by (right; lia).
  split; [exact H1 | split; [exact H2 | split; [ | split]]].
  - exact (proj1 (deflate_session_never_writes_empty_chunk
                    (build := with_zlib) 10 (a_context collect)
                    [x61; x62; x63] 3 5 collect [] its_world H1 H2)).
  - exact (proj1 (proj2 (deflate_session_never_writes_empty_chunk
                           (build := with_zlib) 10 (a_context collect)
                           [] 0 5 collect [] its_world H1 H2))).
  - exact (proj2 (proj2 (deflate_session_never_writes_empty_chunk
                           (build := with_zlib) 10 (a_context collect)
                           [] 0 5 collect [[x61; x62]; []; [x63]]
                           fresh_world H1 H2))).
Defined.

Lemma wide_write_is_dropped_witness :
  HAVE_LIBZ (Build := with_zlib) = true
  /\ comprAlg (a_context collect) = COMPR_ALG_LIBZ
  /\ zp (a_context collect) = Some (2, a_stream)
  /\ N.of_nat (length four_GiB) = 1 * 2 ^ 32
  /\ WriteDataToArchive (build := with_zlib) 10 (a_context collect)
       four_GiB (N.of_nat (length four_GiB)) its_world
     = (Ret (1 * 2 ^ 32,
             set_zp (a_context collect) (set_in a_stream four_GiB 0)),
        its_world).
Proof.
  assert (H1 : HAVE_LIBZ (Build := with_zlib) = true) by reflexivity.
  assert (H2 : comprAlg (a_context collect) = COMPR_ALG_LIBZ) by reflexivity.
  assert (H3 : zp (a_context collect) = Some (2, a_stream)) by reflexivity.
  assert (H4 : N.of_nat (length four_GiB) = 1 * 2 ^ 32).
  { unfold four_GiB. rewrite repeat_length. apply N2Nat.id. }
  split; [exact H1 | split; [exact H2 | split; [exact H3 | split; [exact H4 | ]]]].
  exact (wide_write_is_dropped (build := with_zlib) 10 (a_context collect)
           2 a_stream four_GiB 1 its_world H1 H2 H3 H4).
Defined.

(** A write within the range: the three bytes are handed to [deflate]
    and none is left in the stream. *)
Example write_takes_three_bytes :
  exists cs' w' z',
    WriteDataToArchive (build := with_zlib) 10 (a_context collect)
      [x61; x62; x63] 3 its_world = (Ret (3, cs'), w')
    /\ zp cs' = Some (2, z') /\ avail_in z' = 0
    /\ exists res z1 tr',
         trace w'
         = Ev_deflate Z_NO_FLUSH (set_in a_stream [x61; x62; x63] 3) res z1
           :: tr'.
Proof.
  eexists. eexists. eexists. split; [vm_compute; reflexivity | ].
  split; [reflexivity | split; [reflexivity | ]].
  eexists. eexists. eexists. reflexivity.
Qed.

Lemma allocated_context_never_falls_through_witness :
  exists cs w',
    bind (AllocateCompressor (build := with_zlib) 0 collect)
         (fun c => write_all (build := with_zlib) 10 c [[x61]; [x62]])
         fresh_world = (Ret cs, w')
    /\ (comprAlg cs = COMPR_ALG_LIBZ \/ comprAlg cs = COMPR_ALG_NONE).
Proof.
  eexists. eexists.
  refine ((fun E => conj E
             (proj1 (allocated_context_never_falls_through
                       (build := with_zlib) 10 10 0 collect [[x61]; [x62]]
                       fresh_world _ fresh_world fresh_world _
                       (a_context collect) [] 1 1 E))) _).
  vm_compute. reflexivity.
Defined.

Lemma EndCompressor_frees_unless_it_dies_witness :
  HAVE_LIBZ (Build := with_zlib) = true
  /\ comprAlg (a_context collect) = COMPR_ALG_LIBZ
  /\ fst (EndCompressor (build := with_zlib) 10 (a_context collect) its_world)
     = Ret tt
  /\ live (snd (EndCompressor (build := with_zlib) 10 (a_context collect)
                  its_world)) (zlibOut (a_context collect)) = false
  /\ live (snd (EndCompressor (build := with_zlib) 10 (a_context collect)
                  its_world)) (zp_addr (a_context collect)) = false
  /\ live (snd (EndCompressor (build := with_zlib) 10 (a_context collect)
                  its_world)) (addr (a_context collect)) = false.
Proof.
  assert (H1 : HAVE_LIBZ (Build := with_zlib) = true) by reflexivity.
  assert (H2 : comprAlg (a_context collect) = COMPR_ALG_LIBZ) by reflexivity.
  assert (H3 : fst (EndCompressor (build := with_zlib) 10 (a_context collect)
                      its_world) = Ret tt) by reflexivity.
  split; [exact H1 | split; [exact H2 | split; [exact H3 | ]]].
  exact (proj1 (EndCompressor_frees_unless_it_dies (build := with_zlib)
                  10 (a_context collect) its_world H1 H2) H3).
Defined.

(** C3 as it is stated does not hold: when the last flush fails,
    [EndCompressor] dies and the output buffer, the stream and the
    context are still allocated. *)
Lemma EndCompressor_dies_before_freeing :
  comprAlg (a_context write_nothing) = COMPR_ALG_LIBZ
  /\ fst (EndCompressor (build := with_zlib) 10 (a_context write_nothing)
            its_world) = Die CouldNotWrite
  /\ live (snd (EndCompressor (build := with_zlib) 10
                  (a_context write_nothing) its_world))
       (zlibOut (a_context write_nothing)) = true
  /\ live (snd (EndCompressor (build := with_zlib) 10
                  (a_context write_nothing) its_world))
       (zp_addr (a_context write_nothing)) = true
  /\ live (snd (EndCompressor (build := with_zlib) 10
                  (a_context write_nothing) its_world))
       (addr (a_context write_nothing)) = true.
Proof. repeat split. Qed.

(** The same when the close of the stream fails: the flush has
    written the end of the stream, [deflateEnd] gives another result
    than [Z_OK], and [EndCompressor] dies with the three blocks still
    allocated. *)
Example EndCompressor_dies_closing :
  fst (EndCompressor (zlib := Bench.stubborn_codec) (build := with_zlib) 10
         stubborn_context stubborn_world) = Die CouldNotCloseStream
  /\ Bench.written
       (AH (snd (EndCompressor (zlib := Bench.stubborn_codec)
                   (build := with_zlib) 10 stubborn_context stubborn_world)))
     = [[x00]]
  /\ heap (snd (EndCompressor (zlib := Bench.stubborn_codec)
                  (build := with_zlib) 10 stubborn_context stubborn_world))
     = heap stubborn_world.
Proof. repeat split. Qed.


Lemma trailing_zero_store_in_bounds_witness :
  inflate_keeps_room
  /\ ZLIB_OUT_SIZE (Build := with_zlib) < 2 ^ 32
  /\ keeps_to_its_buffer feed
  /\ (forall f, fst (ReadDataFromArchiveZlib (build := with_zlib) 10 feed
                       hi_world) <> Fault f)
  /\ emits (span_in_bounds (build := with_zlib)) hi_world
       (snd (ReadDataFromArchiveZlib (build := with_zlib) 10 feed hi_world)).
Proof.
  assert (H2 : ZLIB_OUT_SIZE (Build := with_zlib) < 2 ^ 32) by reflexivity.
  split; [exact bench_keeps_room | split; [exact H2 | ]].
  split; [exact feed_keeps | ].
  split.
  - exact (proj1 (trailing_zero_store_in_bounds (build := with_zlib)
                    bench_keeps_room H2 10 feed hi_world) feed_keeps).
  - exact (proj2 (proj2 (trailing_zero_store_in_bounds (build := with_zlib)
                           bench_keeps_room H2 10 feed hi_world))).
Defined.

(** C6 at a codec that holds back its output: the input is six bytes
    in two chunks and the output buffer has four bytes.  After the
    [readF] that gives 0 the reader calls [inflate] twice on no input;
    the first call gives [Z_OK] and four bytes, the second
    [Z_STREAM_END] and the other two, and the reader returns. *)
Lemma drain_until_stream_end_witness :
  @inflate_keeps_room Bench.late_codec
  /\ ZLIB_OUT_SIZE (Build := with_zlib) < 2 ^ 32
  /\ keeps_to_its_buffer feed
  /\ late_log
     = trace late_world ++ firstn 6 late_log
       ++ Ev_readF 0 [x64; x65; x66] :: skipn 7 late_log
  /\ drain_calls (zlib := Bench.late_codec) (build := with_zlib) 10
       (last_inflate (firstn 6 late_log) Z_OK)
       (stream_at_eof (firstn 6 late_log))
     = [Z_OK; Z_STREAM_END]
  /\ skipn 7 late_log
     = drain_log (build := with_zlib) (stream_at_eof (firstn 6 late_log))
         [Z_OK; Z_STREAM_END]
  /\ fst (ReadDataFromArchiveZlib (zlib := Bench.late_codec)
            (build := with_zlib) 10 feed late_world) = Ret tt
  /\ Bench.sink (AH (snd (ReadDataFromArchiveZlib (zlib := Bench.late_codec)
                            (build := with_zlib) 10 feed late_world)))
     = [x61; x62; x63; x64; x65; x66].
Proof.
  assert (H2 : ZLIB_OUT_SIZE (Build := with_zlib) < 2 ^ 32) by reflexivity.
  assert (E : late_log
              = trace late_world ++ firstn 6 late_log
                ++ Ev_readF 0 [x64; x65; x66] :: skipn 7 late_log)
    by (vm_compute; reflexivity).
  assert (R : drain_calls (zlib := Bench.late_codec) (build := with_zlib) 10
                (last_inflate (firstn 6 late_log) Z_OK)
                (stream_at_eof (firstn 6 late_log))
              = [Z_OK; Z_STREAM_END])
    by (vm_compute; reflexivity).
  split; [exact late_keeps_room | split; [exact H2 | ]].
  split; [exact feed_keeps | split; [exact E | split; [exact R | ]]].
  pose proof (proj1 (proj2 (drain_until_stream_end (zlib := Bench.late_codec)
                              (build := with_zlib) 10 feed late_world))
                late_keeps_room H2 feed_keeps
                (firstn 6 late_log) [x64; x65; x66] (skipn 7 late_log) E)
    as [Hpost Hout].
  rewrite R in Hpost, Hout.
  split; [exact Hpost | split; [ | reflexivity]].
  rewrite Hout. reflexivity.
Defined.

(** The reader, run on the stream that holds ["hi"]. *)
Example reads_hi :
  fst (ReadDataFromArchive (build := with_zlib) 10 5 feed hi_world) = Ret tt
  /\ Bench.sink (AH (snd (ReadDataFromArchive (build := with_zlib) 10 5 feed
                            hi_world))) = [x68; x69].
Proof. split; reflexivity. Qed.

(** C1 at a session that writes nothing in its second call: with
    hint 0 the session hands [writeF] a chunk of length zero, which the
    reader takes for the end of the input, so that what follows is not
    read back. *)
Lemma empty_write_cuts_the_plain_stream :
  Bench.written
    (AH (snd (WriteSession (build := with_zlib) 10 0 collect
                [[x61]; []; [x62]] fresh_world)))
  = [[x61]; []; [x62]]
  /\ round_trip (build := with_zlib) 10 0 [[x61]; []; [x62]] = Some [x61]
  /\ round_trip (build := with_zlib) 10 0 [[x61]; []; [x62]]
     <> Some (concat [[x61]; []; [x62]]).
Proof.
  split; [reflexivity | split; [reflexivity | ]].
  vm_compute. discriminate.
Qed.

(** The same session with a hint that selects Deflate is read back
    whole. *)
Example deflate_round_trip :
  round_trip (build := with_zlib) 20 5 [[x61]; []; [x62]] = Some [x61; x62].
Proof. reflexivity. Qed.

End Witnesses.

(** ** The bench codec loses nothing *)

Section BenchLossless.

Import Bench BenchSpec.

Lemma stuff_app a b : stuff (a ++ b) = stuff a ++ stuff b.
Proof. unfold stuff. apply flat_map_app. Qed.

(** The byte at a tag position of a whole stream is a tag; the tag
    that ends the stream has nothing behind it, the other has a byte
    behind it. *)
Lemma stuff_tag : forall x s b rest,
  stuff s ++ [x00] = stuff x ++ b :: rest ->
  (b = x01 /\ rest <> []) \/ (b = x00 /\ x = s /\ rest = []).
Proof.
  induction x as [ | a x IH]; intros s b rest H.
  - destruct s as [ | a' s]; simpl in H.
    + injection H as <- <-. right. auto.
    + injection H as <- <-. left. split; [reflexivity | ].
      destruct (stuff s); discriminate.
  - destruct s as [ | a' s]; simpl in H; [discriminate | ].
    injection H as <- H. apply IH in H.
    destruct H as [H | (-> & -> & ->)]; [left; exact H | right; auto].
Qed.

Lemma stuff_not_whole x s : stuff x <> stuff s ++ [x00].
Proof.
  revert s. induction x as [ | a x IH]; intros s H.
  - destruct (stuff s); discriminate.
  - destruct s as [ | a' s]; simpl in H; [discriminate | ].
    injection H as _ H. exact (IH _ H).
Qed.

Lemma emit_spec (z : zs) pend m :
  exists q r,
    pend = q ++ r
    /\ N.of_nat (length q) <= avail_out z
    /\ emit z pend m
       = mk_z_stream (next_in z) (avail_in z) (next_out z ++ q)
           (avail_out z - N.of_nat (length q)) (Some (mk_codec_state r m))
    /\ (0 < avail_out z -> pend <> [] -> q <> []).
Proof.
  unfold emit.
  set (k := N.to_nat (N.min (N.of_nat (length pend)) (avail_out z))).
  exists (firstn k pend), (skipn k pend).
  assert (Hk : (k <= length pend)%nat) by (unfold k; lia).
  assert (Hl : length (firstn k pend) = k) by (rewrite length_firstn; lia).
  split; [symmetry; apply firstn_skipn | ].
  split; [rewrite Hl; unfold k; lia | ].
  split.
  - rewrite Hl. f_equal. unfold k. lia.
  - intros Ho Hp E. apply (f_equal (@length byte)) in E.
    rewrite Hl in E. simpl in E.
    destruct pend; [contradiction | ]. simpl in k. unfold k in E. lia.
Qed.

Lemma bench_deflate_steps (z : zs) fl fin s c :
  deflating (state z) fin s c ->
  avail_in z = N.of_nat (length (next_in z)) ->
  (fin = true -> fl = Z_FINISH) ->
  (fl = Z_FINISH -> next_in z = []) ->
  exists k p,
    moves (zlib := codec) z (snd (bench_deflate z fl)) k p
    /\ deflating (state (snd (bench_deflate z fl))) (is_finish fl)
         (s ++ firstn k (next_in z)) (c ++ p)
    /\ fst (bench_deflate z fl) <> Z_STREAM_ERROR
    /\ (fst (bench_deflate z fl) = Z_STREAM_END ->
        fl = Z_FINISH
        /\ encodes (c ++ p) s
        /\ forall z' : zs, state z' = state (snd (bench_deflate z fl)) ->
                           fst (bench_deflateEnd z') = Z_OK)
    /\ (fst (bench_deflate z fl) <> Z_STREAM_END ->
        0 < avail_out z ->
        avail_in z <> 0 \/ fl = Z_FINISH ->
        (fl = Z_NO_FLUSH /\ avail_in (snd (bench_deflate z fl)) = 0)
        \/ (mu (snd (bench_deflate z fl)) < mu z)%nat).
Proof.
  intros [p [(-> & Es & Hc) | (-> & Es & Hc)]] Hin Hfin Hfl;
    unfold bench_deflate; rewrite Es.
  - destruct (avail_in z =? 0) eqn:E0.
    + apply N.eqb_eq in E0.
      assert (Hn : next_in z = []).
      { destruct (next_in z); [reflexivity | simpl in Hin; lia]. }
      destruct fl.
      * destruct (emit_spec z p Deflating) as (q & r & -> & Hq & Ee & Hne).
        rewrite Ee. cbn [fst snd]. exists 0%nat, q.
        split; [unfold moves; change (@internal_state codec) with codec_state;
                cbn [next_in avail_in next_out avail_out];
                rewrite Hn; simpl; repeat split; auto; lia | ].
        split; [exists r; left; rewrite Hn, app_nil_r, <- app_assoc; auto | ].
        split; [destruct (_ <? _); discriminate | ].
        split; [destruct (_ <? _); discriminate | ].
        intros _ _ [H | H]; [contradiction | discriminate].
      * destruct (emit_spec z (p ++ [x00]) Deflated)
          as (q & r & Epq & Hq & Ee & Hne).
        rewrite Ee. cbn [fst snd]. exists 0%nat, q.
        split; [unfold moves; change (@internal_state codec) with codec_state;
                cbn [next_in avail_in next_out avail_out];
                rewrite Hn; simpl; repeat split; auto; lia | ].
        split; [exists r; right; rewrite Hn, app_nil_r, <- app_assoc, <- Epq,
                  app_assoc, Hc; auto | ].
        unfold left_over. cbn [state pending].
        split; [destruct (is_nil r); discriminate | ].
        split.
        -- destruct r; [ | discriminate]. intros _.
           split; [reflexivity | ]. split.
           ++ rewrite app_nil_r in Epq. unfold encodes.
              rewrite <- Epq, app_assoc, Hc. reflexivity.
           ++ intros z' Ez. unfold bench_deflateEnd. rewrite Ez. reflexivity.
        -- intros _ Ho _. right. unfold mu, left_over.
           cbn [state pending avail_in]. rewrite Es. cbn [pending].
           assert (Hq' : q <> []).
           { apply Hne; [exact Ho | ]. destruct p; discriminate. }
           apply (f_equal (@length byte)) in Epq.
           rewrite !length_app in Epq. simpl in Epq.
           destruct q; [contradiction | simpl in Epq; lia].
    + apply N.eqb_neq in E0.
      destruct (next_in z) as [ | b t] eqn:En; [simpl in Hin; lia | ].
      assert (Hfl' : fl = Z_NO_FLUSH).
      { destruct fl; [reflexivity | ]. discriminate (Hfl eq_refl). }
      subst fl. cbn [fst snd hd].
      destruct (emit_spec (advance z) (p ++ [x01; b]) Deflating)
        as (q & r & Epq & Hq & Ee & Hne).
      rewrite Ee. exists 1%nat, q.
      unfold advance in *. rewrite En in *.
      cbn [next_in avail_in next_out avail_out state tl] in *.
      split; [unfold moves; change (@internal_state codec) with codec_state;
                cbn [next_in avail_in next_out avail_out];
              rewrite En; simpl; repeat split; auto; lia | ].
      split.
      { exists r. left. split; [reflexivity | split; [reflexivity | ]].
        rewrite <- app_assoc, <- Epq, app_assoc, Hc, stuff_app. reflexivity. }
      split; [discriminate | ]. split; [discriminate | ].
      intros _ Ho _. right. unfold mu, left_over.
      cbn [state pending avail_in]. rewrite Es. cbn [pending].
      apply (f_equal (@length byte)) in Epq.
      rewrite !length_app in Epq. simpl in Epq.
      assert (Hq' : q <> []).
      { apply Hne; [exact Ho | ]. destruct p; discriminate. }
      destruct q; [contradiction | simpl in Epq; lia].
  - specialize (Hfin eq_refl). subst fl.
    assert (Hn : next_in z = []) by (apply Hfl; reflexivity).
    destruct (emit_spec z p Deflated) as (q & r & -> & Hq & Ee & Hne).
    rewrite Ee. cbn [fst snd]. exists 0%nat, q.
    split; [unfold moves; change (@internal_state codec) with codec_state;
                cbn [next_in avail_in next_out avail_out];
            rewrite Hn; simpl; repeat split; auto; lia | ].
    split; [exists r; right; rewrite Hn, app_nil_r, <- app_assoc; auto | ].
    unfold left_over. cbn [state pending].
    split; [destruct (is_nil r); [ | destruct (_ <? _)]; discriminate | ].
    split.
    + destruct r; [ | simpl; destruct (_ <? _); discriminate]. intros _.
      split; [reflexivity | ]. split.
      * unfold encodes. rewrite app_nil_r in Hc. exact Hc.
      * intros z' Ez. unfold bench_deflateEnd. rewrite Ez. reflexivity.
    + intros Hr Ho _. right. unfold mu, left_over.
      cbn [state pending avail_in]. rewrite Es. cbn [pending].
      destruct r as [ | r0 r]; [exfalso; apply Hr; reflexivity | ].
      assert (Hq' : q <> []).
      { apply Hne; [exact Ho | ]. destruct q; discriminate. }
      rewrite length_app.
      destruct q; [contradiction | simpl; lia].
Qed.

Lemma no_input (z : zs) :
  avail_in z = N.of_nat (length (next_in z)) -> avail_in z = 0 ->
  next_in z = [].
Proof. destruct (next_in z); [reflexivity | simpl; lia]. Qed.

Lemma bench_inflate_steps (z : zs) c s fed out :
  encodes c s ->
  inflating (state z) fed out ->
  avail_in z = N.of_nat (length (next_in z)) ->
  (exists rest, c = fed ++ next_in z ++ rest) ->
  next_out z = [] ->
  0 < avail_out z ->
  next_in z <> [] \/ fed = c ->
  exists k p,
    moves (zlib := codec) z (snd (bench_inflate z Z_NO_FLUSH)) k p
    /\ inflating (state (snd (bench_inflate z Z_NO_FLUSH)))
         (fed ++ firstn k (next_in z)) (out ++ p)
    /\ (fst (bench_inflate z Z_NO_FLUSH) = Z_OK
        \/ fst (bench_inflate z Z_NO_FLUSH) = Z_STREAM_END)
    /\ (fst (bench_inflate z Z_NO_FLUSH) = Z_STREAM_END ->
        fed ++ firstn k (next_in z) = c /\ out ++ p = s
        /\ forall z' : zs, state z' = state (snd (bench_inflate z Z_NO_FLUSH)) ->
                           fst (bench_inflateEnd z') = Z_OK)
    /\ (fst (bench_inflate z Z_NO_FLUSH) <> Z_STREAM_END ->
        (nu (snd (bench_inflate z Z_NO_FLUSH)) < nu z)%nat).
Proof.
  unfold encodes. intros -> [p [(Es & Hf) | [(Es & Hf) | (Es & Hf)]]]
    Hin [rest Hc] Hno Ho Hor; unfold bench_inflate; rewrite Es.
  - (* a tag is expected *)
    destruct (avail_in z =? 0) eqn:E0.
    { apply N.eqb_eq in E0. exfalso.
      pose proof (no_input z Hin E0) as Hn.
      destruct Hor as [H | H]; [contradiction | ].
      rewrite Hf in H. exact (stuff_not_whole _ _ H). }
    apply N.eqb_neq in E0.
    destruct (next_in z) as [ | b t] eqn:En; [simpl in Hin; lia | ].
    cbn [hd]. rewrite Hf in Hc. simpl in Hc. apply stuff_tag in Hc.
    destruct Hc as [(-> & Hr) | (-> & Hs & Hr)].
    + cbn [Byte.eqb fst snd]. change (Byte.eqb x01 x01) with true.
      cbv iota.
      destruct (emit_spec (advance z) p WantByte) as (q & r & -> & Hq & Ee & Hne).
      rewrite Ee. unfold advance in *. rewrite En in *.
      cbn [next_in avail_in next_out avail_out state tl fst snd] in *.
      exists 1%nat, q.
      split; [unfold moves; change (@internal_state codec) with codec_state;
              cbn [next_in avail_in next_out avail_out];
              rewrite En, Hno; simpl; repeat split; auto; lia | ].
      split.
      { exists r. right. left. split; [reflexivity | ].
        rewrite Hf, <- !app_assoc. reflexivity. }
      split; [left; reflexivity | ]. split; [discriminate | ].
      intros _. unfold nu, left_over. cbn [state pending avail_in].
      rewrite Es. cbn [pending]. rewrite length_app. lia.
    + change (Byte.eqb x00 x01) with false. change (Byte.eqb x00 x00) with true.
      cbv iota.
      destruct (emit_spec (advance z) p Ended) as (q & r & -> & Hq & Ee & Hne).
      rewrite Ee. unfold advance in *. rewrite En in *.
      cbn [next_in avail_in next_out avail_out state tl fst snd] in *.
      unfold left_over. cbn [state pending].
      exists 1%nat, q.
      split; [unfold moves; change (@internal_state codec) with codec_state;
              cbn [next_in avail_in next_out avail_out];
              rewrite En, Hno; simpl; repeat split; auto; lia | ].
      split.
      { exists r. right. right. split; [reflexivity | ].
        rewrite Hf, <- !app_assoc. reflexivity. }
      split; [destruct r; [right | left]; reflexivity | ].
      split.
      * destruct r; [ | discriminate]. intros _.
        rewrite app_nil_r in Hs. rewrite Hf, app_nil_r, <- Hs.
        split; [reflexivity | split; [reflexivity | ]].
        intros z' Ez. unfold bench_inflateEnd. rewrite Ez. reflexivity.
      * intros _. unfold nu, left_over. cbn [state pending avail_in].
        rewrite Es. cbn [pending]. rewrite length_app. lia.
  - (* a byte is expected *)
    destruct (avail_in z =? 0) eqn:E0.
    { apply N.eqb_eq in E0. exfalso.
      pose proof (no_input z Hin E0) as Hn.
      destruct Hor as [H | H]; [contradiction | ].
      rewrite Hf in H. symmetry in H. apply stuff_tag in H.
      destruct H as [(_ & H) | (H & _)]; [apply H; reflexivity | discriminate]. }
    apply N.eqb_neq in E0.
    destruct (next_in z) as [ | b t] eqn:En; [simpl in Hin; lia | ].
    cbn [hd fst snd].
    destruct (emit_spec (advance z) (p ++ [b]) WantTag)
      as (q & r & Epq & Hq & Ee & Hne).
    rewrite Ee. unfold advance in *. rewrite En in *.
    cbn [next_in avail_in next_out avail_out state tl fst snd] in *.
    exists 1%nat, q.
    split; [unfold moves; change (@internal_state codec) with codec_state;
            cbn [next_in avail_in next_out avail_out];
            rewrite En, Hno; simpl; repeat split; auto; lia | ].
    split.
    { exists r. left. split; [reflexivity | ].
      rewrite Hf, <- !app_assoc, <- Epq, !stuff_app, <- !app_assoc.
      reflexivity. }
    split; [left; reflexivity | ]. split; [discriminate | ].
    intros _. unfold nu, left_over. cbn [state pending avail_in].
    rewrite Es. cbn [pending].
    apply (f_equal (@length byte)) in Epq. rewrite !length_app in Epq.
    simpl in Epq. lia.
  - (* the stream has ended *)
    rewrite Hf in Hc. rewrite <- app_assoc in Hc. simpl in Hc.
    apply stuff_tag in Hc. destruct Hc as [(Hc & _) | (_ & Hs & Hr)];
      [discriminate | ].
    apply app_eq_nil in Hr. destruct Hr as [Hn _].
    destruct (emit_spec z p Ended) as (q & r & -> & Hq & Ee & Hne).
    rewrite Ee. cbn [fst snd]. unfold left_over. cbn [state pending].
    exists 0%nat, q.
    split; [unfold moves; change (@internal_state codec) with codec_state;
            cbn [next_in avail_in next_out avail_out];
            rewrite Hn, Hno; simpl; repeat split; auto; lia | ].
    split.
    { exists r. right. right. split; [reflexivity | ].
      rewrite Hn, app_nil_r, Hf, <- !app_assoc. reflexivity. }
    split; [destruct r; [right | left]; reflexivity | ].
    split.
    + destruct r; [ | discriminate]. intros _.
      rewrite app_nil_r in Hs. rewrite Hn, app_nil_r, Hf, app_nil_r, <- Hs.
      split; [reflexivity | split; [reflexivity | ]].
      intros z' Ez. unfold bench_inflateEnd. rewrite Ez. reflexivity.
    + intros Hr. unfold nu, left_over. cbn [state pending avail_in].
      rewrite Es. cbn [pending].
      destruct r as [ | r0 r]; [exfalso; apply Hr; reflexivity | ].
      assert (Hq' : q <> []).
      { apply Hne; [exact Ho | ]. destruct q; discriminate. }
      rewrite length_app. destruct q; [contradiction | simpl; lia].
Qed.

Theorem bench_lossless :
  Lossless (zlib := codec) encodes deflating inflating mu nu.
Proof.
  constructor.
  - intros level Hl. simpl. unfold bench_deflateInit.
    assert (E : ((-1 <=? level) && (level <=? 9))%Z = true).
    { apply andb_true_iff. split; apply Z.leb_le; lia. }
    rewrite E. split; [reflexivity | ].
    exists []. left. auto.
  - exact bench_deflate_steps.
  - intros z p n. reflexivity.
  - split; [reflexivity | ]. exists []. left. auto.
  - exact bench_inflate_steps.
  - intros z p n. reflexivity.
Qed.

End BenchLossless.

(** ** Runs that return *)

Section Settles.

Context {zlib : Zlib} {build : Build} {archiver : Archiver}.

Lemma settles_const {A} (m : M A) w a w' (Q : A -> world -> Prop) :
  m w = (Ret a, w') -> Q a w' -> settles (fun _ => m) w Q.
Proof. intros E HQ. exists a, w'. split; [exact HQ | ]. exists 0%nat. auto. Qed.

Lemma settles_weaken {A} (F : nat -> M A) w (Q Q' : A -> world -> Prop) :
  (forall a w', Q a w' -> Q' a w') -> settles F w Q -> settles F w Q'.
Proof.
  intros HQ (a & w' & H & Hf). exists a, w'. split; [apply HQ; exact H | exact Hf].
Qed.

Lemma settles_ext {A} (F G : nat -> M A) w (Q : A -> world -> Prop) :
  (forall f, F f w = G f w) -> settles G w Q -> settles F w Q.
Proof.
  intros E (a & w' & H & f0 & Hf). exists a, w'. split; [exact H | ].
  exists f0. intros f Hle. rewrite E. apply Hf. exact Hle.
Qed.

Lemma settles_move {A} (F G : nat -> M A) w w1 (Q : A -> world -> Prop) :
  (forall f, F f w = G f w1) -> settles G w1 Q -> settles F w Q.
Proof.
  intros E (a & w' & H & f0 & Hf). exists a, w'. split; [exact H | ].
  exists f0. intros f Hle. rewrite E. apply Hf. exact Hle.
Qed.

Lemma settles_succ {A} (F G : nat -> M A) w (Q : A -> world -> Prop) :
  (forall f, F (S f) w = G f w) -> settles G w Q -> settles F w Q.
Proof.
  intros E (a & w' & H & f0 & Hf). exists a, w'. split; [exact H | ].
  exists (S f0). intros f Hle. destruct f as [ | f]; [lia | ].
  rewrite E. apply Hf. lia.
Qed.

Lemma settles_step {A} (F G : nat -> M A) w w1 (Q : A -> world -> Prop) :
  (forall f, F (S f) w = G f w1) -> settles G w1 Q -> settles F w Q.
Proof.
  intros E (a & w' & H & f0 & Hf). exists a, w'. split; [exact H | ].
  exists (S f0). intros f Hle. destruct f as [ | f]; [lia | ].
  rewrite E. apply Hf. lia.
Qed.

Lemma settles_bind {A B} (F : nat -> M A) (G : nat -> A -> M B) w
  (Q : B -> world -> Prop) :
  settles F w (fun a w1 => settles (fun f => G f a) w1 Q) ->
  settles (fun f => bind (F f) (G f)) w Q.
Proof.
  intros (a & w1 & (b & w2 & HQ & f1 & Hg) & f0 & Hf).
  exists b, w2. split; [exact HQ | ]. exists (Nat.max f0 f1).
  intros f Hle. unfold bind. rewrite Hf by lia. apply Hg. lia.
Qed.

Lemma settles_ret {A} (a : A) w (Q : A -> world -> Prop) :
  Q a w -> settles (fun _ => ret a) w Q.
Proof. intros H. eapply settles_const; [reflexivity | exact H]. Qed.

(** The result of a run that settles, at any fuel at which it
    returns. *)
Lemma settles_at {A} (F : nat -> M A) w (Q : A -> world -> Prop) :
  settles F w Q ->
  exists f0, forall f, (f0 <= f)%nat ->
    exists a w', F f w = (Ret a, w') /\ Q a w'.
Proof.
  intros (a & w' & H & f0 & Hf). exists f0. intros f Hle.
  exists a, w'. split; [apply Hf; exact Hle | exact H].
Qed.

(** *** Freeing live blocks *)

Lemma free_live p w :
  live w p = true ->
  free p w = (Ret tt, mk_world (AH w) (heap_remove (heap w) p) (next_ptr w)
                        (mem_budget w) (trace w)).
Proof.
  intros H. unfold free. rewrite H.
  destruct (p =? NULL) eqn:E; [ | reflexivity].
  unfold live, block_size in H. rewrite E in H. discriminate.
Qed.

Lemma live_after_free w p q ah np mb tr :
  q <> p ->
  live (mk_world ah (heap_remove (heap w) p) np mb tr) q = live w q.
Proof.
  intros Hne. unfold live, block_size. simpl.
  rewrite heap_size_remove_other by exact Hne. reflexivity.
Qed.

End Settles.

(** ** A Deflate session that collects *)

Section WriteRoundTrip.

Context {zlib : Zlib} {build : Build}.
#[local] Existing Instance Bench.recorder.

Variable encodes : list byte -> list byte -> Prop.
Variable deflating :
  option internal_state -> bool -> list byte -> list byte -> Prop.
Variable inflating : option internal_state -> list byte -> list byte -> Prop.
Variables mu nu : z_stream -> nat.
Hypothesis codec_lossless : Lossless encodes deflating inflating mu nu.

Lemma concat_snoc {A} (l : list (list A)) x : concat (l ++ [x]) = concat l ++ x.
Proof. rewrite concat_app. simpl. rewrite app_nil_r. reflexivity. Qed.

(** One turn of the loop of [DeflateCompressorZlib]. *)
Lemma body_collect cs w fin s z (flush : bool) :
  staged deflating cs w fin s z ->
  (fin = true -> flush = true) ->
  (flush = true -> next_in z = []) ->
  let fl := if flush then Z_FINISH else Z_NO_FLUSH in
  exists w1 z2 k,
    DeflateCompressorZlib_body cs flush w
    = (Ret (set_zp cs z2, zret_eqb (fst (deflate z fl)) Z_STREAM_END), w1)
    /\ heap w1 = heap w
    /\ staged deflating (set_zp cs z2) w1 flush (s ++ firstn k (next_in z)) z2
    /\ next_in z2 = skipn k (next_in z)
    /\ (flush = true -> next_out z2 = [])
    /\ (fst (deflate z fl) = Z_STREAM_END ->
        flush = true
        /\ encodes (concat (Bench.written (AH w1))) s
        /\ fst (deflateEnd z2) = Z_OK)
    /\ (fst (deflate z fl) <> Z_STREAM_END ->
        avail_in z <> 0 \/ flush = true ->
        (flush = false /\ avail_in z2 = 0) \/ (mu z2 < mu z)%nat).
Proof.
  intros (Hzp & HwF & Hd & Hsz & Ho & Hin & Hne) Hfin Hfl fl.
  destruct (deflate_steps _ _ _ _ _ codec_lossless z fl fin s _ Hd Hin)
    as (k & p & Hm & Hd1 & Herr & Hend & Hprog).
  { intros E. unfold fl. rewrite (Hfin E). reflexivity. }
  { unfold fl. destruct flush; [intros _; apply Hfl; reflexivity | discriminate]. }
  assert (Efl : is_finish fl = flush) by (unfold fl; destruct flush; reflexivity).
  rewrite Efl in Hd1.
  destruct Hm as (Hk & Hp & Hni & Hai & Hno & Hao).
  unfold DeflateCompressorZlib_body, deref_zp. rewrite Hzp, HwF.
  unfold call_deflate, call_writeF, collect.
  unfold bind, ret, log, die_horribly, with_AH.
  cbv beta iota zeta. fold fl.
  destruct (deflate z fl) as [res z1] eqn:Ed.
  cbn [fst snd AH heap trace next_ptr mem_budget] in *.
  assert (Er : zret_eqb res Z_STREAM_ERROR = false).
  { destruct (zret_eqb res Z_STREAM_ERROR) eqn:E; [ | reflexivity].
    apply zret_eqb_eq in E. contradiction. }
  rewrite Er. cbv beta iota.
  assert (Hsz1 : N.of_nat (length (next_out z1)) + avail_out z1 = zlibOutSize cs).
  { rewrite Hno, Hao, length_app. lia. }
  assert (Hin1 : avail_in z1 = N.of_nat (length (next_in z1))).
  { rewrite Hni, Hai, Hin, length_skipn. lia. }
  assert (Hzp2 : forall z2, zp (set_zp cs z2) = Some (zp_addr (set_zp cs z2), z2)).
  { intros z2. unfold set_zp, zp_addr. simpl. rewrite Hzp. reflexivity. }
  destruct (flush && (avail_out z1 <? zlibOutSize cs) || (avail_out z1 =? 0)
            || negb (avail_in z1 =? 0)) eqn:Ec; cbv beta iota.
  - destruct (avail_out z1 <? zlibOutSize cs) eqn:El; cbv beta iota;
      cbn [fst snd AH heap trace next_ptr mem_budget].
    + apply N.ltb_lt in El. rewrite N.eqb_refl. cbn [negb]. cbv beta iota.
      assert (Hlen : N.to_nat (zlibOutSize cs - avail_out z1)
                     = length (next_out z1)) by lia.
      rewrite Hlen, firstn_all.
      eexists. exists (set_out z1 [] (zlibOutSize cs)), k.
      split; [reflexivity | ]. cbn [heap AH Bench.written].
      split; [reflexivity | ].
      assert (Hc : concat (Bench.written (AH w) ++ [next_out z1]) ++ []
                   = (concat (Bench.written (AH w)) ++ next_out z) ++ p).
      { rewrite app_nil_r, concat_snoc, Hno, app_assoc. reflexivity. }
      split.
      { unfold staged, set_out. cbn [AH Bench.written next_out avail_out
                                       next_in avail_in state].
        split; [apply Hzp2 | ]. split; [exact HwF | ].
        split; [rewrite Hc; exact Hd1 | ].
        unfold set_zp. cbn [zlibOutSize length].
        split; [lia | ]. split; [lia | ]. split; [exact Hin1 | ].
        apply Forall_app. split; [exact Hne | ].
        constructor; [ | constructor]. split; [ | lia].
        intros E. rewrite E in Hlen. simpl in Hlen. lia. }
      split; [exact Hni | ]. split; [reflexivity | ].
      split.
      * intros E. destruct (Hend E) as (Hf & He & Hde).
        split; [unfold fl in Hf; destruct flush; [reflexivity | discriminate] | ].
        split; [ | apply Hde; reflexivity].
        rewrite app_nil_r in Hc. rewrite concat_snoc, Hno, app_assoc. exact He.
      * intros E Hor. cbn [avail_in].
        pose proof (deflate_measure _ _ _ _ _ codec_lossless z1 [] (zlibOutSize cs))
          as Hmu.
        unfold set_out. rewrite Hmu.
        destruct (Hprog E Ho) as [(Hf & Ha) | Hlt].
        -- destruct Hor as [H | ->]; [left; exact H | right; reflexivity].
        -- left. split; [ | exact Ha].
           unfold fl in Hf. destruct flush; [discriminate | reflexivity].
        -- right. exact Hlt.
    + apply N.ltb_ge in El.
      assert (Hnil : next_out z1 = []).
      { destruct (next_out z1); [reflexivity | cbn [length] in Hsz1; lia]. }
      eexists. exists (set_out z1 [] (zlibOutSize cs)), k.
      split; [reflexivity | ]. cbn [heap AH Bench.written].
      split; [reflexivity | ].
      assert (Hc : concat (Bench.written (AH w)) ++ []
                   = (concat (Bench.written (AH w)) ++ next_out z) ++ p).
      { rewrite <- app_assoc, <- Hno, Hnil. reflexivity. }
      split.
      { unfold staged, set_out. cbn [AH Bench.written next_out avail_out
                                       next_in avail_in state].
        split; [apply Hzp2 | ]. split; [exact HwF | ].
        split; [rewrite Hc; exact Hd1 | ].
        unfold set_zp. cbn [zlibOutSize length].
        split; [lia | ]. split; [lia | ]. split; [exact Hin1 | exact Hne]. }
      split; [exact Hni | ]. split; [reflexivity | ].
      split.
      * intros E. destruct (Hend E) as (Hf & He & Hde).
        split; [unfold fl in Hf; destruct flush; [reflexivity | discriminate] | ].
        split; [ | apply Hde; reflexivity].
        rewrite app_nil_r in Hc. rewrite Hc. exact He.
      * intros E Hor. cbn [avail_in].
        pose proof (deflate_measure _ _ _ _ _ codec_lossless z1 [] (zlibOutSize cs))
          as Hmu.
        unfold set_out. rewrite Hmu.
        destruct (Hprog E Ho) as [(Hf & Ha) | Hlt].
        -- destruct Hor as [H | ->]; [left; exact H | right; reflexivity].
        -- left. split; [ | exact Ha].
           unfold fl in Hf. destruct flush; [discriminate | reflexivity].
        -- right. exact Hlt.
  - apply orb_false_iff in Ec. destruct Ec as [Ec E3].
    apply orb_false_iff in Ec. destruct Ec as [E1 E2].
    apply negb_false_iff in E3. apply N.eqb_eq in E3. apply N.eqb_neq in E2.
    eexists. exists z1, k.
    split; [reflexivity | ]. cbn [heap AH Bench.written].
    split; [reflexivity | ].
    assert (Hc : concat (Bench.written (AH w)) ++ next_out z1
                 = (concat (Bench.written (AH w)) ++ next_out z) ++ p).
    { rewrite Hno, app_assoc. reflexivity. }
    assert (Hfn : flush = true -> next_out z1 = []).
    { intros ->. simpl in E1. apply N.ltb_ge in E1.
      destruct (next_out z1); [reflexivity | cbn [length] in Hsz1; lia]. }
    split.
    { unfold staged. cbn [AH Bench.written].
      split; [apply Hzp2 | ]. split; [exact HwF | ].
      split; [rewrite Hc; exact Hd1 | ].
      unfold set_zp. cbn [zlibOutSize].
      split; [exact Hsz1 | ]. split; [lia | ]. split; [exact Hin1 | exact Hne]. }
    split; [exact Hni | ]. split; [exact Hfn | ].
    split.
    + intros E. destruct (Hend E) as (Hf & He & Hde).
      assert (Hftrue : flush = true)
        by (unfold fl in Hf; destruct flush; [reflexivity | discriminate]).
      split; [exact Hftrue | ].
      split; [ | apply Hde; reflexivity].
      rewrite (Hfn Hftrue), app_nil_r in Hc. rewrite Hc. exact He.
    + intros E Hor.
      destruct (Hprog E Ho) as [(Hf & Ha) | Hlt].
      * destruct Hor as [H | ->]; [left; exact H | right; reflexivity].
      * left. split; [ | exact Ha].
        unfold fl in Hf. destruct flush; [discriminate | reflexivity].
      * right. exact Hlt.
Qed.

Lemma Deflate_unfold f cs z (flush : bool) w :
  zp cs = Some (zp_addr cs, z) ->
  negb (avail_in z =? 0) || flush = true ->
  DeflateCompressorZlib (S f) cs flush w
  = bind (DeflateCompressorZlib_body cs flush)
      (fun r => let (cs', stop) := r in
                if stop then ret cs' else DeflateCompressorZlib f cs' flush) w.
Proof.
  intros Hzp Hc. simpl. unfold deref_zp at 1. rewrite Hzp.
  unfold bind at 1, ret at 1. rewrite Hc. reflexivity.
Qed.

Lemma Deflate_done cs w s z :
  staged deflating cs w false s z -> avail_in z = 0 ->
  settles (fun f => DeflateCompressorZlib f cs false) w
    (flushed encodes deflating cs w false (s ++ next_in z)).
Proof.
  intros Hst H0. pose proof Hst as (Hzp & _ & _ & _ & _ & Hin & _).
  apply settles_ext with (G := fun _ => ret cs).
  { intros f. eapply Deflate_no_input; eassumption. }
  apply settles_ret. unfold flushed.
  split; [apply same_context_refl; congruence | ].
  split; [reflexivity | ]. exists z.
  assert (Hn : next_in z = []).
  { destruct (next_in z); [reflexivity | simpl in Hin; lia]. }
  rewrite Hn, app_nil_r. auto.
Qed.

Lemma Deflate_collects : forall n cs w fin s z (flush : bool),
  (mu z < n)%nat ->
  staged deflating cs w fin s z ->
  (fin = true -> flush = true) ->
  (flush = true -> next_in z = []) ->
  settles (fun f => DeflateCompressorZlib f cs flush) w
    (flushed encodes deflating cs w flush (s ++ next_in z)).
Proof.
  induction n as [ | n IH]; intros cs w fin s z flush Hmu Hst Hfin Hfl; [lia | ].
  pose proof Hst as (Hzp & _ & _ & _ & _ & Hin & _).
  destruct (negb (avail_in z =? 0) || flush) eqn:Ec.
  2:{ apply orb_false_iff in Ec. destruct Ec as [Ec ->].
      apply negb_false_iff, N.eqb_eq in Ec.
      destruct fin; [discriminate (Hfin eq_refl) | ].
      apply Deflate_done; assumption. }
  assert (Hor : avail_in z <> 0 \/ flush = true).
  { apply orb_true_iff in Ec. destruct Ec as [Ec | Ec]; [left | right; exact Ec].
    apply negb_true_iff, N.eqb_neq in Ec. exact Ec. }
  apply settles_succ
    with (G := fun f =>
            bind (DeflateCompressorZlib_body cs flush)
              (fun r => let (cs', stop) := r in
                        if stop then ret cs'
                        else DeflateCompressorZlib f cs' flush));
    [intros f; apply (Deflate_unfold f cs z flush w Hzp Ec) | ].
  destruct (body_collect cs w fin s z flush Hst Hfin Hfl)
    as (w1 & z2 & k & Eb & Hh & Hst2 & Hni & Hno & Hend & Hprog).
  cbv zeta in *.
  apply settles_move
    with (w1 := w1)
         (G := fun f =>
            if zret_eqb (fst (deflate z (if flush then Z_FINISH else Z_NO_FLUSH)))
                 Z_STREAM_END
            then ret (set_zp cs z2)
            else DeflateCompressorZlib f (set_zp cs z2) flush);
    [intros f; unfold bind; rewrite Eb; reflexivity | ].
  assert (Hsc : same_context cs (set_zp cs z2)) by (exists z2; reflexivity).
  destruct (zret_eqb (fst (deflate z (if flush then Z_FINISH else Z_NO_FLUSH)))
              Z_STREAM_END) eqn:Eend.
  - apply zret_eqb_eq in Eend. destruct (Hend Eend) as (-> & He & Hde).
    apply settles_ret. unfold flushed.
    split; [exact Hsc | ]. split; [exact Hh | ].
    rewrite (Hfl eq_refl), app_nil_r.
    split; [exact He | ].
    destruct Hst2 as (Hzp2 & _ & _ & _ & _ & _ & Hne2).
    split; [exact Hne2 | ]. exists z2. auto.
  - assert (Hne : fst (deflate z (if flush then Z_FINISH else Z_NO_FLUSH))
                  <> Z_STREAM_END).
    { intros E. rewrite E in Eend. discriminate. }
    assert (Hs : (s ++ firstn k (next_in z)) ++ next_in z2 = s ++ next_in z).
    { rewrite Hni, <- app_assoc, firstn_skipn. reflexivity. }
    assert (Hgoal : settles (fun f => DeflateCompressorZlib f (set_zp cs z2) flush)
                      w1 (flushed encodes deflating (set_zp cs z2) w1 flush (s ++ next_in z))).
    { destruct (Hprog Hne Hor) as [(-> & H0) | Hlt].
      - rewrite <- Hs. apply Deflate_done; assumption.
      - rewrite <- Hs. apply IH with (fin := flush).
        + lia.
        + exact Hst2.
        + auto.
        + intros ->. rewrite Hni, (Hfl eq_refl). apply skipn_nil. }
    revert Hgoal. apply settles_weaken. intros cs' w' (Hsc' & Hh' & HQ).
    unfold flushed.
    split; [eapply same_context_trans; eassumption | ].
    split; [congruence | exact HQ].
Qed.

Hypothesis have_libz : HAVE_LIBZ = true.
Hypothesis out_size_pos : 0 < ZLIB_OUT_SIZE.

Lemma set_zp_zp cs z a z0 :
  zp cs = Some (a, z0) ->
  zp (set_zp cs z) = Some (zp_addr (set_zp cs z), z).
Proof. intros H. unfold set_zp, zp_addr. simpl. rewrite H. reflexivity. Qed.

Lemma staged_holds cs w s z :
  comprAlg cs = COMPR_ALG_LIBZ ->
  staged deflating cs w false s z -> holds deflating cs w s z.
Proof.
  intros Ha (Hzp & HwF & Hd & Hsz & Ho & Hin & Hne).
  split; [exact Hzp | ]. split; [exact Ha | ]. intros d.
  unfold staged, set_in. cbn [next_in avail_in next_out avail_out state].
  split; [eapply set_zp_zp; exact Hzp | ].
  unfold set_zp. cbn [writeF zlibOutSize]. auto 10.
Qed.

Lemma owns_same cs cs' w w' :
  same_context cs cs' -> heap w' = heap w -> owns cs w -> owns cs' w'.
Proof.
  intros [z ->] Hh (L1 & L2 & L3 & N1 & N2 & N3).
  assert (Ez : zp_addr (set_zp cs z) = zp_addr cs).
  { unfold zp_addr, set_zp. simpl. destruct (zp cs) as [[a y] | ]; reflexivity. }
  unfold owns, live, block_size in *. rewrite Ez, Hh.
  unfold set_zp. cbn [zlibOut addr]. auto 10.
Qed.

(** [WriteDataToArchive] takes all of [data]. *)
Lemma Write_collects cs w s z data :
  holds deflating cs w s z -> fits_uInt data ->
  settles (fun f => WriteDataToArchive f cs data (N.of_nat (length data))) w
    (fun r w' =>
       fst r = N.of_nat (length data)
       /\ same_context cs (snd r) /\ heap w' = heap w
       /\ exists z', holds deflating (snd r) w' (s ++ data) z').
Proof.
  intros (Hzp & Ha & Hst) Hfit.
  apply settles_ext
    with (G := fun f =>
            bind (DeflateCompressorZlib f
                    (set_zp cs (set_in z data (N.of_nat (length data)))) false)
              (fun c => ret (N.of_nat (length data), c))).
  { intros f. unfold WriteDataToArchive. rewrite Ha, have_libz.
    unfold WriteDataToArchiveZlib, deref_zp. rewrite Hzp.
    rewrite (to_uInt_fits _ Hfit). reflexivity. }
  apply settles_bind with (G := fun _ c => ret (N.of_nat (length data), c)).
  pose proof (Deflate_collects
                (S (mu (set_in z data (N.of_nat (length data)))))
                _ w false s _ false (Nat.lt_succ_diag_r _) (Hst data)) as H.
  cbn [next_in set_in] in H.
  eapply settles_weaken; [ | apply H; [auto | discriminate]].
  intros cs' w' (Hsc & Hh & z' & Hst' & Hn).
  apply settles_ret. cbn [fst snd].
  split; [reflexivity | ].
  assert (Hsc' : same_context cs cs').
  { destruct Hsc as [y ->]. exists y. apply set_zp_set_zp. }
  split; [exact Hsc' | ]. split; [exact Hh | ].
  exists z'. apply staged_holds; [ | exact Hst'].
  rewrite (same_context_comprAlg _ _ Hsc'). exact Ha.
Qed.

Lemma write_all_collects : forall datas cs w s z,
  holds deflating cs w s z -> Forall fits_uInt datas ->
  settles (fun f => write_all f cs datas) w
    (fun cs' w' =>
       same_context cs cs' /\ heap w' = heap w
       /\ exists z', holds deflating cs' w' (s ++ concat datas) z').
Proof.
  induction datas as [ | d datas IH]; intros cs w s z Hh Hfit.
  - apply settles_ret. rewrite app_nil_r.
    split; [apply same_context_refl; destruct Hh as (E & _); congruence | ].
    split; [reflexivity | exists z; exact Hh].
  - cbn [write_all concat]. apply Forall_cons_iff in Hfit.
    destruct Hfit as [Hd Hfit].
    apply settles_bind
      with (F := fun f => WriteDataToArchive f cs d (N.of_nat (length d)))
           (G := fun f r => write_all f (snd r) datas).
    eapply settles_weaken; [ | apply (Write_collects _ _ _ _ _ Hh Hd)].
    intros r w1 (_ & Hsc & Hheap & z1 & Hh1).
    eapply settles_weaken; [ | apply (IH _ _ _ _ Hh1 Hfit)].
    intros cs' w' (Hsc' & Hheap' & z' & Hh').
    split; [eapply same_context_trans; eassumption | ].
    split; [congruence | ]. exists z'. rewrite app_assoc. exact Hh'.
Qed.

(** [EndCompressor] leaves a whole stream in the chunks. *)
Lemma End_collects cs w s z :
  holds deflating cs w s z -> owns cs w ->
  settles (fun f => EndCompressor f cs) w
    (fun _ w' =>
       encodes (concat (Bench.written (AH w'))) s
       /\ chunks_up_to (zlibOutSize cs) (Bench.written (AH w'))).
Proof.
  intros (Hzp & Ha & Hst) Hown.
  apply settles_ext
    with (G := fun f =>
            bind (DeflateCompressorZlib f (set_zp cs (set_in z [] 0)) true)
              (fun cs' =>
                 z' <- deref_zp cs' ;;
                 (if negb (zret_eqb (fst (deflateEnd z')) Z_OK)
                  then die_horribly CouldNotCloseStream else ret tt) ;;;
                 free (zlibOut cs') ;;; free (zp_addr cs') ;;; free (addr cs))).
  { intros f. unfold EndCompressor. rewrite Ha, have_libz. cbn [andb is_LIBZ].
    unfold EndCompressorZlib, deref_zp at 1. rewrite Hzp.
    unfold bind, ret. cbv beta iota.
    destruct (DeflateCompressorZlib f (set_zp cs (set_in z [] 0)) true w)
      as [[c | e | x | ] w1]; try reflexivity.
    destruct (deref_zp c w1) as [[z' | e | x | ] w2]; try reflexivity.
    destruct (negb (zret_eqb (fst (deflateEnd z')) Z_OK));
      cbv beta iota; [reflexivity | ].
    destruct (free (zlibOut c) w2) as [[u | e | x | ] w3]; reflexivity. }
  apply settles_bind
    with (G := fun (_ : nat) cs' =>
                 z' <- deref_zp cs' ;;
                 (if negb (zret_eqb (fst (deflateEnd z')) Z_OK)
                  then die_horribly CouldNotCloseStream else ret tt) ;;;
                 free (zlibOut cs') ;;; free (zp_addr cs') ;;; free (addr cs)).
  pose proof (Deflate_collects (S (mu (set_in z [] 0))) _ w false s _ true
                (Nat.lt_succ_diag_r _) (Hst [])) as H.
  cbn [next_in set_in] in H. rewrite app_nil_r in H.
  eapply settles_weaken; [ | apply H; auto].
  intros cs' w' (Hsc & Hh & He & Hne & z' & Hzp' & Hde).
  assert (Hsc' : same_context cs cs').
  { destruct Hsc as [y ->]. exists y. apply set_zp_set_zp. }
  pose proof (owns_same _ _ _ _ Hsc' Hh Hown) as (L1 & L2 & L3 & N1 & N2 & N3).
  assert (Eaddr : addr cs = addr cs') by (destruct Hsc' as [y ->]; reflexivity).
  eapply settles_const.
  - unfold deref_zp. rewrite Hzp'. unfold bind at 1, ret at 1.
    rewrite Hde. cbn [zret_eqb negb]. unfold bind at 1, ret at 1.
    unfold bind at 1. rewrite (free_live _ _ L1).
    unfold bind at 1. rewrite free_live
      by (rewrite live_after_free; [exact L2 | auto]).
    cbn [heap AH next_ptr mem_budget trace].
    rewrite Eaddr. apply free_live.
    unfold live, block_size. cbn [heap].
    rewrite !heap_size_remove_other by auto.
    exact L3.
  - cbn [AH]. split; [exact He | ].
    destruct Hsc' as [y ->]. exact Hne.
Qed.

Lemma malloc_some size ah h np b tr :
  malloc size (mk_world ah h np (S b) tr)
  = (Ret (N.succ np), mk_world ah ((N.succ np, size) :: h) (N.succ np) b tr).
Proof. reflexivity. Qed.

(** [AllocateCompressor] with a Deflate hint and room for its three
    blocks returns a context that has taken nothing. *)
Lemma Allocate_holds compression w b :
  (1 <= compression <= 9)%Z ->
  mem_budget w = S (S (S b)) ->
  Bench.written (AH w) = [] ->
  exists cs w1 z,
    AllocateCompressor compression collect w = (Ret cs, w1)
    /\ holds deflating cs w1 [] z /\ owns cs w1
    /\ zlibOutSize cs = ZLIB_OUT_SIZE.
Proof.
  intros Hc Hb Hw.
  destruct (deflate_starts _ _ _ _ _ codec_lossless compression
              ltac:(lia)) as [Hok Hd].
  destruct w as [ah h np mb tr]. cbn [mem_budget AH] in Hb, Hw. subst mb.
  unfold AllocateCompressor.
  rewrite (bind_eq _ _ _ _ _ (Parse_Deflate compression true _ (or_intror Hc))).
  cbn [fst snd]. rewrite have_libz. cbn [negb andb is_LIBZ].
  unfold bind at 1, ret at 1.
  rewrite (bind_eq _ _ _ _ _ (malloc_some _ _ _ _ _ _)).
  rewrite succ_not_NULL. unfold bind at 1, ret at 1.
  unfold InitCompressorZlib.
  rewrite (bind_eq _ _ _ _ _ (malloc_some _ _ _ _ _ _)).
  rewrite succ_not_NULL. unfold bind at 1, ret at 1.
  rewrite (bind_eq _ _ _ _ _ (malloc_some _ _ _ _ _ _)).
  rewrite succ_not_NULL. unfold bind at 1, ret at 1.
  unfold z_stream_fresh.
  destruct (deflateInit (mk_z_stream [] 0 [] 0 None) compression) as [r z0].
  cbn [fst snd] in Hok, Hd. subst r. cbn [zret_eqb negb].
  unfold bind, ret.
  eexists _, _, (set_out z0 [] ZLIB_OUT_SIZE).
  split; [reflexivity | ].
  split.
  - split; [reflexivity | ]. split; [reflexivity | ]. intros d.
    unfold staged, set_zp, set_in, set_out, zp_addr.
    cbn [zp writeF zlibOutSize next_in avail_in next_out avail_out state AH
         length].
    rewrite Hw. cbn [concat app]. rewrite N.add_0_l.
    repeat split; auto. constructor.
  - unfold owns, live, block_size, zp_addr.
    cbn [zlibOut zp addr heap heap_size].
    rewrite !succ_not_NULL, !N.eqb_refl.
    assert (E1 : (N.succ (N.succ (N.succ np)) =? N.succ (N.succ np)) = false)
      by (apply N.eqb_neq; lia).
    assert (E2 : (N.succ (N.succ (N.succ np)) =? N.succ np) = false)
      by (apply N.eqb_neq; lia).
    assert (E3 : (N.succ (N.succ np) =? N.succ np) = false)
      by (apply N.eqb_neq; lia).
    rewrite E1, E2, E3.
    repeat split; lia.
Qed.

(** A whole write session that collects its chunks leaves a compressed
    stream of what was written, in chunks none of which is empty. *)
Lemma WriteSession_collects compression datas w b :
  (1 <= compression <= 9)%Z ->
  mem_budget w = S (S (S b)) ->
  Bench.written (AH w) = [] ->
  Forall fits_uInt datas ->
  settles (fun f => WriteSession f compression collect datas) w
    (fun _ w' =>
       encodes (concat (Bench.written (AH w'))) (concat datas)
       /\ chunks_up_to ZLIB_OUT_SIZE (Bench.written (AH w'))).
Proof.
  intros Hc Hb Hw Hfit.
  destruct (Allocate_holds compression w b Hc Hb Hw)
    as (cs & w1 & z & Ea & Hh & Hown & Hsz).
  apply settles_move
    with (G := fun f => bind (write_all f cs datas) (EndCompressor f))
         (w1 := w1).
  { intros f. unfold WriteSession. rewrite (bind_eq _ _ _ _ _ Ea).
    reflexivity. }
  apply settles_bind
    with (F := fun f => write_all f cs datas) (G := fun f c => EndCompressor f c).
  eapply settles_weaken; [ | apply (write_all_collects datas _ _ _ _ Hh Hfit)].
  intros cs' w' (Hsc & Hheap & z' & Hh').
  assert (Hsz' : zlibOutSize cs' = ZLIB_OUT_SIZE)
    by (destruct Hsc as [y ->]; exact Hsz).
  rewrite <- Hsz'.
  apply (End_collects _ _ _ _ Hh').
  eapply owns_same; eassumption.
Qed.

End WriteRoundTrip.

(** *** Reading back what a session wrote *)

Section ReadRoundTrip.

Context {zlib : Zlib} {build : Build}.
#[local] Existing Instance Bench.recorder.

Variable encodes : list byte -> list byte -> Prop.
Variable deflating :
  option internal_state -> bool -> list byte -> list byte -> Prop.
Variable inflating : option internal_state -> list byte -> list byte -> Prop.
Variables mu nu : z_stream -> nat.
Hypothesis codec_lossless : Lossless encodes deflating inflating mu nu.
Hypothesis have_libz : HAVE_LIBZ = true.
Hypothesis out_size_pos : 0 < ZLIB_OUT_SIZE.
Hypothesis out_size_uInt : ZLIB_OUT_SIZE < 2 ^ 32.

Variables c s : list byte.
Hypothesis c_encodes_s : encodes c s.

Lemma firstn_poke p b :
  firstn (length p) (poke p (N.of_nat (length p)) b) = p.
Proof.
  unfold poke. rewrite Nat2N.id, firstn_all, Nat.sub_diag.
  cbn [repeat app]. rewrite firstn_app, firstn_all, Nat.sub_diag.
  cbn [firstn]. apply app_nil_r.
Qed.

(** One turn of either loop: what [inflate] stores reaches the sink. *)
Lemma inflate_to_ahwrite_drains out hp w fed res z :
  draining inflating c s out hp w fed res z ->
  next_in z <> [] \/ fed = c ->
  exists res' z' w' fed',
    inflate_to_ahwrite out z w = (Ret (res', z'), w')
    /\ draining inflating c s out hp w' fed' res' z'
    /\ Bench.to_read (AH w') = Bench.to_read (AH w)
    /\ (next_in z = [] -> next_in z' = [])
    /\ (res' <> Z_STREAM_END -> (nu z' < nu z)%nat).
Proof.
  intros (Hh & Hb & Hi & Hin & Hc & Hne & _) Hgo.
  destruct (inflate_steps _ _ _ _ _ codec_lossless
              (set_out z [] ZLIB_OUT_SIZE) c s fed (Bench.sink (AH w))
              c_encodes_s Hi Hin
              (ex_intro _ (concat (Bench.to_read (AH w))) Hc)
              eq_refl out_size_pos Hgo)
    as (k & p & Hm & Hi' & Hres & Hend & Hnu).
  destruct Hm as (Hk & Hp & Hni & Hai & Hno & Hao).
  cbn [set_out next_in avail_in next_out avail_out state] in *.
  rewrite (inflate_measure _ _ _ _ _ codec_lossless z [] ZLIB_OUT_SIZE
           : nu (set_out z [] ZLIB_OUT_SIZE) = nu z) in Hnu.
  destruct (inflate (set_out z [] ZLIB_OUT_SIZE) Z_NO_FLUSH)
    as [res' z'] eqn:Einf.
  cbn [fst snd] in *.
  assert (En : uInt_sub ZLIB_OUT_SIZE (avail_out z') = N.of_nat (length p)).
  { rewrite Hao. rewrite uInt_sub_exact by lia. lia. }
  exists res', z'.
  destruct w as [ah h np mb tr].
  unfold block_size in Hb. cbn [heap AH] in *.
  exists (mk_world (archiver := Bench.recorder)
            (Bench.mk_Handle (Bench.written ah) (Bench.to_read ah)
               (Bench.sink ah ++ p))
            h np mb
            ((tr ++ [Ev_inflate (set_out z [] ZLIB_OUT_SIZE) res' z'])
               ++ [Ev_ahwrite (poke p (N.of_nat (length p)) x00) 1
                     (N.of_nat (length p))])),
    (fed ++ firstn k (next_in z)).
  split.
  - unfold inflate_to_ahwrite, call_inflate. cbv zeta.
    unfold bind, log, ret, store, block_size, call_ahwrite, with_AH, bind, log.
    cbv beta iota.
    rewrite Einf. cbn [fst snd heap AH next_ptr mem_budget trace].
    assert (Ed : (if negb (zret_eqb res' Z_OK) && negb (zret_eqb res' Z_STREAM_END)
                  then (die_horribly CouldNotUncompress : M unit)
                  else fun w0 => (Ret tt, w0))
                 = fun w0 => (Ret tt, w0)).
    { destruct Hres as [-> | ->]; reflexivity. }
    rewrite Ed. cbv beta iota.
    rewrite En, Hno. cbn [app heap AH next_ptr mem_budget trace].
    destruct (out =? NULL); [discriminate | ].
    rewrite Hb.
    assert (El : (N.of_nat (length p) <? ZLIB_OUT_SIZE + 1) = true)
      by (apply N.ltb_lt; lia).
    rewrite El. cbv beta iota.
    cbn [ahwrite Bench.recorder heap AH next_ptr mem_budget trace].
    rewrite N.mul_1_l, Nat2N.id, firstn_poke. reflexivity.
  - split; [ | split; [reflexivity | split; [ | exact Hnu]]].
    + unfold draining, block_size. cbn [heap AH Bench.sink Bench.to_read].
      split; [exact Hh | ]. split; [exact Hb | ]. split; [exact Hi' | ].
      assert (Hlen : length (skipn k (next_in z)) = (length (next_in z) - k)%nat)
        by apply length_skipn.
      split; [rewrite Hai, Hni, Hin, Hlen; lia | ].
      split.
      { rewrite Hni, Hc, <- app_assoc. f_equal. rewrite app_assoc.
        rewrite firstn_skipn. reflexivity. }
      split; [exact Hne | ].
      intros E. destruct (Hend E) as (E1 & E2 & E3). auto.
    + intros E. rewrite Hni, E. apply skipn_nil.
Qed.

Lemma draining_end out hp w fed z :
  draining inflating c s out hp w fed Z_STREAM_END z ->
  next_in z = [] /\ Bench.to_read (AH w) = [].
Proof.
  intros (_ & _ & _ & _ & Hc & Hne & He).
  destruct (He eq_refl) as (E & _). subst fed.
  rewrite <- (app_nil_r c) in Hc at 1. apply app_inv_head in Hc.
  symmetry in Hc. apply app_eq_nil in Hc. destruct Hc as [E1 E2].
  split; [exact E1 | ].
  destruct (Bench.to_read (AH w)) as [ | ch rest]; [reflexivity | ].
  inversion Hne as [ | ? ? Hch _]. cbn [concat] in E2.
  apply app_eq_nil in E2. destruct E2 as [E2 _]. contradiction.
Qed.

Lemma inflate_chunk_done out hp w fed res z :
  draining inflating c s out hp w fed res z -> avail_in z = 0 ->
  settles (fun f => inflate_chunk f out res z) w
    (fun r w' =>
       exists fed',
         draining inflating c s out hp w' fed' (fst r) (snd r)
         /\ next_in (snd r) = []
         /\ Bench.to_read (AH w') = Bench.to_read (AH w)).
Proof.
  intros Hd E.
  apply settles_ext with (G := fun _ => ret (res, z)).
  { intros f. destruct f; cbn [inflate_chunk]; rewrite E; reflexivity. }
  apply settles_ret. exists fed. cbn [fst snd].
  split; [exact Hd | ]. split; [ | reflexivity].
  destruct Hd as (_ & _ & _ & Hin & _). rewrite E in Hin.
  apply length_zero_iff_nil. lia.
Qed.

(** The inner loop takes the whole chunk. *)
Lemma inflate_chunk_drains : forall n out hp w fed res z,
  (nu z < n)%nat ->
  draining inflating c s out hp w fed res z ->
  settles (fun f => inflate_chunk f out res z) w
    (fun r w' =>
       exists fed',
         draining inflating c s out hp w' fed' (fst r) (snd r)
         /\ next_in (snd r) = []
         /\ Bench.to_read (AH w') = Bench.to_read (AH w)).
Proof.
  induction n as [ | n IH]; intros out hp w fed res z Hn Hd; [lia | ].
  destruct (0 <? avail_in z) eqn:E.
  2:{ apply (inflate_chunk_done _ _ _ _ _ _ Hd).
      apply N.ltb_ge in E. lia. }
  assert (Hgo : next_in z <> []).
  { intros E0. destruct Hd as (_ & _ & _ & Hin & _).
    rewrite E0 in Hin. cbn in Hin. apply N.ltb_lt in E. lia. }
  destruct (inflate_to_ahwrite_drains _ _ _ _ _ _ Hd (or_introl Hgo))
    as (res' & z' & w' & fed' & Es & Hd' & Hr & _ & Hnu).
  apply settles_succ
    with (G := fun f => bind (inflate_to_ahwrite out z)
                          (fun r => inflate_chunk f out (fst r) (snd r))).
  { intros f. cbn [inflate_chunk]. rewrite E. reflexivity. }
  apply settles_move
    with (G := fun f => inflate_chunk f out res' z') (w1 := w').
  { intros f. rewrite (bind_eq _ _ _ _ _ Es). reflexivity. }
  assert (Hw : forall (r : zret * z_stream) (w2 : world),
             (exists fed2,
                draining inflating c s out hp w2 fed2 (fst r) (snd r)
                /\ next_in (snd r) = []
                /\ Bench.to_read (AH w2) = Bench.to_read (AH w')) ->
             exists fed2,
               draining inflating c s out hp w2 fed2 (fst r) (snd r)
               /\ next_in (snd r) = []
               /\ Bench.to_read (AH w2) = Bench.to_read (AH w)).
  { intros r w2 (fed2 & H1 & H2 & H3). exists fed2.
    split; [exact H1 | ]. split; [exact H2 | congruence]. }
  eapply settles_weaken; [exact Hw | ].
  destruct (zret_eqb res' Z_STREAM_END) eqn:Er.
  - apply zret_eqb_eq in Er. subst res'.
    apply (inflate_chunk_done _ _ _ _ _ _ Hd').
    destruct (draining_end _ _ _ _ _ Hd') as [E1 _].
    destruct Hd' as (_ & _ & _ & Hin & _). rewrite Hin, E1. reflexivity.
  - assert (res' <> Z_STREAM_END)
      by (intros ->; cbn in Er; discriminate).
    specialize (Hnu H).
    apply (IH out hp w' fed' res' z'); [lia | exact Hd'].
Qed.

Lemma readF_end w buf buflen :
  Bench.to_read (AH w) = [] ->
  call_readF feed buf buflen w
  = (Ret (0, buf, buflen),
     mk_world (AH w) (heap w) (next_ptr w) (mem_budget w)
       (trace w ++ [Ev_readF 0 (snd buf)])).
Proof.
  intros E. unfold call_readF, with_memory, bind, log, ret, feed.
  rewrite E. reflexivity.
Qed.

Lemma readF_chunk w buf buflen ch rest :
  Bench.to_read (AH w) = ch :: rest ->
  call_readF feed buf buflen w
  = (Ret (N.of_nat (length ch), (fst buf, ch),
          N.max buflen (N.of_nat (length ch))),
     mk_world (archiver := Bench.recorder)
       (Bench.mk_Handle (Bench.written (AH w)) rest (Bench.sink (AH w)))
       (heap w) (next_ptr w) (mem_budget w)
       (trace w ++ [Ev_readF (N.of_nat (length ch)) ch])).
Proof.
  intros E. unfold call_readF, with_memory, bind, log, ret, feed.
  rewrite E. reflexivity.
Qed.

Lemma draining_set_in out hp w fed res z :
  draining inflating c s out hp w fed res z -> next_in z = [] ->
  draining inflating c s out hp w fed res (set_in z [] 0).
Proof.
  intros (Hh & Hb & Hi & Hin & Hc & Hne & He) E.
  unfold draining, set_in. cbn [next_in avail_in state length].
  rewrite E in Hc. auto 10.
Qed.

(** The outer loop takes every chunk. *)
Lemma inflate_chunks_drain : forall chunks out hp w fed res z buf buflen,
  Bench.to_read (AH w) = chunks ->
  Forall fits_uInt chunks ->
  draining inflating c s out hp w fed res (set_in z [] 0) ->
  settles (fun f => inflate_chunks f feed out buf buflen res z) w
    (fun r w' =>
       exists fed',
         draining inflating c s out hp w' fed' (fst (snd r))
           (set_in (snd (snd r)) [] 0)
         /\ Bench.to_read (AH w') = [] /\ fst r = fst buf).
Proof.
  induction chunks as [ | ch rest IH];
    intros out hp w fed res z buf buflen Ew Hfit Hd.
  - apply settles_step
      with (G := fun _ => ret (fst buf, (res, z)))
           (w1 := mk_world (AH w) (heap w) (next_ptr w) (mem_budget w)
                    (trace w ++ [Ev_readF 0 (snd buf)])).
    { intros f. cbn [inflate_chunks].
      rewrite (bind_eq _ _ _ _ _ (readF_end w buf buflen Ew)). reflexivity. }
    apply settles_ret. exists fed. cbn [fst snd AH].
    split; [exact Hd | split; [exact Ew | reflexivity]].
  - destruct Hd as (Hh & Hb & Hi & Hin & Hc & Hne & He).
    cbn [set_in next_in avail_in state] in *.
    rewrite Ew in Hc, Hne. subst hp.
    apply Forall_cons_iff in Hne. destruct Hne as [Hch Hrest].
    apply Forall_cons_iff in Hfit. destruct Hfit as [Hfch Hfit].
    assert (Ecnt : negb (N.of_nat (length ch) =? 0) = true).
    { destruct ch; [contradiction | reflexivity]. }
    apply settles_step
      with (G := fun f =>
              bind (inflate_chunk f out res
                      (set_in z ch (N.of_nat (length ch))))
                (fun r => inflate_chunks f feed out (fst buf, ch)
                            (N.max buflen (N.of_nat (length ch)))
                            (fst r) (snd r)))
           (w1 := mk_world (archiver := Bench.recorder)
                    (Bench.mk_Handle (Bench.written (AH w)) rest
                       (Bench.sink (AH w)))
                    (heap w) (next_ptr w) (mem_budget w)
                    (trace w ++ [Ev_readF (N.of_nat (length ch)) ch])).
    { intros f. cbn [inflate_chunks].
      rewrite (bind_eq _ _ _ _ _ (readF_chunk w buf buflen ch rest Ew)).
      rewrite Ecnt. cbn [fst snd]. rewrite (to_uInt_fits _ Hfch).
      reflexivity. }
    apply settles_bind
      with (F := fun f => inflate_chunk f out res
                            (set_in z ch (N.of_nat (length ch))))
           (G := fun f r => inflate_chunks f feed out (fst buf, ch)
                              (N.max buflen (N.of_nat (length ch)))
                              (fst r) (snd r)).
    eapply settles_weaken.
    2:{ apply (inflate_chunk_drains
                 (S (nu (set_in z ch (N.of_nat (length ch)))))
                 out (heap w) _ fed res _ (Nat.lt_succ_diag_r _)).
        unfold draining, block_size, set_in.
        cbn [heap AH next_in avail_in state Bench.sink Bench.to_read].
        split; [reflexivity | ]. split; [exact Hb | ]. split; [exact Hi | ].
        split; [reflexivity | ]. split; [exact Hc | ].
        split; [exact Hrest | exact He]. }
    intros r w2 (fed2 & Hd2 & En2 & Er2). cbn [AH Bench.to_read] in Er2.
    apply (IH out (heap w) w2 fed2 (fst r) (snd r) (fst buf, ch) _ Er2 Hfit).
    apply draining_set_in; assumption.
Qed.

Lemma inflate_drain_done out hp w fed z :
  draining inflating c s out hp w fed Z_STREAM_END z ->
  settles (fun f => inflate_drain f out Z_STREAM_END z) w
    (fun r w' =>
       fst r = Z_STREAM_END
       /\ exists fed', draining inflating c s out hp w' fed' Z_STREAM_END (snd r)).
Proof.
  intros Hd.
  apply settles_ext with (G := fun _ => ret (Z_STREAM_END, z)).
  { intros f. destruct f; reflexivity. }
  apply settles_ret. split; [reflexivity | exists fed; exact Hd].
Qed.

(** The last loop runs to the end of the stream. *)
Lemma inflate_drain_drains : forall n out hp w fed res z,
  (nu z < n)%nat ->
  draining inflating c s out hp w fed res z ->
  next_in z = [] -> Bench.to_read (AH w) = [] ->
  settles (fun f => inflate_drain f out res z) w
    (fun r w' =>
       fst r = Z_STREAM_END
       /\ exists fed', draining inflating c s out hp w' fed' Z_STREAM_END (snd r)).
Proof.
  induction n as [ | n IH]; intros out hp w fed res z Hn Hd Ez Ew; [lia | ].
  destruct (zret_eqb res Z_STREAM_END) eqn:Er.
  { apply zret_eqb_eq in Er. subst res. apply (inflate_drain_done _ _ _ _ _ Hd). }
  assert (Hfed : fed = c).
  { destruct Hd as (_ & _ & _ & _ & Hc & _). rewrite Ez, Ew in Hc.
    cbn in Hc. rewrite app_nil_r in Hc. congruence. }
  destruct (inflate_to_ahwrite_drains _ _ _ _ _ _ Hd (or_intror Hfed))
    as (res' & z' & w' & fed' & Es & Hd' & Hr & Hz & Hnu).
  apply settles_step
    with (G := fun f => inflate_drain f out res' z') (w1 := w').
  { intros f. cbn [inflate_drain]. rewrite Er. cbn [negb].
    rewrite (bind_eq _ _ _ _ _ Es). reflexivity. }
  destruct (zret_eqb res' Z_STREAM_END) eqn:Er'.
  - apply zret_eqb_eq in Er'. subst res'.
    apply (inflate_drain_done _ _ _ _ _ Hd').
  - assert (res' <> Z_STREAM_END)
      by (intros ->; cbn in Er'; discriminate).
    specialize (Hnu H).
    apply (IH out hp w' fed' res' z'); [lia | exact Hd' | auto | congruence].
Qed.

Lemma frees_three p1 p2 p3 w :
  live w p1 = true -> live w p2 = true -> live w p3 = true ->
  p1 <> p2 -> p1 <> p3 -> p2 <> p3 ->
  exists w',
    (free p2 ;;; free p3 ;;; free p1) w = (Ret tt, w') /\ AH w' = AH w.
Proof.
  intros L1 L2 L3 N12 N13 N23.
  eexists. split.
  - rewrite (bind_eq _ _ _ _ _ (free_live _ _ L2)).
    assert (L3' : live (mk_world (AH w) (heap_remove (heap w) p2) (next_ptr w)
                          (mem_budget w) (trace w)) p3 = true)
      by (rewrite live_after_free by auto; exact L3).
    rewrite (bind_eq _ _ _ _ _ (free_live _ _ L3')).
    cbn [heap AH next_ptr mem_budget trace].
    apply free_live. unfold live, block_size. cbn [heap].
    rewrite !heap_size_remove_other by auto. exact L1.
  - reflexivity.
Qed.

(** [ReadDataFromArchiveZlib], fed the chunks of the stream [c] of [s],
    hands [s] to [ahwrite]. *)
Lemma ReadZlib_delivers w b :
  mem_budget w = S (S (S b)) ->
  concat (Bench.to_read (AH w)) = c ->
  no_empty_chunk (Bench.to_read (AH w)) ->
  Forall fits_uInt (Bench.to_read (AH w)) ->
  Bench.sink (AH w) = [] ->
  settles (fun f => ReadDataFromArchiveZlib f feed) w
    (fun _ w' => Bench.sink (AH w') = s).
Proof.
  intros Hb Hc Hne Hfit Hs.
  destruct (inflate_starts _ _ _ _ _ codec_lossless) as [Hok Hi].
  destruct w as [ah h np mb tr]. cbn [mem_budget AH] in Hb, Hc, Hne, Hfit, Hs.
  subst mb.
  destruct (inflateInit (mk_z_stream [] 0 [] 0 None)) as [r0 z0] eqn:Einit.
  cbn [fst snd] in Hok, Hi. subst r0.
  set (p1 := N.succ np). set (p2 := N.succ p1). set (p3 := N.succ p2).
  set (hp := (p3, ZLIB_OUT_SIZE + 1) :: (p2, ZLIB_IN_SIZE)
               :: (p1, sizeof_z_stream) :: h).
  assert (E12 : (p2 =? p1) = false) by (apply N.eqb_neq; unfold p2; lia).
  assert (E13 : (p3 =? p1) = false) by (apply N.eqb_neq; unfold p3, p2; lia).
  assert (E23 : (p3 =? p2) = false) by (apply N.eqb_neq; unfold p3; lia).
  apply settles_move
    with (G := fun f =>
            bind (inflate_chunks f feed p3 (@pair ptr _ p2 []) ZLIB_IN_SIZE Z_OK z0)
              (fun r : ptr * (zret * z_stream) =>
                 let (buf, r) return M unit := r in
                 r <- inflate_drain f p3 (fst r) (set_in (snd r) [] 0) ;;
                 (if negb (zret_eqb (fst (inflateEnd (snd r))) Z_OK)
                  then die_horribly CouldNotCloseLibrary else ret tt) ;;;
                 free buf ;;; free p3 ;;; free p1))
         (w1 := mk_world (archiver := Bench.recorder) ah hp p3 b tr).
  { intros f. unfold ReadDataFromArchiveZlib.
    rewrite (bind_eq _ _ _ _ _ (malloc_some _ _ _ _ _ _)).
    rewrite succ_not_NULL. unfold bind at 1, ret at 1.
    rewrite (bind_eq _ _ _ _ _ (malloc_some _ _ _ _ _ _)).
    rewrite succ_not_NULL. unfold bind at 1, ret at 1.
    rewrite (bind_eq _ _ _ _ _ (malloc_some _ _ _ _ _ _)).
    rewrite succ_not_NULL. unfold bind at 1, ret at 1.
    unfold z_stream_fresh. rewrite Einit. cbn [zret_eqb negb].
    unfold bind at 1, ret at 1. reflexivity. }
  apply settles_bind
    with (F := fun f => inflate_chunks f feed p3 (@pair ptr _ p2 []) ZLIB_IN_SIZE Z_OK z0)
         (G := fun f (r : ptr * (zret * z_stream)) =>
                 let (buf, r) return M unit := r in
                 r <- inflate_drain f p3 (fst r) (set_in (snd r) [] 0) ;;
                 (if negb (zret_eqb (fst (inflateEnd (snd r))) Z_OK)
                  then die_horribly CouldNotCloseLibrary else ret tt) ;;;
                 free buf ;;; free p3 ;;; free p1).
  eapply settles_weaken.
  2:{ apply (inflate_chunks_drain (Bench.to_read ah) p3 hp
               (mk_world (archiver := Bench.recorder) ah hp p3 b tr)
               [] Z_OK z0 (@pair ptr _ p2 []) ZLIB_IN_SIZE eq_refl Hfit).
      unfold draining, block_size, set_in.
      cbn [heap AH next_in avail_in state length].
      split; [reflexivity | ].
      split.
      { unfold p3 at 1. rewrite succ_not_NULL. unfold hp.
        cbn [heap_size]. rewrite N.eqb_refl. reflexivity. }
      rewrite Hs. split; [exact Hi | ]. split; [reflexivity | ].
      split; [symmetry; exact Hc | ]. split; [exact Hne | discriminate]. }
  intros [bp r1] w4 (fed1 & Hd1 & Er1 & Ebp).
  cbn [fst snd] in Hd1, Ebp. subst bp.
  apply settles_bind
    with (F := fun f => inflate_drain f p3 (fst r1) (set_in (snd r1) [] 0))
         (G := fun (_ : nat) r =>
                 (if negb (zret_eqb (fst (inflateEnd (snd r))) Z_OK)
                  then die_horribly CouldNotCloseLibrary else ret tt) ;;;
                 free p2 ;;; free p3 ;;; free p1).
  eapply settles_weaken.
  2:{ apply (inflate_drain_drains (S (nu (set_in (snd r1) [] 0)))
               p3 hp w4 fed1 (fst r1) _ (Nat.lt_succ_diag_r _) Hd1 eq_refl Er1). }
  intros r2 w5 (_ & fed2 & Hd2).
  destruct Hd2 as (Hh & _ & _ & _ & _ & _ & He).
  destruct (He eq_refl) as (_ & Hsink & Hend).
  assert (Hclose : fst (inflateEnd (snd r2)) = Z_OK)
    by exact (Hend (snd r2) eq_refl).
  destruct (frees_three p1 p2 p3 w5) as (w6 & Ef & Eah).
  - unfold live, block_size. rewrite Hh. unfold p1 at 1.
    rewrite succ_not_NULL. unfold hp. cbn [heap_size].
    rewrite E13, E12, N.eqb_refl. reflexivity.
  - unfold live, block_size. rewrite Hh. unfold p2 at 1.
    rewrite succ_not_NULL. unfold hp. cbn [heap_size].
    rewrite E23, N.eqb_refl. reflexivity.
  - unfold live, block_size. rewrite Hh. unfold p3 at 1.
    rewrite succ_not_NULL. unfold hp. cbn [heap_size].
    rewrite N.eqb_refl. reflexivity.
  - intros E. rewrite E, N.eqb_refl in E12. discriminate.
  - intros E. rewrite E, N.eqb_refl in E13. discriminate.
  - intros E. rewrite E, N.eqb_refl in E23. discriminate.
  - apply settles_const with (a := tt) (w' := w6).
    + cbv beta. unfold z_stream in Hclose. rewrite Hclose.
      cbn [zret_eqb negb].
      unfold bind at 1, ret at 1. exact Ef.
    + rewrite Eah. exact Hsink.
Qed.

End ReadRoundTrip.

(** *** The round trip *)

Lemma chunks_up_to_fit n chunks :
  n < 2 ^ 32 -> chunks_up_to n chunks ->
  no_empty_chunk chunks /\ Forall fits_uInt chunks.
Proof.
  intros Hn H. split; (eapply Forall_impl; [ | exact H]);
    intros c [Hc Hl]; [exact Hc | unfold fits_uInt; lia].
Qed.

Section RoundTrip.

Context {zlib : Zlib} {build : Build}.
#[local] Existing Instance Bench.recorder.

Variable encodes : list byte -> list byte -> Prop.
Variable deflating :
  option internal_state -> bool -> list byte -> list byte -> Prop.
Variable inflating : option internal_state -> list byte -> list byte -> Prop.
Variables mu nu : z_stream -> nat.

(** X1.  With a codec that loses nothing, a hint from 1 to 9 and
    enough fuel, what the reader hands to [ahwrite] is what the session
    wrote: the writes put end to end, byte for byte, however the data
    was cut into writes (empty writes included), as long as the length
    of every write is a [uInt]. *)
Theorem deflate_round_trip_lossless compression datas :
  Lossless encodes deflating inflating mu nu ->
  HAVE_LIBZ = true ->
  0 < ZLIB_OUT_SIZE < 2 ^ 32 ->
  (1 <= compression <= 9)%Z ->
  Forall fits_uInt datas ->
  exists f0, forall f, (f0 <= f)%nat ->
    round_trip f compression datas = Some (concat datas).
Proof.
  intros HL Hz [Hpos Hfit] Hc Hd.
  destruct (WriteSession_collects encodes deflating inflating mu nu HL Hz Hpos
              compression datas (start (Bench.mk_Handle [] [] []) 8) 5
              Hc eq_refl eq_refl Hd)
    as (u & w1 & (Henc & Hup) & f1 & Hw).
  destruct (chunks_up_to_fit _ _ Hfit Hup) as [Hne Hcf].
  destruct (ReadZlib_delivers encodes deflating inflating mu nu HL Hpos Hfit
              (concat (Bench.written (AH w1))) (concat datas) Henc
              (start (Bench.mk_Handle [] (Bench.written (AH w1)) []) 8) 5
              eq_refl eq_refl Hne Hcf eq_refl)
    as (u' & w2 & Hsink & f2 & Hr).
  exists (Nat.max f1 f2). intros f Hf.
  unfold round_trip. rewrite Hw by lia.
  unfold ReadDataFromArchive.
  rewrite (bind_eq _ _ _ _ _
             (Parse_Deflate compression false _ (or_intror Hc))).
  cbn [fst snd is_NONE is_LIBZ]. rewrite Hz.
  unfold bind at 1, ret at 1.
  rewrite Hr by lia. rewrite Hsink. reflexivity.
Qed.

End RoundTrip.

(** *** The round trip without compression *)

Section PlainRoundTrip.

Context {zlib : Zlib} {build : Build}.
#[local] Existing Instance Bench.recorder.

Hypothesis zero_is_plain : ~ selects_Deflate 0.

Lemma WriteNone_collects cs data w :
  writeF cs = collect ->
  WriteDataToArchiveNone cs data (N.of_nat (length data)) w
  = (Ret (N.of_nat (length data), cs),
     mk_world (archiver := Bench.recorder)
       (Bench.mk_Handle (Bench.written (AH w) ++ [data])
          (Bench.to_read (AH w)) (Bench.sink (AH w)))
       (heap w) (next_ptr w) (mem_budget w)
       (trace w ++ [Ev_writeF data (N.of_nat (length data))
                      (N.of_nat (length data))])).
Proof.
  intros HwF.
  unfold WriteDataToArchiveNone, call_writeF, with_AH, bind, log, ret.
  rewrite HwF. unfold collect. cbv beta iota.
  rewrite N.eqb_refl, Nat2N.id, firstn_all. reflexivity.
Qed.

Lemma write_all_plain f : forall datas cs w,
  comprAlg cs = COMPR_ALG_NONE -> writeF cs = collect ->
  exists w',
    write_all f cs datas w = (Ret cs, w')
    /\ Bench.written (AH w') = Bench.written (AH w) ++ datas
    /\ heap w' = heap w.
Proof.
  induction datas as [ | d datas IH]; intros cs w Ha HwF.
  - exists w. rewrite app_nil_r. auto.
  - cbn [write_all]. unfold WriteDataToArchive. rewrite Ha.
    rewrite (bind_eq _ _ _ _ _ (WriteNone_collects cs d w HwF)).
    cbn [snd].
    destruct (IH cs
                (mk_world (archiver := Bench.recorder)
                   (Bench.mk_Handle (Bench.written (AH w) ++ [d])
                      (Bench.to_read (AH w)) (Bench.sink (AH w)))
                   (heap w) (next_ptr w) (mem_budget w)
                   (trace w ++ [Ev_writeF d (N.of_nat (length d))
                                  (N.of_nat (length d))]))
                Ha HwF) as (w' & E & Hw & Hh).
    exists w'. split; [exact E | ].
    cbn [AH heap Bench.written] in Hw, Hh.
    rewrite <- app_assoc in Hw. auto.
Qed.

(** Without compression the chunks are the writes. *)
Lemma WriteSession_plain f datas :
  exists w',
    WriteSession f 0 collect datas (start (Bench.mk_Handle [] [] []) 8)
    = (Ret tt, w')
    /\ Bench.written (AH w') = datas.
Proof.
  assert (Ea : AllocateCompressor 0 collect
                 (start (Bench.mk_Handle [] [] []) 8)
               = (Ret (mk_CompressorState (N.succ 0) collect COMPR_ALG_NONE
                         None NULL 0),
                  mk_world (archiver := Bench.recorder)
                    (Bench.mk_Handle [] [] [])
                    [(N.succ 0, sizeof_CompressorState)] (N.succ 0) 7 [])).
  { unfold AllocateCompressor.
    rewrite (bind_eq _ _ _ _ _ (Parse_None true _ zero_is_plain)).
    cbn [fst snd is_LIBZ]. rewrite !andb_false_r.
    unfold bind at 1, ret at 1. unfold start.
    rewrite (bind_eq _ _ _ _ _ (malloc_some _ _ _ _ _ _)).
    rewrite succ_not_NULL. reflexivity. }
  unfold WriteSession. rewrite (bind_eq _ _ _ _ _ Ea).
  destruct (write_all_plain f datas
              (mk_CompressorState (N.succ 0) collect COMPR_ALG_NONE None NULL 0)
              (mk_world (archiver := Bench.recorder)
                 (Bench.mk_Handle [] [] [])
                 [(N.succ 0, sizeof_CompressorState)] (N.succ 0) 7 [])
              eq_refl eq_refl) as (w1 & E & Hw & Hh).
  rewrite (bind_eq _ _ _ _ _ E).
  unfold EndCompressor. cbn [comprAlg is_LIBZ addr]. rewrite andb_false_r.
  unfold bind at 1, ret at 1.
  cbn [AH heap Bench.written app] in Hw, Hh.
  eexists. split.
  - apply free_live. unfold live, block_size. rewrite Hh.
    rewrite succ_not_NULL. cbn [heap_size]. rewrite N.eqb_refl. reflexivity.
  - exact Hw.
Qed.

(** The reader stops at the first empty chunk. *)
Lemma copy_chunks_plain : forall chunks f buf buflen w,
  Bench.to_read (AH w) = chunks ->
  (length chunks < f)%nat ->
  exists w',
    copy_chunks f feed buf buflen w = (Ret (fst buf), w')
    /\ Bench.sink (AH w') = Bench.sink (AH w) ++ concat (before_empty chunks)
    /\ heap w' = heap w.
Proof.
  induction chunks as [ | ch rest IH]; intros f buf buflen w Ew Hf;
    (destruct f as [ | f]; [cbn [length] in Hf; lia | ]); cbn [copy_chunks].
  - rewrite (bind_eq _ _ _ _ _ (readF_end w buf buflen Ew)).
    cbn [N.eqb negb]. eexists. split; [reflexivity | ].
    cbn [AH heap before_empty concat]. rewrite app_nil_r. auto.
  - rewrite (bind_eq _ _ _ _ _ (readF_chunk w buf buflen ch rest Ew)).
    destruct ch as [ | b ch].
    + cbn [length N.of_nat N.eqb negb]. eexists. split; [reflexivity | ].
      cbn [AH heap before_empty concat Bench.sink]. rewrite app_nil_r. auto.
    + assert (Ecnt : negb (N.of_nat (length (b :: ch)) =? 0) = true)
        by reflexivity.
      rewrite Ecnt.
      unfold call_ahwrite, with_AH, log.
      unfold bind at 1. unfold bind at 1.
      cbn [AH heap next_ptr mem_budget trace ahwrite Bench.recorder
           Bench.written Bench.to_read Bench.sink].
      rewrite N.mul_1_l, Nat2N.id, firstn_all.
      match goal with
      | |- context [copy_chunks f feed ?bf ?bl ?w1] =>
          destruct (IH f bf bl w1 eq_refl ltac:(cbn [length] in Hf; lia))
            as (w' & E & Hs & Hh)
      end.
      exists w'. split; [exact E | ].
      cbn [AH heap Bench.sink] in Hs, Hh.
      cbn [before_empty concat]. rewrite Hs, <- app_assoc. auto.
Qed.

(** Without compression the round trip hands back the writes that
    come before the first empty one: all of them when none is empty. *)
Theorem plain_round_trip f datas :
  (length datas < f)%nat ->
  round_trip f 0 datas = Some (concat (before_empty datas)).
Proof.
  intros Hf. unfold round_trip.
  destruct (WriteSession_plain f datas) as (w1 & Ew & Hw).
  rewrite Ew, Hw.
  assert (Er : exists w3,
             ReadDataFromArchiveNone f feed
               (start (Bench.mk_Handle [] datas []) 8) = (Ret tt, w3)
             /\ Bench.sink (AH w3) = concat (before_empty datas)).
  { unfold ReadDataFromArchiveNone, start.
    rewrite (bind_eq _ _ _ _ _ (malloc_some _ _ _ _ _ _)).
    rewrite succ_not_NULL. unfold bind at 1, ret at 1.
    destruct (copy_chunks_plain datas f (@pair ptr _ (N.succ 0) [])
                ZLIB_OUT_SIZE
                (mk_world (archiver := Bench.recorder)
                   (Bench.mk_Handle [] datas [])
                   [(N.succ 0, ZLIB_OUT_SIZE)] (N.succ 0) 7 [])
                eq_refl Hf) as (w2 & Ec & Hs & Hh).
    rewrite (bind_eq _ _ _ _ _ Ec). cbn [fst].
    cbn [AH heap Bench.sink app] in Hs, Hh.
    eexists. split.
    - apply free_live. unfold live, block_size. rewrite Hh.
      rewrite succ_not_NULL. cbn [heap_size]. rewrite N.eqb_refl. reflexivity.
    - exact Hs. }
  destruct Er as (w3 & Er & Hs).
  unfold ReadDataFromArchive.
  rewrite (bind_eq _ _ _ _ _ (Parse_None false _ zero_is_plain)).
  cbn [fst snd is_NONE is_LIBZ].
  rewrite (bind_eq _ _ _ _ _ Er). unfold ret. rewrite Hs. reflexivity.
Qed.

Lemma before_empty_all datas :
  Forall (fun d => d <> []) datas -> before_empty datas = datas.
Proof.
  induction 1 as [ | d datas Hd _ IH]; [reflexivity | ].
  cbn [before_empty]. destruct d; [contradiction | ]. rewrite IH. reflexivity.
Qed.

(** X4.  Without compression, a session none of whose writes is
    empty is read back whole: with hint 0 and more fuel than there are
    writes, what the reader hands to [ahwrite] is the writes put end to
    end. *)
Theorem plain_round_trip_nonempty f datas :
  Forall (fun d => d <> []) datas ->
  (length datas < f)%nat ->
  round_trip f 0 datas = Some (concat datas).
Proof.
  intros Hne Hf. rewrite plain_round_trip by exact Hf.
  rewrite before_empty_all by exact Hne. reflexivity.
Qed.

End PlainRoundTrip.

(** *** The round trip of the bench codec *)

Section BenchRoundTrip.

(** The bench codec is one such codec: with it every Deflate hint
    from 1 to 9 reads back what was written, empty writes included,
    when the length of every write is a [uInt]. *)
Theorem bench_round_trip out_size compression datas :
  0 < out_size < 2 ^ 32 ->
  (1 <= compression <= 9)%Z ->
  Forall fits_uInt datas ->
  exists f0, forall f, (f0 <= f)%nat ->
    round_trip (zlib := Bench.codec) (build := Bench.a_build true out_size)
      f compression datas
    = Some (concat datas).
Proof.
  intros [Hpos Hfit] Hc Hd.
  destruct (WriteSession_collects (zlib := Bench.codec)
              (build := Bench.a_build true out_size)
              BenchSpec.encodes BenchSpec.deflating BenchSpec.inflating
              BenchSpec.mu BenchSpec.nu bench_lossless eq_refl Hpos
              compression datas (start (Bench.mk_Handle [] [] []) 8) 5
              Hc eq_refl eq_refl Hd)
    as (u & w1 & (Henc & Hup) & f1 & Hw).
  destruct (chunks_up_to_fit (ZLIB_OUT_SIZE (Build := Bench.a_build true out_size))
              _ Hfit Hup) as [Hne Hcf].
  destruct (ReadZlib_delivers (zlib := Bench.codec)
              (build := Bench.a_build true out_size)
              BenchSpec.encodes BenchSpec.deflating BenchSpec.inflating
              BenchSpec.mu BenchSpec.nu bench_lossless Hpos Hfit
              (concat (Bench.written (AH w1))) (concat datas) Henc
              (start (Bench.mk_Handle [] (Bench.written (AH w1)) []) 8) 5
              eq_refl eq_refl Hne Hcf eq_refl)
    as (u' & w2 & Hsink & f2 & Hr).
  exists (Nat.max f1 f2). intros f Hf.
  unfold round_trip. rewrite Hw by lia.
  unfold ReadDataFromArchive.
  rewrite (bind_eq _ _ _ _ _
             (Parse_Deflate compression false _ (or_intror Hc))).
  cbn [fst snd is_NONE is_LIBZ HAVE_LIBZ Bench.a_build].
  unfold bind at 1, ret at 1.
  rewrite Hr by lia. rewrite Hsink. reflexivity.
Qed.

End BenchRoundTrip.

(** ** Edges of the write session *)

Section WriteEdges.

Context {zlib : Zlib} {build : Build} {archiver : Archiver}.

(** X5.  A write of no bytes on a Deflate context is no call at all:
    [WriteDataToArchive] points the stream at the data and returns 0
    in the state it was called in, whatever the fuel: the codec is not
    asked, [writeF] is not called, nothing is logged. *)
Theorem empty_write_leaves_Deflate_alone (fuel : nat) (cs : CompressorState)
  (a : ptr) (z : z_stream) (data : list byte) (w : world) :
  HAVE_LIBZ = true ->
  comprAlg cs = COMPR_ALG_LIBZ ->
  zp cs = Some (a, z) ->
  WriteDataToArchive fuel cs data 0 w
  = (Ret (0, set_zp cs (set_in z data 0)), w).
Proof.
  intros HL Ha Hzp. unfold WriteDataToArchive. rewrite Ha, HL.
  unfold WriteDataToArchiveZlib, deref_zp. rewrite Hzp.
  unfold bind at 1, ret at 1.
  assert (Hzp' : zp (set_zp cs (set_in z data 0)) = Some (a, set_in z data 0)).
  { unfold set_zp. cbn [zp]. rewrite Hzp. reflexivity. }
  rewrite (bind_eq _ _ _ _ _
             (Deflate_no_input fuel _ a _ w Hzp' eq_refl)).
  reflexivity.
Qed.

Lemma within_body cs flush :
  preserves (emits (chunk_within (zlibOutSize cs)))
    (DeflateCompressorZlib_body cs flush).
Proof.
  unfold DeflateCompressorZlib_body. pres.
  - apply emits_call_deflate. intros r. exact I.
  - apply emits_call_writeF. intros n. cbn [chunk_within]. lia.
Qed.

Lemma same_context_zlibOutSize cs cs' :
  same_context cs cs' -> zlibOutSize cs' = zlibOutSize cs.
Proof. intros [z ->]. reflexivity. Qed.

Lemma within_Deflate n fuel : forall cs flush,
  zlibOutSize cs = n ->
  preserves (emits (chunk_within n)) (DeflateCompressorZlib fuel cs flush).
Proof.
  induction fuel as [ | fuel IH]; intros cs flush E; simpl; [pres | ].
  apply preserves_bind;
    [apply emits_trans | apply preserves_deref_zp; apply emits_refl | intro z].
  destruct (negb (avail_in z =? 0) || flush); [ | pres].
  apply preserves_bind_post
    with (Q := fun r : CompressorState * bool => zlibOutSize (fst r) = n).
  - apply emits_trans.
  - intros w [cs' stop] w' H. apply body_Ret in H.
    cbn [fst]. rewrite (same_context_zlibOutSize _ _ H). exact E.
  - rewrite <- E. apply within_body.
  - intros [cs' stop] Hq. cbn [fst] in Hq.
    destruct stop; [pres | apply IH; exact Hq].
Qed.

Lemma within_Write fuel cs data dLen :
  comprAlg cs = COMPR_ALG_LIBZ ->
  preserves (emits (chunk_within (zlibOutSize cs)))
    (WriteDataToArchive fuel cs data dLen).
Proof.
  intros E. unfold WriteDataToArchive. rewrite E.
  unfold WriteDataToArchiveZlib. pres. apply within_Deflate. reflexivity.
Qed.

Lemma within_End fuel cs :
  preserves (emits (chunk_within (zlibOutSize cs))) (EndCompressor fuel cs).
Proof.
  unfold EndCompressor, EndCompressorZlib. pres;
    apply within_Deflate; reflexivity.
Qed.

Lemma Write_size fuel cs data dLen w k cs' w' :
  WriteDataToArchive fuel cs data dLen w = (Ret (k, cs'), w') ->
  zlibOutSize cs' = zlibOutSize cs.
Proof.
  unfold WriteDataToArchive. intros H.
  destruct (comprAlg cs).
  - unfold WriteDataToArchiveNone in H.
    bind_inv H. bind_inv H. ret_inv H. reflexivity.
  - destruct HAVE_LIBZ; [ | ret_inv H].
    unfold WriteDataToArchiveZlib in H. bind_inv H. bind_inv H. ret_inv H.
    apply Deflate_Ret in E0.
    rewrite (same_context_zlibOutSize _ _ E0). reflexivity.
  - ret_inv H. reflexivity.
Qed.

Lemma write_all_size fuel : forall datas cs w cs' w',
  write_all fuel cs datas w = (Ret cs', w') ->
  zlibOutSize cs' = zlibOutSize cs.
Proof.
  induction datas as [ | d datas IH]; intros cs w cs' w' H; cbn [write_all] in H.
  - ret_inv H. reflexivity.
  - bind_inv H. destruct a as [k cs1]. apply Write_size in E.
    apply IH in H. cbn [snd] in H. congruence.
Qed.

Lemma within_write_all n fuel : forall datas cs,
  comprAlg cs = COMPR_ALG_LIBZ -> zlibOutSize cs = n ->
  preserves (emits (chunk_within n)) (write_all fuel cs datas).
Proof.
  induction datas as [ | d datas IH]; intros cs Ha En; cbn [write_all];
    [pres | ].
  apply preserves_bind_post
    with (Q := fun r : N * CompressorState =>
                 comprAlg (snd r) = COMPR_ALG_LIBZ /\ zlibOutSize (snd r) = n).
  - apply emits_trans.
  - intros w [k cs'] w' H. cbn [snd].
    pose proof (Write_Ret _ _ _ _ _ _ _ _ H) as [Hc _].
    pose proof (Write_size _ _ _ _ _ _ _ _ H) as Hs.
    split; congruence.
  - rewrite <- En. apply within_Write. exact Ha.
  - intros [k cs'] [Hc Hn]. apply IH; assumption.
Qed.

Lemma Init_size cs level w cs' w' :
  InitCompressorZlib cs level w = (Ret cs', w') ->
  zlibOutSize cs' = ZLIB_OUT_SIZE.
Proof.
  unfold InitCompressorZlib. intros H.
  bind_inv H. bind_inv H. bind_inv H. bind_inv H.
  destruct (deflateInit z_stream_fresh level) as [r z].
  bind_inv H. ret_inv H. reflexivity.
Qed.

(** X6.  No chunk is larger than the output buffer: every [writeF]
    call that [WriteDataToArchive] or [EndCompressor] makes on a
    Deflate context has a length of at most [zlibOutSize], whatever the
    codec does; in a whole session opened with a hint that selects
    Deflate that is [ZLIB_OUT_SIZE]. *)
Theorem deflate_chunks_fit_the_buffer (fuel : nat) (cs : CompressorState)
  (data : list byte) (dLen : N) (compression : Z) (wF : WriteFunc)
  (datas : list (list byte)) (w : world) :
  comprAlg cs = COMPR_ALG_LIBZ ->
  selects_Deflate compression ->
  emits (chunk_within (zlibOutSize cs)) w
    (snd (WriteDataToArchive fuel cs data dLen w))
  /\ emits (chunk_within (zlibOutSize cs)) w (snd (EndCompressor fuel cs w))
  /\ emits (chunk_within ZLIB_OUT_SIZE) w
       (snd (WriteSession fuel compression wF datas w)).
Proof.
  intros E D. split; [ | split].
  - apply within_Write. exact E.
  - apply within_End.
  - revert w. change (preserves (emits (chunk_within ZLIB_OUT_SIZE))
                        (WriteSession fuel compression wF datas)).
    unfold WriteSession.
    apply preserves_bind_post
      with (Q := fun c => comprAlg c = COMPR_ALG_LIBZ
                          /\ zlibOutSize c = ZLIB_OUT_SIZE).
    + apply emits_trans.
    + intros w a w' H.
      pose proof (Allocate_Ret _ _ _ _ _ H) as (_ & [(Hc & _) | (_ & _ & Hn)]);
        [ | contradiction].
      split; [exact Hc | ].
      unfold AllocateCompressor in H.
      bind_inv H. destruct a0 as [alg l]. apply Parse_Ret in E0.
      destruct E0 as (-> & [(-> & _) | (-> & _)]); cbn [fst snd] in H.
      * bind_inv H. bind_inv H. bind_inv H.
        destruct HAVE_LIBZ; cbn [andb negb is_LIBZ] in *; [ | ret_inv E0].
        apply Init_size in H. exact H.
      * cbn in Hc. bind_inv H. bind_inv H. bind_inv H.
        rewrite andb_false_r in H. ret_inv H. discriminate Hc.
    + apply emits_Allocate.
    + intros c [Hc Hn].
      apply preserves_bind_post
        with (Q := fun c' => zlibOutSize c' = ZLIB_OUT_SIZE).
      * apply emits_trans.
      * intros w0 c' w' H. apply write_all_size in H. congruence.
      * apply within_write_all; assumption.
      * intros c' Hn'. rewrite <- Hn'. apply within_End.
Qed.

End WriteEdges.

(** ** Failures while a session or a reader is set up *)

Section Mallocs.

Context {zlib : Zlib} {build : Build} {archiver : Archiver}.

Lemma malloc_none size ah h np tr :
  malloc size (mk_world ah h np 0 tr) = (Ret NULL, mk_world ah h np 0 tr).
Proof. reflexivity. Qed.

Lemma malloc_gives size ah h np b tr :
  malloc size (mk_world ah h np (S b) tr)
  = (Ret (N.succ np), mk_world ah ((N.succ np, size) :: h) (N.succ np) b tr).
Proof. reflexivity. Qed.

Lemma zret_eqb_neq a b : a <> b -> zret_eqb a b = false.
Proof. intros H. destruct a, b; try reflexivity; contradiction H; reflexivity. Qed.

End Mallocs.

(** Run the allocations at the head of a computation, in a world whose
    budget is a numeral. *)
Ltac run_mallocs :=
  repeat first
    [ rewrite (bind_eq _ _ _ _ _ (malloc_gives _ _ _ _ _ _));
      rewrite succ_not_NULL; unfold bind at 1, ret at 1
    | rewrite (bind_eq _ _ _ _ _ (malloc_none _ _ _ _ _));
      change (NULL =? NULL) with true; unfold bind at 1 ].

Ltac run_mallocs_in E :=
  repeat first
    [ rewrite (bind_eq _ _ _ _ _ (malloc_gives _ _ _ _ _ _)) in E;
      rewrite succ_not_NULL in E; unfold bind at 1, ret at 1 in E
    | rewrite (bind_eq _ _ _ _ _ (malloc_none _ _ _ _ _)) in E;
      change (NULL =? NULL) with true in E; unfold bind at 1 in E ].

Section SetUpFailures.

Context {zlib : Zlib} {build : Build} {archiver : Archiver}.

(** X7.  Running out of memory is fatal before anything else
    happens.  With a hint that selects Deflate both
    [AllocateCompressor] and [ReadDataFromArchive] take three blocks,
    with hint 0 one; when [malloc] has fewer to give they die with the
    out-of-memory message, with the handle and the log of calls as they
    were: no callback, no codec call and no [ahwrite] has run.  The
    blocks obtained before the one that failed are not given back. *)
Theorem out_of_memory_is_fatal (compression : Z) (wF : WriteFunc)
  (rF : ReadFunc) (fuel : nat) (w : world) (n : nat) :
  (selects_Deflate compression /\ HAVE_LIBZ = true /\ n = 3%nat)
  \/ (compression = 0%Z /\ ~ selects_Deflate 0 /\ n = 1%nat) ->
  (mem_budget w < n)%nat ->
  (fst (AllocateCompressor compression wF w) = Die OutOfMemory
   /\ AH (snd (AllocateCompressor compression wF w)) = AH w
   /\ trace (snd (AllocateCompressor compression wF w)) = trace w
   /\ length (heap (snd (AllocateCompressor compression wF w)))
      = (length (heap w) + mem_budget w)%nat)
  /\ (fst (ReadDataFromArchive fuel compression rF w) = Die OutOfMemory
      /\ AH (snd (ReadDataFromArchive fuel compression rF w)) = AH w
      /\ trace (snd (ReadDataFromArchive fuel compression rF w)) = trace w
      /\ length (heap (snd (ReadDataFromArchive fuel compression rF w)))
         = (length (heap w) + mem_budget w)%nat).
Proof.
  intros Hint Hb. destruct w as [ah h np mb tr]. cbn [mem_budget] in Hb.
  cbn [AH trace heap mem_budget].
  assert (Ea : exists w',
             AllocateCompressor compression wF (mk_world ah h np mb tr)
             = (Die OutOfMemory, w')
             /\ AH w' = ah /\ trace w' = tr
             /\ length (heap w') = (length h + mb)%nat).
  { destruct Hint as [(Hs & HL & ->) | (-> & Hs & ->)].
    - assert (Hmb : mb = 0%nat \/ mb = 1%nat \/ mb = 2%nat) by lia.
      destruct Hmb as [-> | [-> | ->]];
        (eexists; split;
         [ unfold AllocateCompressor;
           rewrite (bind_eq _ _ _ _ _ (Parse_Deflate compression true _ Hs));
           cbn [fst snd]; rewrite HL; cbn [negb andb is_LIBZ];
           unfold bind at 1, ret at 1; unfold InitCompressorZlib;
           run_mallocs; reflexivity
         | cbn [AH trace heap length]; repeat split; lia ]).
    - assert (mb = 0%nat) by lia. subst mb.
      eexists. split.
      + unfold AllocateCompressor.
        rewrite (bind_eq _ _ _ _ _ (Parse_None true _ Hs)).
        cbn [fst snd is_LIBZ]. rewrite !andb_false_r.
        unfold bind at 1, ret at 1. run_mallocs. reflexivity.
      + cbn [AH trace heap length]. repeat split; lia. }
  assert (Er : exists w',
             ReadDataFromArchive fuel compression rF (mk_world ah h np mb tr)
             = (Die OutOfMemory, w')
             /\ AH w' = ah /\ trace w' = tr
             /\ length (heap w') = (length h + mb)%nat).
  { destruct Hint as [(Hs & HL & ->) | (-> & Hs & ->)].
    - assert (Hmb : mb = 0%nat \/ mb = 1%nat \/ mb = 2%nat) by lia.
      destruct Hmb as [-> | [-> | ->]];
        (eexists; split;
         [ unfold ReadDataFromArchive;
           rewrite (bind_eq _ _ _ _ _ (Parse_Deflate compression false _ Hs));
           cbn [fst snd is_NONE is_LIBZ]; rewrite HL;
           unfold bind at 1, ret at 1; unfold ReadDataFromArchiveZlib;
           run_mallocs; reflexivity
         | cbn [AH trace heap length]; repeat split; lia ]).
    - assert (mb = 0%nat) by lia. subst mb.
      eexists. split.
      + unfold ReadDataFromArchive.
        rewrite (bind_eq _ _ _ _ _ (Parse_None false _ Hs)).
        cbn [fst snd is_NONE is_LIBZ].
        unfold ReadDataFromArchiveNone.
        unfold bind at 1. run_mallocs. reflexivity.
      + cbn [AH trace heap length]. repeat split; lia. }
  destruct Ea as (wa & -> & Ha). destruct Er as (wr & -> & Hr).
  cbn [fst snd]. split; (split; [reflexivity | assumption]).
Qed.

(** X8.  A codec that cannot be set up is fatal before anything else
    happens.  With a hint that selects Deflate and memory for the three
    blocks, [AllocateCompressor] hands the hint itself to [deflateInit]
    as the level; when that does not give [Z_OK], it dies with the
    could-not-initialize message, and so does [ReadDataFromArchive]
    when [inflateInit] does not give [Z_OK]: the handle and the log of
    calls are as they were, so [readF] has not been asked for a single
    chunk. *)
Theorem codec_setup_failure_is_fatal (compression : Z) (wF : WriteFunc)
  (rF : ReadFunc) (fuel : nat) (w : world) (b : nat) :
  HAVE_LIBZ = true ->
  selects_Deflate compression ->
  mem_budget w = S (S (S b)) ->
  (fst (deflateInit z_stream_fresh compression) <> Z_OK ->
   fst (AllocateCompressor compression wF w) = Die CouldNotInitialize
   /\ AH (snd (AllocateCompressor compression wF w)) = AH w
   /\ trace (snd (AllocateCompressor compression wF w)) = trace w)
  /\ (fst (inflateInit z_stream_fresh) <> Z_OK ->
      fst (ReadDataFromArchive fuel compression rF w) = Die CouldNotInitialize
      /\ AH (snd (ReadDataFromArchive fuel compression rF w)) = AH w
      /\ trace (snd (ReadDataFromArchive fuel compression rF w)) = trace w).
Proof.
  intros HL Hs Hb. destruct w as [ah h np mb tr]. cbn [mem_budget] in Hb.
  subst mb. cbn [AH trace]. split; intros Hbad.
  - assert (E : exists w',
               AllocateCompressor compression wF
                 (mk_world ah h np (S (S (S b))) tr)
               = (Die CouldNotInitialize, w')
               /\ AH w' = ah /\ trace w' = tr).
    { eexists. split.
      - unfold AllocateCompressor.
        rewrite (bind_eq _ _ _ _ _ (Parse_Deflate compression true _ Hs)).
        cbn [fst snd]. rewrite HL. cbn [negb andb is_LIBZ].
        unfold bind at 1, ret at 1. unfold InitCompressorZlib.
        run_mallocs.
        destruct (deflateInit z_stream_fresh compression) as [r z].
        cbn [fst] in Hbad. rewrite (zret_eqb_neq _ _ Hbad). cbn [negb].
        reflexivity.
      - split; reflexivity. }
    destruct E as (w' & -> & E). cbn [fst snd].
    split; [reflexivity | exact E].
  - assert (E : exists w',
               ReadDataFromArchive fuel compression rF
                 (mk_world ah h np (S (S (S b))) tr)
               = (Die CouldNotInitialize, w')
               /\ AH w' = ah /\ trace w' = tr).
    { eexists. split.
      - unfold ReadDataFromArchive.
        rewrite (bind_eq _ _ _ _ _ (Parse_Deflate compression false _ Hs)).
        cbn [fst snd is_NONE is_LIBZ]. rewrite HL.
        unfold bind at 1, ret at 1. unfold ReadDataFromArchiveZlib.
        run_mallocs.
        destruct (inflateInit z_stream_fresh) as [r z].
        cbn [fst] in Hbad. rewrite (zret_eqb_neq _ _ Hbad). cbn [negb].
        reflexivity.
      - split; reflexivity. }
    destruct E as (w' & -> & E). cbn [fst snd].
    split; [reflexivity | exact E].
Qed.

End SetUpFailures.

(** ** The ways to die *)

Section Deaths.

Context {zlib : Zlib} {build : Build} {archiver : Archiver}.

Lemma dies_in_weaken (S S' : fatal -> Prop) {A} (m : M A) :
  (forall e, S e -> S' e) -> dies_in S m -> dies_in S' m.
Proof. intros HS Hm w e w' H. apply HS. exact (Hm w e w' H). Qed.

Lemma dies_in_malloc S size : dies_in S (malloc size).
Proof.
  intros w e w' H. unfold malloc in H.
  destruct (mem_budget w); discriminate H.
Qed.

Ltac dies_as :=
  repeat match goal with
  | |- dies_in _ (bind _ _) => apply dies_in_bind; [ | intro]
  | |- dies_in _ (die_horribly _) =>
      apply dies_in_die;
      solve [unfold session_failure, reader_failure; auto 10]
  | |- dies_in _ (malloc _) => apply dies_in_malloc
  | |- dies_in _ (if ?b then _ else _) => destruct b eqn:?
  | |- dies_in _ (let (_, _) := ?r in _) => destruct r eqn:?
  | |- dies_in _ (match ?r with _ => _ end) => destruct r eqn:?
  | |- dies_in _ _ => solve [auto with pres]
  end.

Lemma session_dies_in_Deflate c fuel cs flush :
  dies_in (session_failure c) (DeflateCompressorZlib fuel cs flush).
Proof.
  eapply dies_in_weaken; [ | apply dies_in_Deflate].
  intros e [-> | ->]; unfold session_failure; auto 10.
Qed.

Lemma session_dies_in_Write c fuel cs data dLen :
  dies_in (session_failure c) (WriteDataToArchive fuel cs data dLen).
Proof.
  unfold WriteDataToArchive, WriteDataToArchiveZlib, WriteDataToArchiveNone,
    call_writeF.
  dies_as; apply session_dies_in_Deflate.
Qed.

Lemma session_dies_in_write_all c fuel : forall datas cs,
  dies_in (session_failure c) (write_all fuel cs datas).
Proof.
  induction datas as [ | d datas IH]; intros cs; cbn [write_all]; dies_as;
    first [apply session_dies_in_Write | apply IH].
Qed.

Lemma reader_dies_in_step c out z :
  dies_in (reader_failure c) (inflate_to_ahwrite out z).
Proof.
  unfold inflate_to_ahwrite, call_inflate, call_ahwrite. dies_as.
Qed.

Lemma reader_dies_in_chunk c out fuel : forall res z,
  dies_in (reader_failure c) (inflate_chunk fuel out res z).
Proof.
  induction fuel as [ | fuel IH]; intros res z; cbn [inflate_chunk]; dies_as;
    first [apply reader_dies_in_step | apply IH].
Qed.

Lemma reader_dies_in_drain c out fuel : forall res z,
  dies_in (reader_failure c) (inflate_drain fuel out res z).
Proof.
  induction fuel as [ | fuel IH]; intros res z; cbn [inflate_drain]; dies_as;
    first [apply reader_dies_in_step | apply IH].
Qed.

Lemma reader_dies_in_chunks c rF out fuel : forall buf buflen res z,
  dies_in (reader_failure c) (inflate_chunks fuel rF out buf buflen res z).
Proof.
  induction fuel as [ | fuel IH]; intros buf buflen res z;
    cbn [inflate_chunks]; unfold call_readF; dies_as;
    first [apply reader_dies_in_chunk | apply IH].
Qed.

Lemma reader_dies_in_copy c rF fuel : forall buf buflen,
  dies_in (reader_failure c) (copy_chunks fuel rF buf buflen).
Proof.
  induction fuel as [ | fuel IH]; intros buf buflen;
    cbn [copy_chunks]; unfold call_readF, call_ahwrite; dies_as;
    apply IH.
Qed.

(** X11.  Each entry point has its own ways to die.  A write session
    dies only with the message of an invalid hint, of a build without
    zlib, of no memory, of a failed set-up of the compressor, of a
    failed compression, of a short write or of a failed close of the
    stream; the reader only with the first three, with the message of
    a failed set-up, of a failed decompression or of a failed close of
    the library.  So the reader never reports a write error and the
    session never a decompression error, whatever the codec and the
    callbacks do. *)
Theorem deaths_of_each_entry_point (fuel : nat) (compression : Z)
  (wF : WriteFunc) (rF : ReadFunc) (datas : list (list byte)) (w : world)
  (e : fatal) :
  (fst (WriteSession fuel compression wF datas w) = Die e ->
   session_failure compression e)
  /\ (fst (ReadDataFromArchive fuel compression rF w) = Die e ->
      reader_failure compression e).
Proof.
  split; intros H.
  - destruct (WriteSession fuel compression wF datas w) as [o w'] eqn:E.
    cbn [fst] in H. subst o. revert w e w' E.
    change (dies_in (session_failure compression)
              (WriteSession fuel compression wF datas)).
    unfold WriteSession, AllocateCompressor, ParseCompressionOption,
      InitCompressorZlib, EndCompressor, EndCompressorZlib.
    dies_as;
      first [apply session_dies_in_write_all | apply session_dies_in_Deflate].
  - destruct (ReadDataFromArchive fuel compression rF w) as [o w'] eqn:E.
    cbn [fst] in H. subst o. revert w e w' E.
    change (dies_in (reader_failure compression)
              (ReadDataFromArchive fuel compression rF)).
    unfold ReadDataFromArchive, ParseCompressionOption,
      ReadDataFromArchiveNone, ReadDataFromArchiveZlib.
    dies_as;
      first [apply reader_dies_in_chunks | apply reader_dies_in_drain
            | apply reader_dies_in_copy].
Qed.

End Deaths.

(** ** No input for the Deflate reader *)

Section EmptyInput.

Context {zlib : Zlib} {build : Build} {archiver : Archiver}.

(** X13.  The Deflate reader asks the codec even when there is
    nothing to read.  When the first [readF] gives 0, the loop that
    runs until the end of the stream still calls [inflate] once, on no
    input; if its result is neither [Z_OK] nor [Z_STREAM_END] (zlib
    gives [Z_BUF_ERROR] there), the reader dies with the message of a
    failed decompression.  The log holds that [readF] and that
    [inflate] and nothing else, and the handle is as [readF] left it:
    [ahwrite] has not run.  The first [readF] is called with the
    reader's buffer of [ZLIB_IN_SIZE] bytes, the second of its three
    blocks. *)
Theorem empty_input_is_not_a_stream (fuel : nat) (compression : Z)
  (rF : ReadFunc) (w : world) (b : nat) (buf : ptr * list byte) (buflen : N)
  (ah' : ArchiveHandle) (m' : memory) :
  HAVE_LIBZ = true ->
  selects_Deflate compression ->
  mem_budget w = S (S (S b)) ->
  fst (inflateInit z_stream_fresh) = Z_OK ->
  let p : ptr := N.succ (next_ptr w) in
  let bp : ptr := N.succ p in
  let out : ptr := N.succ bp in
  rF (AH w)
    (mk_memory ((out, ZLIB_OUT_SIZE + 1) :: (bp, ZLIB_IN_SIZE)
                  :: (p, sizeof_z_stream) :: heap w) out b)
    (bp, []) ZLIB_IN_SIZE
  = ((0, buf, buflen), ah', m') ->
  let z0 := set_out (set_in (snd (inflateInit z_stream_fresh)) [] 0)
              [] ZLIB_OUT_SIZE in
  fst (inflate z0 Z_NO_FLUSH) <> Z_OK ->
  fst (inflate z0 Z_NO_FLUSH) <> Z_STREAM_END ->
  fst (ReadDataFromArchive (S fuel) compression rF w) = Die CouldNotUncompress
  /\ AH (snd (ReadDataFromArchive (S fuel) compression rF w)) = ah'
  /\ trace (snd (ReadDataFromArchive (S fuel) compression rF w))
     = trace w ++ [Ev_readF 0 (snd buf);
                   Ev_inflate z0 (fst (inflate z0 Z_NO_FLUSH))
                     (snd (inflate z0 Z_NO_FLUSH))].
Proof.
  intros HL Hs Hb Hinit p bp out HrF z0 Hok Hend. subst z0 p bp out.
  destruct w as [ah h np mb tr].
  cbn [mem_budget AH trace heap next_ptr] in *. subst mb.
  destruct (inflateInit z_stream_fresh) as [r zi] eqn:Ei.
  cbn [fst snd] in *. subst r.
  destruct (inflate (set_out (set_in zi [] 0) [] ZLIB_OUT_SIZE) Z_NO_FLUSH)
    as [res z'] eqn:Einf.
  cbn [fst snd] in *.
  assert (E : ReadDataFromArchive (S fuel) compression rF
                (mk_world ah h np (S (S (S b))) tr)
              = (Die CouldNotUncompress,
                 mk_world ah' (m_heap m') (m_next_ptr m') (m_mem_budget m')
                   ((tr ++ [Ev_readF 0 (snd buf)])
                      ++ [Ev_inflate (set_out (set_in zi [] 0) [] ZLIB_OUT_SIZE)
                            res z']))).
  { unfold ReadDataFromArchive.
    rewrite (bind_eq _ _ _ _ _ (Parse_Deflate compression false _ Hs)).
    cbn [fst snd is_NONE is_LIBZ]. rewrite HL.
    unfold bind at 1, ret at 1. unfold ReadDataFromArchiveZlib.
    run_mallocs. rewrite Ei. cbn [zret_eqb negb].
    unfold bind at 1, ret at 1.
    cbn [inflate_chunks inflate_drain].
    unfold call_readF, with_memory, log, inflate_to_ahwrite, call_inflate,
      log.
    cbv zeta. unfold bind, ret. cbn [AH heap next_ptr mem_budget trace].
    match goal with |- context [rF ?a ?m ?bf ?n] =>
      replace (rF a m bf n) with (0, buf, buflen, ah', m')
        by (symmetry; exact HrF)
    end.
    cbn [fst snd N.eqb negb zret_eqb set_in].
    rewrite Einf. cbn [fst snd].
    rewrite (zret_eqb_neq _ _ Hok), (zret_eqb_neq _ _ Hend).
    reflexivity. }
  rewrite E. cbn [fst snd AH trace]. rewrite <- app_assoc.
  split; [reflexivity | split; reflexivity].
Qed.

End EmptyInput.

(** ** Sessions and readers without compression *)

Section Plain.

Context {zlib : Zlib} {build : Build} {archiver : Archiver}.

Hypothesis zero_is_plain : ~ selects_Deflate 0.

Variable wF : WriteFunc.
Hypothesis takes_all : forall ah buf len, fst (wF ah buf len) = len.

Lemma WriteNone_logs cs data w :
  writeF cs = wF ->
  exists w',
    WriteDataToArchiveNone cs data (N.of_nat (length data)) w
    = (Ret (N.of_nat (length data), cs), w')
    /\ trace w' = trace w ++ plain_log [data]
    /\ heap w' = heap w.
Proof.
  intros HwF.
  unfold WriteDataToArchiveNone, call_writeF, with_AH, bind, log, ret.
  rewrite HwF.
  pose proof (takes_all (AH w) data (N.of_nat (length data))) as Hn.
  destruct (wF (AH w) data (N.of_nat (length data))) as [n ah'].
  cbn [fst] in Hn. subst n. rewrite N.eqb_refl. cbn [negb].
  eexists. split; [reflexivity | ]. split; reflexivity.
Qed.

Lemma write_all_logs f : forall datas cs w,
  comprAlg cs = COMPR_ALG_NONE -> writeF cs = wF ->
  exists w',
    write_all f cs datas w = (Ret cs, w')
    /\ trace w' = trace w ++ plain_log datas
    /\ heap w' = heap w.
Proof.
  induction datas as [ | d datas IH]; intros cs w Ha HwF.
  - exists w. cbn [plain_log map]. rewrite app_nil_r. auto.
  - cbn [write_all]. unfold WriteDataToArchive. rewrite Ha.
    destruct (WriteNone_logs cs d w HwF) as (w1 & E1 & T1 & H1).
    rewrite (bind_eq _ _ _ _ _ E1). cbn [snd].
    destruct (IH cs w1 Ha HwF) as (w' & E & T & H).
    exists w'. split; [exact E | ].
    rewrite T, T1, H, H1. cbn [plain_log map]. rewrite <- app_assoc.
    split; reflexivity.
Qed.

(** X12.  A session without compression is a pass-through.  With hint
    0, memory for the context and a [writeF] that takes every write
    whole, the session returns, and its log is one [writeF] for each
    write, with the data and the length it was given, in the order of
    the writes, and nothing else: the codec is never called and
    [EndCompressor] writes nothing.  A session of no writes logs
    nothing. *)
Theorem plain_session_is_a_pass_through (fuel : nat)
  (datas : list (list byte)) (w : world) (b : nat) :
  mem_budget w = S b ->
  fst (WriteSession fuel 0 wF datas w) = Ret tt
  /\ trace (snd (WriteSession fuel 0 wF datas w)) = trace w ++ plain_log datas.
Proof.
  intros Hb. destruct w as [ah h np mb tr]. cbn [mem_budget trace] in *.
  subst mb.
  assert (Ea : AllocateCompressor 0 wF (mk_world ah h np (S b) tr)
               = (Ret (mk_CompressorState (N.succ np) wF COMPR_ALG_NONE
                         None NULL 0),
                  mk_world ah ((N.succ np, sizeof_CompressorState) :: h)
                    (N.succ np) b tr)).
  { unfold AllocateCompressor.
    rewrite (bind_eq _ _ _ _ _ (Parse_None true _ zero_is_plain)).
    cbn [fst snd is_LIBZ]. rewrite !andb_false_r.
    unfold bind at 1, ret at 1. run_mallocs. reflexivity. }
  destruct (write_all_logs fuel datas
              (mk_CompressorState (N.succ np) wF COMPR_ALG_NONE None NULL 0)
              (mk_world ah ((N.succ np, sizeof_CompressorState) :: h)
                 (N.succ np) b tr)
              eq_refl eq_refl) as (w1 & E & T & H).
  cbn [trace heap] in T, H.
  assert (Es : WriteSession fuel 0 wF datas (mk_world ah h np (S b) tr)
               = (Ret tt,
                  mk_world (AH w1) (heap_remove (heap w1) (N.succ np))
                    (next_ptr w1) (mem_budget w1) (trace w1))).
  { unfold WriteSession. rewrite (bind_eq _ _ _ _ _ Ea).
    rewrite (bind_eq _ _ _ _ _ E).
    unfold EndCompressor. cbn [comprAlg is_LIBZ addr]. rewrite andb_false_r.
    unfold bind at 1, ret at 1.
    apply free_live. unfold live, block_size. rewrite H, succ_not_NULL.
    cbn [heap_size]. rewrite N.eqb_refl. reflexivity. }
  rewrite Es. split; [reflexivity | exact T].
Qed.

End Plain.

Section PlainReader.

Context {zlib : Zlib} {build : Build}.
#[local] Existing Instance Bench.recorder.

(** X14.  The reader without compression hands on what it is fed
    until the first empty chunk.  With hint 0, memory for its buffer
    and more fuel than there are chunks, [ReadDataFromArchive] returns,
    and what it has handed to [ahwrite] is, in order and byte for
    byte, the chunks that come before the first empty one: a chunk of
    length zero is the end of the input, and what follows it is not
    read. *)
Theorem plain_reader_stops_at_empty_chunk (fuel : nat) (w : world) (b : nat) :
  ~ selects_Deflate 0 ->
  mem_budget w = S b ->
  (length (Bench.to_read (AH w)) < fuel)%nat ->
  fst (ReadDataFromArchive fuel 0 feed w) = Ret tt
  /\ Bench.sink (AH (snd (ReadDataFromArchive fuel 0 feed w)))
     = Bench.sink (AH w)
         ++ concat (before_empty (Bench.to_read (AH w))).
Proof.
  intros Hz Hb Hf. destruct w as [ah h np mb tr].
  cbn [mem_budget AH] in *. subst mb.
  assert (Er : exists w3,
             ReadDataFromArchiveNone fuel feed
               (mk_world (archiver := Bench.recorder) ah h np (S b) tr)
             = (Ret tt, w3)
             /\ Bench.sink (AH w3)
                = Bench.sink ah ++ concat (before_empty (Bench.to_read ah))).
  { unfold ReadDataFromArchiveNone.
    rewrite (bind_eq _ _ _ _ _ (malloc_gives _ _ _ _ _ _)).
    rewrite succ_not_NULL. unfold bind at 1, ret at 1.
    destruct (copy_chunks_plain (Bench.to_read ah) fuel
                (@pair ptr _ (N.succ np) []) ZLIB_OUT_SIZE
                (mk_world (archiver := Bench.recorder) ah
                   ((N.succ np, ZLIB_OUT_SIZE) :: h) (N.succ np) b tr)
                eq_refl Hf) as (w2 & Ec & Hs & Hh).
    rewrite (bind_eq _ _ _ _ _ Ec). cbn [fst].
    cbn [AH heap] in Hs, Hh.
    eexists. split.
    - apply free_live. unfold live, block_size. rewrite Hh.
      rewrite succ_not_NULL. cbn [heap_size]. rewrite N.eqb_refl. reflexivity.
    - exact Hs. }
  destruct Er as (w3 & Er & Hs).
  unfold ReadDataFromArchive.
  rewrite (bind_eq _ _ _ _ _ (Parse_None false _ Hz)).
  cbn [fst snd is_NONE is_LIBZ].
  rewrite (bind_eq _ _ _ _ _ Er). unfold ret. cbn [fst snd].
  split; [reflexivity | exact Hs].
Qed.

End PlainReader.

(** ** What the entry points leave of the heap *)

Section Memory.

Context {zlib : Zlib} {build : Build} {archiver : Archiver}.

Lemma malloc_Ret size w p w' :
  malloc size w = (Ret p, w') -> (p =? NULL) = false ->
  p = N.succ (next_ptr w)
  /\ heap w' = (p, size) :: heap w /\ next_ptr w' = p.
Proof.
  unfold malloc. destruct (mem_budget w); intros H Hp; ret_inv H.
  - discriminate Hp.
  - auto.
Qed.

Lemma not_NULL_Ret p w u w' :
  (if p =? NULL then (die_horribly OutOfMemory : M unit) else ret tt) w
  = (Ret u, w') ->
  (p =? NULL) = false /\ w' = w.
Proof. destruct (p =? NULL); intros H; ret_inv H. auto. Qed.

Lemma heap_remove_above h p :
  Forall (fun b : ptr * N => fst b < p) h -> heap_remove h p = h.
Proof.
  induction 1 as [ | [q sz] h Hq _ IH]; cbn [heap_remove]; [reflexivity | ].
  cbn [fst] in Hq. destruct (q =? p) eqn:E.
  - apply N.eqb_eq in E. lia.
  - rewrite IH. reflexivity.
Qed.

Lemma heap_remove_head h p sz :
  Forall (fun b : ptr * N => fst b < p) h ->
  heap_remove ((p, sz) :: h) p = h.
Proof.
  intros H. cbn [heap_remove]. rewrite N.eqb_refl.
  apply heap_remove_above. exact H.
Qed.

Lemma heap_remove_next h p q sz :
  q <> p -> heap_remove ((q, sz) :: h) p = (q, sz) :: heap_remove h p.
Proof.
  intros H. cbn [heap_remove]. apply N.eqb_neq in H. rewrite H. reflexivity.
Qed.

Lemma heap_below_lt w p :
  heap_below w -> next_ptr w < p ->
  Forall (fun b : ptr * N => fst b < p) (heap w).
Proof.
  unfold heap_below. intros H Hp. eapply Forall_impl; [ | exact H].
  intros b Hb. eapply N.le_lt_trans; [exact Hb | exact Hp].
Qed.

Lemma free_heap p w u w' :
  free p w = (Ret u, w') -> (p =? NULL) = false ->
  heap w' = heap_remove (heap w) p.
Proof.
  unfold free. intros H Hp. rewrite Hp in H.
  destruct (live w p); ret_inv H. reflexivity.
Qed.

(** The loops of the readers leave the heap as it is. *)

Lemma same_heap_step out z : preserves same_heap (inflate_to_ahwrite out z).
Proof. unfold inflate_to_ahwrite, call_inflate, call_ahwrite. pres. Qed.

Lemma same_heap_chunk out fuel : forall res z,
  preserves same_heap (inflate_chunk fuel out res z).
Proof.
  induction fuel as [ | fuel IH]; intros res z; cbn [inflate_chunk]; pres.
  apply same_heap_step.
Qed.

Lemma same_heap_drain out fuel : forall res z,
  preserves same_heap (inflate_drain fuel out res z).
Proof.
  induction fuel as [ | fuel IH]; intros res z; cbn [inflate_drain]; pres.
  apply same_heap_step.
Qed.

Lemma kept_heap {A} (m : M A) w o w' :
  preserves same_heap m -> m w = (o, w') -> heap w' = heap w.
Proof. intros Hm E. specialize (Hm w). rewrite E in Hm. exact Hm. Qed.

(** The loops over the chunks keep the heap as it is but for the
    buffer, when [readF] keeps to its buffer. *)
Lemma chunks_buffer rF rest out :
  keeps_to_its_buffer rF ->
  forall fuel buf buflen res z w b r w',
    buffer_in rest (heap w) (fst buf) ->
    inflate_chunks fuel rF out buf buflen res z w = (Ret (b, r), w') ->
    buffer_in rest (heap w') b.
Proof.
  intros Hk. induction fuel as [ | fuel IH];
    intros buf buflen res z w b r w' Hb H; cbn [inflate_chunks] in H;
    [discriminate H | ].
  destruct (call_readF_keeps rF rest buf buflen w Hk Hb)
    as (r1 & w1 & E & Hb1 & _).
  rewrite (bind_eq _ _ _ _ _ E) in H. destruct r1 as [[cnt buf1] buflen1].
  cbn [fst snd] in Hb1. destruct (negb (cnt =? 0)).
  - apply bind_Ret in H. destruct H as (r2 & w2 & E2 & H).
    apply kept_heap in E2; [ | apply same_heap_chunk].
    eapply IH; [ | exact H]. rewrite E2. exact Hb1.
  - ret_inv H. exact Hb1.
Qed.

Lemma copy_buffer rF rest :
  keeps_to_its_buffer rF ->
  forall fuel buf buflen w b w',
    buffer_in rest (heap w) (fst buf) ->
    copy_chunks fuel rF buf buflen w = (Ret b, w') ->
    buffer_in rest (heap w') b.
Proof.
  intros Hk. induction fuel as [ | fuel IH];
    intros buf buflen w b w' Hb H; cbn [copy_chunks] in H;
    [discriminate H | ].
  destruct (call_readF_keeps rF rest buf buflen w Hk Hb)
    as (r1 & w1 & E & Hb1 & _).
  rewrite (bind_eq _ _ _ _ _ E) in H. destruct r1 as [[cnt buf1] buflen1].
  cbn [fst snd] in Hb1. destruct (negb (cnt =? 0)).
  - apply bind_Ret in H. destruct H as (u & w2 & E2 & H).
    apply kept_heap in E2;
      [ | unfold call_ahwrite; pres].
    eapply IH; [ | exact H]. rewrite E2. exact Hb1.
  - ret_inv H. exact Hb1.
Qed.

Lemma ReadNone_heap fuel rF w w' :
  keeps_to_its_buffer rF -> heap_below w ->
  ReadDataFromArchiveNone fuel rF w = (Ret tt, w') -> heap w' = heap w.
Proof.
  intros Hk Hw H. unfold ReadDataFromArchiveNone in H.
  apply bind_Ret in H. destruct H as (p & w1 & E1 & H).
  apply bind_Ret in H. destruct H as (u1 & w2 & E2 & H).
  apply not_NULL_Ret in E2. destruct E2 as [Np ->].
  apply bind_Ret in H. destruct H as (buf & w3 & E3 & H).
  destruct (malloc_Ret _ _ _ _ E1 Np) as (Ep & Hh & _).
  assert (F1 : Forall (fun b : ptr * N => fst b < p) (heap w))
    by (apply heap_below_lt; [exact Hw | lia]).
  assert (Hb : buffer_in (heap w) (heap w1) p).
  { split; [intros E; rewrite E in Np; discriminate | ].
    rewrite Hh. cbn [heap_size]. rewrite N.eqb_refl.
    split; [discriminate | apply heap_remove_head; exact F1]. }
  apply (copy_buffer rF (heap w) Hk fuel (@pair ptr _ p []) _ _ _ _ Hb) in E3.
  destruct E3 as (Nb & _ & Er).
  apply free_heap in H; [ | apply N.eqb_neq; exact Nb].
  rewrite H. exact Er.
Qed.

Lemma ReadZlib_heap fuel rF w w' :
  keeps_to_its_buffer rF -> heap_below w ->
  ReadDataFromArchiveZlib fuel rF w = (Ret tt, w') -> heap w' = heap w.
Proof.
  intros Hk Hw H. unfold ReadDataFromArchiveZlib in H.
  apply bind_Ret in H. destruct H as (p1 & w1 & E1 & H).
  apply bind_Ret in H. destruct H as (u1 & w1' & N1 & H).
  apply not_NULL_Ret in N1. destruct N1 as [N1 ->].
  apply bind_Ret in H. destruct H as (p2 & w2 & E2 & H).
  apply bind_Ret in H. destruct H as (u2 & w2' & N2 & H).
  apply not_NULL_Ret in N2. destruct N2 as [N2 ->].
  apply bind_Ret in H. destruct H as (p3 & w3 & E3 & H).
  apply bind_Ret in H. destruct H as (u3 & w3' & N3 & H).
  apply not_NULL_Ret in N3. destruct N3 as [N3 ->].
  destruct (malloc_Ret _ _ _ _ E1 N1) as (P1 & H1 & X1).
  destruct (malloc_Ret _ _ _ _ E2 N2) as (P2 & H2 & X2).
  destruct (malloc_Ret _ _ _ _ E3 N3) as (P3 & H3 & X3).
  destruct (inflateInit z_stream_fresh) as [r z].
  apply bind_Ret in H. destruct H as (u4 & w4 & E4 & H).
  assert (w4 = w3) by (destruct (negb (zret_eqb r Z_OK)); ret_inv E4; reflexivity).
  subst w4.
  apply bind_Ret in H. destruct H as ([buf r1] & w5 & E5 & H).
  apply bind_Ret in H. destruct H as (r2 & w6 & E6 & H).
  apply bind_Ret in H. destruct H as (u7 & w7 & E7 & H).
  assert (w7 = w6)
    by (destruct (negb (zret_eqb (fst (inflateEnd (snd r2))) Z_OK));
        ret_inv E7; reflexivity).
  subst w7.
  apply bind_Ret in H. destruct H as (u8 & w8 & E8 & H).
  apply bind_Ret in H. destruct H as (u9 & w9 & E9 & H).
  assert (L1 : next_ptr w < p1) by lia.
  assert (L2 : p1 < p2) by lia.
  assert (L3 : p2 < p3) by lia.
  pose proof (heap_below_lt w p1 Hw L1) as F1.
  pose proof (heap_below_lt w p2 Hw ltac:(lia)) as F2.
  pose proof (heap_below_lt w p3 Hw ltac:(lia)) as F3.
  assert (Hb : buffer_in ((p3, ZLIB_OUT_SIZE + 1) :: (p1, sizeof_z_stream)
                            :: heap w) (heap w3) p2).
  { split; [intros E; rewrite E in N2; discriminate | ].
    rewrite H3, H2, H1. cbn [heap_size].
    replace (p3 =? p2) with false by (symmetry; apply N.eqb_neq; lia).
    rewrite N.eqb_refl. split; [discriminate | ].
    rewrite (heap_remove_next _ p2 p3) by lia.
    rewrite (heap_remove_head _ p2) by (constructor; [cbn; lia | exact F2]).
    reflexivity. }
  apply (chunks_buffer rF _ p3 Hk fuel (@pair ptr _ p2 []) _ _ _ _ _ _ _ Hb)
    in E5.
  apply kept_heap in E6; [ | apply same_heap_drain].
  rewrite <- E6 in E5. destruct E5 as (Nb & _ & Er).
  apply free_heap in E8; [ | apply N.eqb_neq; exact Nb].
  apply free_heap in E9; [ | exact N3].
  apply free_heap in H; [ | exact N1].
  rewrite H, E9, E8, Er.
  rewrite (heap_remove_head _ p3) by (constructor; [cbn; lia | exact F3]).
  apply heap_remove_head. exact F1.
Qed.

(** X9.  The reader frees the buffer that [readF] left.  Whatever the
    hint and the codec, with a [readF] that keeps to its buffer (it
    leaves at the address it is handed the block that was there, or
    another that it put in its place, and no other block is touched), a
    [ReadDataFromArchive] that returns has given back what it took and
    what [readF] took in its stead: the heap is the one it was called
    with. *)
Theorem reader_gives_back_its_memory (fuel : nat) (compression : Z)
  (rF : ReadFunc) (w : world) :
  keeps_to_its_buffer rF ->
  heap_below w ->
  fst (ReadDataFromArchive fuel compression rF w) = Ret tt ->
  heap (snd (ReadDataFromArchive fuel compression rF w)) = heap w.
Proof.
  intros Hk Hw Hr.
  destruct (ReadDataFromArchive fuel compression rF w) as [o w'] eqn:H.
  cbn [fst snd] in *. subst o.
  unfold ReadDataFromArchive in H.
  apply bind_Ret in H. destruct H as ([alg l] & w0 & E & H).
  apply Parse_Ret in E. destruct E as (-> & [(-> & _) | (-> & _)]);
    cbn [fst is_NONE is_LIBZ] in H;
    apply bind_Ret in H; destruct H as (u & w1 & E1 & H).
  - ret_inv E1. destruct HAVE_LIBZ; [ | ret_inv H].
    eapply ReadZlib_heap; eassumption.
  - ret_inv H. destruct u. eapply ReadNone_heap; eassumption.
Qed.

End Memory.

Section SessionMemory.

Context {zlib : Zlib} {build : Build} {archiver : Archiver}.

Lemma steady_deref_zp h cs : zp cs <> None -> steady h (deref_zp cs).
Proof.
  intros H. unfold deref_zp.
  destruct (zp cs) as [[a z] | ]; [apply steady_ret | contradiction].
Qed.

Lemma same_context_zp cs cs' :
  same_context cs cs' -> zp cs <> None -> zp cs' <> None.
Proof.
  intros [z ->] H. unfold set_zp. cbn [zp].
  destruct (zp cs) as [[a y] | ]; [discriminate | contradiction].
Qed.

Lemma steady_body h cs flush :
  zp cs <> None -> steady h (DeflateCompressorZlib_body cs flush).
Proof.
  intros H. unfold DeflateCompressorZlib_body, call_deflate, call_writeF.
  cbv zeta.
  apply steady_bind; [apply steady_deref_zp; exact H | intro z]. steady.
Qed.

Lemma steady_Deflate h fuel : forall cs flush,
  zp cs <> None -> steady h (DeflateCompressorZlib fuel cs flush).
Proof.
  induction fuel as [ | fuel IH]; intros cs flush H;
    cbn [DeflateCompressorZlib];
    (apply steady_bind; [apply steady_deref_zp; exact H | intro z]);
    destruct (negb (avail_in z =? 0) || flush); try solve [auto with pres].
  apply steady_bind_post
    with (Q := fun r : CompressorState * bool => zp (fst r) <> None).
  - intros w [cs' stop] w' E. apply body_Ret in E. cbn [fst].
    eapply same_context_zp; eassumption.
  - apply steady_body. exact H.
  - intros [cs' stop] Hq. cbn [fst] in Hq.
    destruct stop; [apply steady_ret | apply IH; exact Hq].
Qed.

Lemma set_zp_not_None cs z : zp cs <> None -> zp (set_zp cs z) <> None.
Proof.
  intros H. unfold set_zp. cbn [zp].
  destruct (zp cs) as [[a y] | ]; [discriminate | contradiction].
Qed.

Lemma steady_Write h fuel cs data dLen :
  (comprAlg cs = COMPR_ALG_LIBZ -> zp cs <> None) ->
  steady h (WriteDataToArchive fuel cs data dLen).
Proof.
  intros H. unfold WriteDataToArchive. destruct (comprAlg cs) eqn:E.
  - unfold WriteDataToArchiveNone, call_writeF. steady.
  - destruct HAVE_LIBZ; [ | apply steady_die].
    unfold WriteDataToArchiveZlib.
    apply steady_bind; [apply steady_deref_zp; auto | intro z].
    apply steady_bind; [ | intro; apply steady_ret].
    apply steady_Deflate. apply set_zp_not_None. auto.
  - apply steady_ret.
Qed.

Lemma Write_akin fuel cs data dLen w k cs' w' :
  WriteDataToArchive fuel cs data dLen w = (Ret (k, cs'), w') ->
  cs' = cs \/ same_context cs cs'.
Proof.
  unfold WriteDataToArchive. intros H. destruct (comprAlg cs).
  - unfold WriteDataToArchiveNone in H.
    bind_inv H. bind_inv H. ret_inv H. left. reflexivity.
  - destruct HAVE_LIBZ; [ | ret_inv H].
    unfold WriteDataToArchiveZlib in H. bind_inv H. bind_inv H. ret_inv H.
    apply Deflate_Ret in E0. destruct E0 as [z' ->].
    right. exists z'. apply set_zp_set_zp.
  - ret_inv H. left. reflexivity.
Qed.

Lemma akin_trans cs1 cs2 cs3 :
  cs2 = cs1 \/ same_context cs1 cs2 ->
  cs3 = cs2 \/ same_context cs2 cs3 ->
  cs3 = cs1 \/ same_context cs1 cs3.
Proof.
  intros [-> | H1] [-> | H2]; auto.
  right. eapply same_context_trans; eassumption.
Qed.

Lemma akin_zp cs cs' :
  cs' = cs \/ same_context cs cs' ->
  (comprAlg cs = COMPR_ALG_LIBZ -> zp cs <> None) ->
  comprAlg cs' = COMPR_ALG_LIBZ -> zp cs' <> None.
Proof.
  intros [-> | H] Hz Ha; [auto | ].
  rewrite (same_context_comprAlg _ _ H) in Ha.
  eapply same_context_zp; [exact H | auto].
Qed.

Lemma steady_write_all h fuel : forall datas cs,
  (comprAlg cs = COMPR_ALG_LIBZ -> zp cs <> None) ->
  steady h (write_all fuel cs datas).
Proof.
  induction datas as [ | d datas IH]; intros cs H; cbn [write_all];
    [apply steady_ret | ].
  apply steady_bind_post
    with (Q := fun r : N * CompressorState =>
                 comprAlg (snd r) = COMPR_ALG_LIBZ -> zp (snd r) <> None).
  - intros w [k cs'] w' E. cbn [snd]. apply Write_akin in E.
    apply (akin_zp _ _ E H).
  - apply steady_Write. exact H.
  - intros [k cs'] Hq. apply IH. exact Hq.
Qed.

Lemma write_all_akin fuel : forall datas cs w cs' w',
  write_all fuel cs datas w = (Ret cs', w') ->
  cs' = cs \/ same_context cs cs'.
Proof.
  induction datas as [ | d datas IH]; intros cs w cs' w' H; cbn [write_all] in H.
  - ret_inv H. left. reflexivity.
  - bind_inv H. destruct a as [k cs1]. apply Write_akin in E.
    apply IH in H. cbn [snd] in H. eapply akin_trans; eassumption.
Qed.

Lemma free_head p sz h ah np mb tr :
  (p =? NULL) = false ->
  Forall (fun b : ptr * N => fst b < p) h ->
  free p (mk_world ah ((p, sz) :: h) np mb tr)
  = (Ret tt, mk_world ah h np mb tr).
Proof.
  intros Hp Hh. unfold free, live, block_size. rewrite Hp.
  cbn [heap heap_size AH next_ptr mem_budget trace].
  rewrite N.eqb_refl. rewrite heap_remove_head by exact Hh. reflexivity.
Qed.

(** [EndCompressor] on the context of a session, whose blocks are the
    last three that [malloc] gave out. *)
Lemma End_outcome fuel cs w h0 p1 p2 p3 s1 s2 s3 z :
  heap w = (p3, s3) :: (p2, s2) :: (p1, s1) :: h0 ->
  Forall (fun b : ptr * N => fst b < p1) h0 ->
  0 < p1 -> p1 < p2 -> p2 < p3 ->
  HAVE_LIBZ = true -> comprAlg cs = COMPR_ALG_LIBZ ->
  addr cs = p1 -> zlibOut cs = p3 -> zp cs = Some (p2, z) ->
  (forall f, fst (EndCompressor fuel cs w) <> Fault f)
  /\ (fst (EndCompressor fuel cs w) = Ret tt ->
      heap (snd (EndCompressor fuel cs w)) = h0).
Proof.
  intros Hh F1 L0 L1 L2 HL Ha A1 A3 Hzp.
  assert (F2 : Forall (fun b : ptr * N => fst b < p2) ((p1, s1) :: h0)).
  { constructor; [exact L1 | ].
    eapply Forall_impl; [ | exact F1]. intros b Hb.
    eapply N.lt_trans; [exact Hb | exact L1]. }
  assert (F3 : Forall (fun b : ptr * N => fst b < p3)
                 ((p2, s2) :: (p1, s1) :: h0)).
  { constructor; [exact L2 | ].
    eapply Forall_impl; [ | exact F2]. intros b Hb.
    eapply N.lt_trans; [exact Hb | exact L2]. }
  assert (N1 : (p1 =? NULL) = false) by (apply N.eqb_neq; unfold NULL; lia).
  assert (N2 : (p2 =? NULL) = false) by (apply N.eqb_neq; unfold NULL; lia).
  assert (N3 : (p3 =? NULL) = false) by (apply N.eqb_neq; unfold NULL; lia).
  assert (Hzp0 : zp (set_zp cs (set_in z [] 0)) <> None).
  { apply set_zp_not_None. rewrite Hzp. discriminate. }
  destruct (steady_Deflate (heap w) fuel _ true Hzp0 w eq_refl) as [Hnf Hkeep].
  destruct (EndCompressor fuel cs w) as [o w'] eqn:E. cbn [fst snd].
  unfold EndCompressor in E. rewrite HL, Ha in E. cbn [andb is_LIBZ] in E.
  unfold EndCompressorZlib, deref_zp in E. rewrite Hzp in E.
  unfold bind at 1 in E. unfold bind at 1 in E. unfold ret at 1 in E.
  unfold bind at 1 in E.
  destruct (DeflateCompressorZlib fuel (set_zp cs (set_in z [] 0)) true w)
    as [[cs1 | e | x | ] w1] eqn:ED; cbn [fst snd] in Hnf, Hkeep.
  - apply Deflate_Ret in ED. destruct ED as [z1 E1].
    rewrite set_zp_set_zp in E1. subst cs1.
    assert (Hzp1 : zp (set_zp cs z1) = Some (p2, z1))
      by (unfold set_zp; cbn [zp]; rewrite Hzp; reflexivity).
    unfold deref_zp in E. rewrite Hzp1 in E. unfold bind at 1, ret at 1 in E.
    unfold zp_addr in E. rewrite Hzp1 in E. cbn [zlibOut addr set_zp] in E.
    rewrite A1, A3 in E.
    destruct (negb (zret_eqb (fst (deflateEnd z1)) Z_OK)).
    + unfold bind, die_horribly in E. injection E as <- <-.
      split; [intros f Hf | intros Hf]; discriminate Hf.
    + unfold bind at 1, ret at 1 in E.
      destruct w1 as [ah1 hp1 np1 mb1 tr1]. cbn [heap] in Hkeep.
      rewrite Hh in Hkeep. subst hp1.
      rewrite (bind_eq _ _ _ _ _ (free_head p3 _ _ _ _ _ _ N3 F3)) in E.
      rewrite (free_head p2 _ _ _ _ _ _ N2 F2) in E. cbv beta iota in E.
      rewrite (free_head p1 _ _ _ _ _ _ N1 F1) in E. injection E as <- <-.
      split; [intros f Hf; discriminate Hf | reflexivity].
  - injection E as <- <-. split; [intros f Hf | intros Hf]; discriminate Hf.
  - exfalso. exact (Hnf x eq_refl).
  - injection E as <- <-. split; [intros f Hf | intros Hf]; discriminate Hf.
Qed.

(** The three ways [AllocateCompressor] ends: it dies, or it returns a
    context without compression in one new block, or a Deflate context
    in three. *)
Lemma Allocate_outcome compression wF w :
  (exists e w', AllocateCompressor compression wF w = (Die e, w'))
  \/ (exists cs w1 s1,
        AllocateCompressor compression wF w = (Ret cs, w1)
        /\ comprAlg cs = COMPR_ALG_NONE
        /\ addr cs = N.succ (next_ptr w)
        /\ heap w1 = (N.succ (next_ptr w), s1) :: heap w)
  \/ (exists cs w1 z s1 s2 s3,
        AllocateCompressor compression wF w = (Ret cs, w1)
        /\ HAVE_LIBZ = true
        /\ comprAlg cs = COMPR_ALG_LIBZ
        /\ addr cs = N.succ (next_ptr w)
        /\ zp cs = Some (N.succ (N.succ (next_ptr w)), z)
        /\ zlibOut cs = N.succ (N.succ (N.succ (next_ptr w)))
        /\ heap w1 = (N.succ (N.succ (N.succ (next_ptr w))), s3)
                       :: (N.succ (N.succ (next_ptr w)), s2)
                       :: (N.succ (next_ptr w), s1) :: heap w).
Proof.
  destruct w as [ah h np mb tr]. cbn [next_ptr heap].
  assert (D : selects_Deflate compression \/ ~ selects_Deflate compression).
  { unfold selects_Deflate.
    destruct (Z.eq_dec compression Z_DEFAULT_COMPRESSION); [tauto | ].
    destruct (Z_le_dec 1 compression); [ | right; lia].
    destruct (Z_le_dec compression 9); [left; right; lia | right; lia]. }
  destruct (AllocateCompressor compression wF (mk_world ah h np mb tr))
    as [o w1] eqn:E.
  unfold AllocateCompressor in E.
  destruct D as [D | D].
  - rewrite (bind_eq _ _ _ _ _ (Parse_Deflate compression true _ D)) in E.
    cbn [fst snd is_LIBZ] in E.
    destruct HAVE_LIBZ eqn:HL; cbn [negb andb] in E.
    2:{ left. injection E as <- <-. eexists. eexists. reflexivity. }
    unfold bind at 1, ret at 1 in E. unfold InitCompressorZlib in E.
    destruct mb as [ | [ | [ | b]]]; run_mallocs_in E;
      try (left; injection E as <- <-; eexists; eexists; reflexivity).
    destruct (deflateInit z_stream_fresh compression) as [r z].
    destruct (zret_eqb r Z_OK); cbn [negb] in E.
    + right. right. unfold bind at 1, ret at 1 in E. injection E as <- <-.
      eexists. eexists. exists (set_out z [] ZLIB_OUT_SIZE).
      eexists. eexists. eexists.
      split; [reflexivity | ]. cbn [comprAlg addr zp zlibOut heap].
      auto 10.
    + left. injection E as <- <-. eexists. eexists. reflexivity.
  - destruct (Z.eq_dec compression 0) as [-> | N0].
    + rewrite (bind_eq _ _ _ _ _ (Parse_None true _ D)) in E.
      cbn [fst snd is_LIBZ] in E. rewrite !andb_false_r in E.
      unfold bind at 1, ret at 1 in E.
      destruct mb as [ | b]; run_mallocs_in E; injection E as <- <-.
      * left. eexists. eexists. reflexivity.
      * right. left. eexists. eexists. eexists.
        split; [reflexivity | ]. cbn [comprAlg addr heap]. auto.
    + left. rewrite (bind_Die _ _ _ _ _ (Parse_invalid _ true _ D N0)) in E.
      injection E as <- <-. eexists. eexists. reflexivity.
Qed.

(** X10.  A write session is safe with memory.  Whatever the hint,
    the writes, the callback and the codec, a session has no undefined
    behaviour: it dereferences no null stream pointer and frees only
    blocks that are allocated.  When it returns, it has freed the
    context, the stream and the output buffer: the heap is the one it
    was called with. *)
Theorem write_session_is_safe_with_memory (fuel : nat) (compression : Z)
  (wF : WriteFunc) (datas : list (list byte)) (w : world) :
  heap_below w ->
  (forall f, fst (WriteSession fuel compression wF datas w) <> Fault f)
  /\ (fst (WriteSession fuel compression wF datas w) = Ret tt ->
      heap (snd (WriteSession fuel compression wF datas w)) = heap w).
Proof.
  intros Hw.
  destruct (WriteSession fuel compression wF datas w) as [o w'] eqn:E.
  cbn [fst snd]. unfold WriteSession in E.
  destruct (Allocate_outcome compression wF w)
    as [(e & w1 & Ea)
       | [(cs & w1 & s1 & Ea & Ha & A1 & Hh)
         | (cs & w1 & z & s1 & s2 & s3 & Ea & HL & Ha & A1 & Hzp & A3 & Hh)]].
  - rewrite (bind_Die _ _ _ _ _ Ea) in E. injection E as <- <-.
    split; [intros f Hf | intros Hf]; discriminate Hf.
  - rewrite (bind_eq _ _ _ _ _ Ea) in E.
    assert (Hz : comprAlg cs = COMPR_ALG_LIBZ -> zp cs <> None)
      by (rewrite Ha; discriminate).
    destruct (steady_write_all (heap w1) fuel datas cs Hz w1 eq_refl)
      as [Hnf Hkeep].
    unfold bind in E.
    destruct (write_all fuel cs datas w1) as [[cs' | e | x | ] w2] eqn:E2;
      cbn [fst snd] in Hnf, Hkeep.
    + pose proof (write_all_Ret _ _ _ _ _ _ E2) as Ha'.
      pose proof (write_all_akin _ _ _ _ _ _ E2) as Hk.
      assert (A1' : addr cs' = addr cs)
        by (destruct Hk as [-> | [y ->]]; reflexivity).
      unfold EndCompressor in E. rewrite Ha', Ha in E.
      cbn [is_LIBZ] in E. rewrite andb_false_r in E.
      unfold bind at 1, ret at 1 in E. rewrite A1', A1 in E.
      destruct w2 as [ah2 hp2 np2 mb2 tr2]. cbn [heap] in Hkeep.
      rewrite Hh in Hkeep. subst hp2.
      rewrite free_head in E.
      * injection E as <- <-.
        split; [intros f Hf; discriminate Hf | reflexivity].
      * apply succ_not_NULL.
      * apply heap_below_lt; [exact Hw | lia].
    + injection E as <- <-. split; [intros f Hf | intros Hf]; discriminate Hf.
    + exfalso. exact (Hnf x eq_refl).
    + injection E as <- <-. split; [intros f Hf | intros Hf]; discriminate Hf.
  - rewrite (bind_eq _ _ _ _ _ Ea) in E.
    assert (Hz : comprAlg cs = COMPR_ALG_LIBZ -> zp cs <> None)
      by (rewrite Hzp; discriminate).
    destruct (steady_write_all (heap w1) fuel datas cs Hz w1 eq_refl)
      as [Hnf Hkeep].
    unfold bind in E.
    destruct (write_all fuel cs datas w1) as [[cs' | e | x | ] w2] eqn:E2;
      cbn [fst snd] in Hnf, Hkeep.
    + pose proof (write_all_Ret _ _ _ _ _ _ E2) as Ha'.
      pose proof (write_all_akin _ _ _ _ _ _ E2) as Hk.
      assert (Hcs' : addr cs' = addr cs /\ zlibOut cs' = zlibOut cs
                     /\ exists z', zp cs' = Some (N.succ (N.succ (next_ptr w)), z')).
      { destruct Hk as [-> | [y ->]].
        - split; [reflexivity | split; [reflexivity | exists z; exact Hzp]].
        - split; [reflexivity | split; [reflexivity | exists y]].
          unfold set_zp. cbn [zp]. rewrite Hzp. reflexivity. }
      destruct Hcs' as (A1' & A3' & z' & Hzp').
      assert (Hh2 : heap w2
                    = (N.succ (N.succ (N.succ (next_ptr w))), s3)
                        :: (N.succ (N.succ (next_ptr w)), s2)
                        :: (N.succ (next_ptr w), s1) :: heap w)
        by congruence.
      assert (Fw : Forall (fun b : ptr * N => fst b < N.succ (next_ptr w))
                     (heap w))
        by (apply heap_below_lt; [exact Hw | lia]).
      destruct (End_outcome fuel cs' w2 (heap w)
                  (N.succ (next_ptr w)) (N.succ (N.succ (next_ptr w)))
                  (N.succ (N.succ (N.succ (next_ptr w)))) s1 s2 s3 z'
                  Hh2 Fw ltac:(lia) ltac:(lia) ltac:(lia) HL
                  ltac:(congruence) ltac:(congruence) ltac:(congruence) Hzp')
        as [Hf Hr].
      rewrite E in Hf, Hr. cbn [fst snd] in Hf, Hr. split; assumption.
    + injection E as <- <-. split; [intros f Hf | intros Hf]; discriminate Hf.
    + exfalso. exact (Hnf x eq_refl).
    + injection E as <- <-. split; [intros f Hf | intros Hf]; discriminate Hf.
Qed.

End SessionMemory.

(** ** The two halves of the Deflate round trip *)

Section Halves.

Context {zlib : Zlib} {build : Build}.
#[local] Existing Instance Bench.recorder.

Variable encodes : list byte -> list byte -> Prop.
Variable deflating :
  option internal_state -> bool -> list byte -> list byte -> Prop.
Variable inflating : option internal_state -> list byte -> list byte -> Prop.
Variables mu nu : z_stream -> nat.

(** X2.  With a codec that loses nothing, a Deflate session leaves a
    whole compressed stream.  For a hint from 1 to 9, memory for the
    three blocks and enough fuel, the session returns, and the chunks
    it has handed to [writeF], put end to end, are a complete
    compressed stream of the writes put end to end, however the data
    was cut into writes (empty writes included), as long as the length
    of every write is a [uInt]; none of the chunks is empty, and none
    is longer than the output buffer, whose size is a [uInt] too. *)
Theorem deflate_session_writes_a_whole_stream (compression : Z)
  (datas : list (list byte)) (w : world) (b : nat) :
  Lossless encodes deflating inflating mu nu ->
  HAVE_LIBZ = true ->
  0 < ZLIB_OUT_SIZE < 2 ^ 32 ->
  (1 <= compression <= 9)%Z ->
  mem_budget w = S (S (S b)) ->
  Bench.written (AH w) = [] ->
  Forall fits_uInt datas ->
  exists f0 w',
    (forall f, (f0 <= f)%nat ->
       WriteSession f compression collect datas w = (Ret tt, w'))
    /\ encodes (concat (Bench.written (AH w'))) (concat datas)
    /\ chunks_up_to ZLIB_OUT_SIZE (Bench.written (AH w')).
Proof.
  intros HL Hz [Hpos _] Hc Hb Hw Hd.
  destruct (WriteSession_collects encodes deflating inflating mu nu HL Hz Hpos
              compression datas w b Hc Hb Hw Hd)
    as ([] & w' & (Henc & Hne) & f0 & Hf).
  exists f0, w'. split; [exact Hf | split; assumption].
Qed.

(** X3.  With a codec that loses nothing, the Deflate reader does not
    depend on where the stream is cut.  If [c] is a compressed stream
    of [s], then for every way of cutting [c] into chunks none of which
    is empty and each of which has a length that is a [uInt],
    [ReadDataFromArchive], fed those chunks, returns with enough fuel
    and has handed exactly [s] to [ahwrite]. *)
Theorem deflate_reader_ignores_chunk_boundaries (compression : Z)
  (c s : list byte) (w : world) (b : nat) :
  Lossless encodes deflating inflating mu nu ->
  HAVE_LIBZ = true ->
  0 < ZLIB_OUT_SIZE < 2 ^ 32 ->
  selects_Deflate compression ->
  encodes c s ->
  mem_budget w = S (S (S b)) ->
  concat (Bench.to_read (AH w)) = c ->
  no_empty_chunk (Bench.to_read (AH w)) ->
  Forall fits_uInt (Bench.to_read (AH w)) ->
  Bench.sink (AH w) = [] ->
  exists f0 w',
    (forall f, (f0 <= f)%nat ->
       ReadDataFromArchive f compression feed w = (Ret tt, w'))
    /\ Bench.sink (AH w') = s.
Proof.
  intros HL Hz [Hpos Hfit] Hc Henc Hb Hcut Hne Hsh Hs.
  destruct (ReadZlib_delivers encodes deflating inflating mu nu HL Hpos Hfit
              c s Henc w b Hb Hcut Hne Hsh Hs)
    as ([] & w' & Hsink & f0 & Hf).
  exists f0, w'. split; [ | exact Hsink].
  intros f Hle. unfold ReadDataFromArchive.
  rewrite (bind_eq _ _ _ _ _ (Parse_Deflate compression false _ Hc)).
  cbn [fst snd is_NONE is_LIBZ]. rewrite Hz.
  unfold bind at 1, ret at 1. apply Hf. exact Hle.
Qed.

End Halves.

(** ** The properties above, each at a case *)

Section MoreWitnesses.

#[local] Existing Instance Bench.codec.
#[local] Existing Instance Bench.recorder.
Import Cases.

Lemma zero_is_plain_here : ~ selects_Deflate (build := with_zlib) 0.
Proof. intros [H | H]; [discriminate H | lia]. Qed.

Lemma deflate_round_trip_lossless_witness :
  Lossless BenchSpec.encodes BenchSpec.deflating BenchSpec.inflating
    BenchSpec.mu BenchSpec.nu
  /\ HAVE_LIBZ (Build := with_zlib) = true
  /\ 0 < ZLIB_OUT_SIZE (Build := with_zlib) < 2 ^ 32
  /\ (1 <= 5 <= 9)%Z
  /\ Forall fits_uInt [[x61]; []; [x62]]
  /\ exists f0, forall f, (f0 <= f)%nat ->
       round_trip (build := with_zlib) f 5 [[x61]; []; [x62]]
       = Some (concat [[x61]; []; [x62]]).
Proof.
  assert (H1 : HAVE_LIBZ (Build := with_zlib) = true) by reflexivity.
  assert (H2 : 0 < ZLIB_OUT_SIZE (Build := with_zlib) < 2 ^ 32)
    by (split; reflexivity).
  assert (H3 : (1 <= 5 <= 9)%Z) by lia.
  assert (H4 : Forall fits_uInt [[x61]; []; [x62]])
    by (repeat constructor).
  split; [exact bench_lossless | ].
  split; [exact H1 | split; [exact H2 | split; [exact H3 | ]]].
  split; [exact H4 | ].
  exact (deflate_round_trip_lossless (build := with_zlib)
           BenchSpec.encodes BenchSpec.deflating BenchSpec.inflating
           BenchSpec.mu BenchSpec.nu 5 [[x61]; []; [x62]]
           bench_lossless H1 H2 H3 H4).
Defined.

Lemma deflate_session_writes_a_whole_stream_witness :
  Lossless BenchSpec.encodes BenchSpec.deflating BenchSpec.inflating
    BenchSpec.mu BenchSpec.nu
  /\ HAVE_LIBZ (Build := with_zlib) = true
  /\ 0 < ZLIB_OUT_SIZE (Build := with_zlib) < 2 ^ 32
  /\ (1 <= 5 <= 9)%Z
  /\ mem_budget fresh_world = 8%nat
  /\ Bench.written (AH fresh_world) = []
  /\ Forall fits_uInt [[x61]; []; [x62]]
  /\ exists f0 w',
       (forall f, (f0 <= f)%nat ->
          WriteSession (build := with_zlib) f 5 collect [[x61]; []; [x62]]
            fresh_world = (Ret tt, w'))
       /\ BenchSpec.encodes (concat (Bench.written (AH w')))
            (concat [[x61]; []; [x62]])
       /\ chunks_up_to (ZLIB_OUT_SIZE (Build := with_zlib))
            (Bench.written (AH w')).
Proof.
  assert (H1 : HAVE_LIBZ (Build := with_zlib) = true) by reflexivity.
  assert (H2 : 0 < ZLIB_OUT_SIZE (Build := with_zlib) < 2 ^ 32)
    by (split; reflexivity).
  assert (H3 : (1 <= 5 <= 9)%Z) by lia.
  assert (H4 : Forall fits_uInt [[x61]; []; [x62]])
    by (repeat constructor).
  split; [exact bench_lossless | ].
  split; [exact H1 | split; [exact H2 | split; [exact H3 | ]]].
  split; [reflexivity | split; [reflexivity | split; [exact H4 | ]]].
  exact (deflate_session_writes_a_whole_stream (build := with_zlib)
           BenchSpec.encodes BenchSpec.deflating BenchSpec.inflating
           BenchSpec.mu BenchSpec.nu 5 [[x61]; []; [x62]] fresh_world 5
           bench_lossless H1 H2 H3 eq_refl eq_refl H4).
Defined.

Lemma deflate_reader_ignores_chunk_boundaries_witness :
  Lossless BenchSpec.encodes BenchSpec.deflating BenchSpec.inflating
    BenchSpec.mu BenchSpec.nu
  /\ HAVE_LIBZ (Build := with_zlib) = true
  /\ 0 < ZLIB_OUT_SIZE (Build := with_zlib) < 2 ^ 32
  /\ selects_Deflate (build := with_zlib) 5
  /\ BenchSpec.encodes (concat hi_chunks) [x68; x69]
  /\ mem_budget hi_world = 8%nat
  /\ no_empty_chunk (Bench.to_read (AH hi_world))
  /\ Forall fits_uInt (Bench.to_read (AH hi_world))
  /\ Bench.sink (AH hi_world) = []
  /\ exists f0 w',
       (forall f, (f0 <= f)%nat ->
          ReadDataFromArchive (build := with_zlib) f 5 feed hi_world
          = (Ret tt, w'))
       /\ Bench.sink (AH w') = [x68; x69].
Proof.
  assert (H1 : HAVE_LIBZ (Build := with_zlib) = true) by reflexivity.
  assert (H2 : 0 < ZLIB_OUT_SIZE (Build := with_zlib) < 2 ^ 32)
    by (split; reflexivity).
  assert (H3 : selects_Deflate (build := with_zlib) 5) by (right; lia).
  assert (H4 : BenchSpec.encodes (concat hi_chunks) [x68; x69])
    by reflexivity.
  assert (H5 : no_empty_chunk (Bench.to_read (AH hi_world)))
    by (repeat constructor; discriminate).
  assert (H6 : Forall fits_uInt (Bench.to_read (AH hi_world)))
    by (repeat constructor).
  split; [exact bench_lossless | ].
  split; [exact H1 | split; [exact H2 | split; [exact H3 | ]]].
  split; [exact H4 | split; [reflexivity | split; [exact H5 | ]]].
  split; [exact H6 | split; [reflexivity | ]].
  exact (deflate_reader_ignores_chunk_boundaries (build := with_zlib)
           BenchSpec.encodes BenchSpec.deflating BenchSpec.inflating
           BenchSpec.mu BenchSpec.nu 5 (concat hi_chunks) [x68; x69]
           hi_world 5 bench_lossless H1 H2 H3 H4 eq_refl eq_refl H5 H6
           eq_refl).
Defined.

Lemma plain_round_trip_nonempty_witness :
  ~ selects_Deflate (build := with_zlib) 0
  /\ Forall (fun d : list byte => d <> []) [[x61]; [x62; x63]]
  /\ (length [[x61]; [x62; x63]] < 3)%nat
  /\ round_trip (build := with_zlib) 3 0 [[x61]; [x62; x63]]
     = Some (concat [[x61]; [x62; x63]]).
Proof.
  assert (H1 : Forall (fun d : list byte => d <> []) [[x61]; [x62; x63]])
    by (repeat constructor; discriminate).
  assert (H2 : (length [[x61]; [x62; x63]] < 3)%nat) by (cbn; lia).
  split; [exact zero_is_plain_here | split; [exact H1 | split; [exact H2 | ]]].
  exact (plain_round_trip_nonempty (build := with_zlib) zero_is_plain_here
           3 [[x61]; [x62; x63]] H1 H2).
Defined.

Lemma empty_write_leaves_Deflate_alone_witness :
  HAVE_LIBZ (Build := with_zlib) = true
  /\ comprAlg (a_context collect) = COMPR_ALG_LIBZ
  /\ zp (a_context collect) = Some (2, a_stream)
  /\ WriteDataToArchive (build := with_zlib) 0 (a_context collect) [] 0
       its_world
     = (Ret (0, set_zp (a_context collect) (set_in a_stream [] 0)), its_world).
Proof.
  split; [reflexivity | split; [reflexivity | split; [reflexivity | ]]].
  exact (empty_write_leaves_Deflate_alone (build := with_zlib) 0
           (a_context collect) 2 a_stream [] its_world
           eq_refl eq_refl eq_refl).
Defined.

Lemma deflate_chunks_fit_the_buffer_witness :
  comprAlg (a_context collect) = COMPR_ALG_LIBZ
  /\ selects_Deflate (build := with_zlib) 5
  /\ emits (chunk_within (zlibOutSize (a_context collect))) its_world
       (snd (WriteDataToArchive (build := with_zlib) 10 (a_context collect)
               [x61; x62; x63] 3 its_world))
  /\ emits (chunk_within (ZLIB_OUT_SIZE (Build := with_zlib))) fresh_world
       (snd (WriteSession (build := with_zlib) 20 5 collect
               [[x61; x62; x63]; [x64]] fresh_world)).
Proof.
  assert (H1 : comprAlg (a_context collect) = COMPR_ALG_LIBZ) by reflexivity.
  assert (H2 : selects_Deflate (build := with_zlib) 5) by (right; lia).
  split; [exact H1 | split; [exact H2 | split]].
  - exact (proj1 (deflate_chunks_fit_the_buffer (build := with_zlib) 10
                    (a_context collect) [x61; x62; x63] 3 5 collect []
                    its_world H1 H2)).
  - exact (proj2 (proj2 (deflate_chunks_fit_the_buffer (build := with_zlib) 20
                           (a_context collect) [] 0 5 collect
                           [[x61; x62; x63]; [x64]] fresh_world H1 H2))).
Defined.

Lemma out_of_memory_is_fatal_witness :
  selects_Deflate (build := with_zlib) 5
  /\ HAVE_LIBZ (Build := with_zlib) = true
  /\ (mem_budget (start empty_handle 2) < 3)%nat
  /\ fst (AllocateCompressor (build := with_zlib) 5 collect
            (start empty_handle 2)) = Die OutOfMemory
  /\ fst (ReadDataFromArchive (build := with_zlib) 3 5 feed
            (start empty_handle 2)) = Die OutOfMemory.
Proof.
  assert (H1 : selects_Deflate (build := with_zlib) 5) by (right; lia).
  assert (H2 : HAVE_LIBZ (Build := with_zlib) = true) by reflexivity.
  assert (H3 : (mem_budget (start empty_handle 2) < 3)%nat) by (cbn; lia).
  split; [exact H1 | split; [exact H2 | split; [exact H3 | split]]].
  - exact (proj1 (proj1 (out_of_memory_is_fatal (build := with_zlib) 5 collect
                           feed 3 (start empty_handle 2) 3
                           (or_introl (conj H1 (conj H2 eq_refl))) H3))).
  - exact (proj1 (proj2 (out_of_memory_is_fatal (build := with_zlib) 5 collect
                           feed 3 (start empty_handle 2) 3
                           (or_introl (conj H1 (conj H2 eq_refl))) H3))).
Defined.

Lemma codec_setup_failure_is_fatal_witness :
  HAVE_LIBZ (Build := with_zlib) = true
  /\ selects_Deflate (build := with_zlib) 5
  /\ fst (deflateInit (Zlib := no_memory_codec) z_stream_fresh 5) <> Z_OK
  /\ fst (inflateInit (Zlib := no_memory_codec) z_stream_fresh) <> Z_OK
  /\ fst (AllocateCompressor (zlib := no_memory_codec) (build := with_zlib)
            5 collect (start (zlib := no_memory_codec) empty_handle 8))
     = Die CouldNotInitialize
  /\ fst (ReadDataFromArchive (zlib := no_memory_codec) (build := with_zlib)
            3 5 feed (start (zlib := no_memory_codec) empty_handle 8))
     = Die CouldNotInitialize.
Proof.
  assert (H1 : HAVE_LIBZ (Build := with_zlib) = true) by reflexivity.
  assert (H2 : selects_Deflate (build := with_zlib) 5) by (right; lia).
  assert (H3 : fst (deflateInit (Zlib := no_memory_codec) z_stream_fresh 5)
               <> Z_OK) by discriminate.
  assert (H4 : fst (inflateInit (Zlib := no_memory_codec) z_stream_fresh)
               <> Z_OK) by discriminate.
  split; [exact H1 | split; [exact H2 | split; [exact H3 | ]]].
  split; [exact H4 | split].
  - exact (proj1 (proj1 (codec_setup_failure_is_fatal
                           (zlib := no_memory_codec) (build := with_zlib)
                           5 collect feed 3
                           (start (zlib := no_memory_codec) empty_handle 8) 5
                           H1 H2 eq_refl) H3)).
  - exact (proj1 (proj2 (codec_setup_failure_is_fatal
                           (zlib := no_memory_codec) (build := with_zlib)
                           5 collect feed 3
                           (start (zlib := no_memory_codec) empty_handle 8) 5
                           H1 H2 eq_refl) H4)).
Defined.

Lemma below_fresh_ptr (h : list (ptr * N)) (np : ptr) :
  Forall (fun b : ptr * N => fst b < N.succ (fold_right N.max np (map fst h)))
    h.
Proof.
  induction h as [ | [q sz] h IH]; [constructor | ].
  cbn [map fold_right fst]. constructor; [cbn [fst]; lia | ].
  eapply Forall_impl; [ | exact IH]. intros b Hb. cbn beta in *. lia.
Qed.

Lemma below_heap_remove (h : list (ptr * N)) (p q : ptr) :
  Forall (fun b : ptr * N => fst b < p) h ->
  Forall (fun b : ptr * N => fst b < p) (heap_remove h q).
Proof.
  induction 1 as [ | [r sz] h Hr _ IH]; cbn [heap_remove]; [constructor | ].
  destruct (r =? q); [exact IH | constructor; assumption].
Qed.

(** A [readF] that puts another buffer in the place of the one it was
    given keeps to its buffer. *)
Lemma refeed_keeps : keeps_to_its_buffer refeed.
Proof.
  intros ah m buf buflen H. unfold refeed.
  destruct (Bench.to_read ah) as [ | c cs]; [exact H | ].
  cbv zeta. destruct (buflen <? N.of_nat (length c)); [ | exact H].
  cbn [fst snd m_heap]. unfold buffer_in.
  split; [unfold fresh_ptr, NULL; lia | ].
  cbn [heap_size]. rewrite N.eqb_refl. split; [discriminate | ].
  apply heap_remove_head. apply below_heap_remove. apply below_fresh_ptr.
Qed.

(** The reader of the whole stream in one chunk: [refeed] puts a buffer
    of five bytes in the place of the reader's, and that is the one that
    the reader frees. *)
Example refeed_replaces_the_buffer :
  snd (fst (fst (fst
    (refeed (Bench.mk_Handle [] [concat hi_chunks] [])
       (mk_memory [(3, 5); (2, 4); (1, 112)] 3 5) (2, []) 4))))
  = (4, concat hi_chunks).
Proof. reflexivity. Qed.

Lemma reader_gives_back_its_memory_witness :
  keeps_to_its_buffer refeed
  /\ heap_below whole_hi_world
  /\ fst (ReadDataFromArchive (build := with_zlib) 10 5 refeed whole_hi_world)
     = Ret tt
  /\ heap (snd (ReadDataFromArchive (build := with_zlib) 10 5 refeed
                  whole_hi_world))
     = heap whole_hi_world.
Proof.
  assert (H1 : heap_below whole_hi_world) by constructor.
  assert (H2 : fst (ReadDataFromArchive (build := with_zlib) 10 5 refeed
                      whole_hi_world) = Ret tt) by reflexivity.
  split; [exact refeed_keeps | split; [exact H1 | split; [exact H2 | ]]].
  exact (reader_gives_back_its_memory (build := with_zlib) 10 5 refeed
           whole_hi_world refeed_keeps H1 H2).
Defined.

Lemma write_session_is_safe_with_memory_witness :
  heap_below fresh_world
  /\ (forall f,
        fst (WriteSession (build := with_zlib) 20 5 collect
               [[x61]; []; [x62]] fresh_world) <> Fault f)
  /\ (fst (WriteSession (build := with_zlib) 20 5 collect
             [[x61]; []; [x62]] fresh_world) = Ret tt ->
      heap (snd (WriteSession (build := with_zlib) 20 5 collect
                   [[x61]; []; [x62]] fresh_world)) = heap fresh_world).
Proof.
  assert (H1 : heap_below fresh_world) by constructor.
  split; [exact H1 | ].
  exact (write_session_is_safe_with_memory (build := with_zlib) 20 5 collect
           [[x61]; []; [x62]] fresh_world H1).
Defined.

Lemma deaths_of_each_entry_point_witness :
  fst (WriteSession (build := with_zlib) 20 5 write_nothing [[x61]]
         fresh_world) = Die CouldNotWrite
  /\ session_failure 5 CouldNotWrite
  /\ fst (ReadDataFromArchive (build := with_zlib) 3 5 feed fresh_world)
     = Die CouldNotUncompress
  /\ reader_failure 5 CouldNotUncompress.
Proof.
  assert (H1 : fst (WriteSession (build := with_zlib) 20 5 write_nothing
                      [[x61]] fresh_world) = Die CouldNotWrite)
    by reflexivity.
  assert (H2 : fst (ReadDataFromArchive (build := with_zlib) 3 5 feed
                      fresh_world) = Die CouldNotUncompress)
    by reflexivity.
  split; [exact H1 | split; [ | split; [exact H2 | ]]].
  - exact (proj1 (deaths_of_each_entry_point (build := with_zlib) 20 5
                    write_nothing feed [[x61]] fresh_world CouldNotWrite) H1).
  - exact (proj2 (deaths_of_each_entry_point (build := with_zlib) 3 5
                    write_nothing feed [[x61]] fresh_world CouldNotUncompress)
             H2).
Defined.

Lemma collect_takes_all :
  forall (ah : Bench.Handle) (buf : list byte) (len : N),
    fst (collect ah buf len) = len.
Proof. intros ah buf len. reflexivity. Qed.

Lemma plain_session_is_a_pass_through_witness :
  ~ selects_Deflate (build := with_zlib) 0
  /\ (forall (ah : Bench.Handle) (buf : list byte) (len : N),
        fst (collect ah buf len) = len)
  /\ mem_budget fresh_world = 8%nat
  /\ fst (WriteSession (build := with_zlib) 0 0 collect [[x61]; []; [x62]]
            fresh_world) = Ret tt
  /\ trace (snd (WriteSession (build := with_zlib) 0 0 collect
                   [[x61]; []; [x62]] fresh_world))
     = trace fresh_world ++ plain_log [[x61]; []; [x62]].
Proof.
  split; [exact zero_is_plain_here | split; [exact collect_takes_all | ]].
  split; [reflexivity | ].
  exact (plain_session_is_a_pass_through (build := with_zlib)
           zero_is_plain_here collect collect_takes_all 0
           [[x61]; []; [x62]] fresh_world 7 eq_refl).
Defined.

Lemma empty_input_is_not_a_stream_witness :
  HAVE_LIBZ (Build := with_zlib) = true
  /\ selects_Deflate (build := with_zlib) 5
  /\ mem_budget fresh_world = 8%nat
  /\ fst (inflateInit z_stream_fresh) = Z_OK
  /\ feed (AH fresh_world) (mk_memory [(3, 5); (2, 4); (1, 112)] 3 5)
       (2, []) (ZLIB_IN_SIZE (Build := with_zlib))
     = ((0, (2, []), ZLIB_IN_SIZE (Build := with_zlib)), empty_handle,
        mk_memory [(3, 5); (2, 4); (1, 112)] 3 5)
  /\ fst (ReadDataFromArchive (build := with_zlib) 1 5 feed fresh_world)
     = Die CouldNotUncompress
  /\ AH (snd (ReadDataFromArchive (build := with_zlib) 1 5 feed fresh_world))
     = empty_handle.
Proof.
  assert (H1 : HAVE_LIBZ (Build := with_zlib) = true) by reflexivity.
  assert (H2 : selects_Deflate (build := with_zlib) 5) by (right; lia).
  assert (H3 : fst (inflateInit z_stream_fresh) = Z_OK) by reflexivity.
  assert (H4 : feed (AH fresh_world)
                 (mk_memory [(3, 5); (2, 4); (1, 112)] 3 5)
                 (2, []) (ZLIB_IN_SIZE (Build := with_zlib))
               = ((0, (2, []), ZLIB_IN_SIZE (Build := with_zlib)),
                  empty_handle, mk_memory [(3, 5); (2, 4); (1, 112)] 3 5))
    by reflexivity.
  assert (H5 : fst (inflate
                      (set_out (set_in (snd (inflateInit z_stream_fresh)) [] 0)
                         [] (ZLIB_OUT_SIZE (Build := with_zlib))) Z_NO_FLUSH)
               <> Z_OK) by discriminate.
  assert (H6 : fst (inflate
                      (set_out (set_in (snd (inflateInit z_stream_fresh)) [] 0)
                         [] (ZLIB_OUT_SIZE (Build := with_zlib))) Z_NO_FLUSH)
               <> Z_STREAM_END) by discriminate.
  split; [exact H1 | split; [exact H2 | split; [reflexivity | ]]].
  split; [exact H3 | split; [exact H4 | ]].
  pose proof (empty_input_is_not_a_stream (build := with_zlib) 0 5 feed
                fresh_world 5 (2, []) (ZLIB_IN_SIZE (Build := with_zlib))
                empty_handle (mk_memory [(3, 5); (2, 4); (1, 112)] 3 5)
                H1 H2 eq_refl H3 H4 H5 H6) as H.
  exact (conj (proj1 H) (proj1 (proj2 H))).
Defined.

Lemma plain_reader_stops_at_empty_chunk_witness :
  ~ selects_Deflate (build := with_zlib) 0
  /\ (length [[x61]; []; [x62]] < 4)%nat
  /\ fst (ReadDataFromArchive (build := with_zlib) 4 0 feed
            (start (Bench.mk_Handle [] [[x61]; []; [x62]] []) 8)) = Ret tt
  /\ Bench.sink
       (AH (snd (ReadDataFromArchive (build := with_zlib) 4 0 feed
                   (start (Bench.mk_Handle [] [[x61]; []; [x62]] []) 8))))
     = [x61].
Proof.
  assert (H1 : (length [[x61]; []; [x62]] < 4)%nat) by (cbn; lia).
  split; [exact zero_is_plain_here | split; [exact H1 | ]].
  exact (plain_reader_stops_at_empty_chunk (build := with_zlib) 4
           (start (Bench.mk_Handle [] [[x61]; []; [x62]] []) 8) 7
           zero_is_plain_here eq_refl H1).
Defined.

End MoreWitnesses.

(** ** The end of the input *)

Section EndOfInput.

Context {zlib : Zlib} {build : Build} {archiver : Archiver}.

Lemma quiet_is_open t : Forall asks_nothing t -> Forall asks_more t.
Proof.
  intros H. eapply Forall_impl; [ | exact H].
  intros e He. destruct e; try exact I. contradiction He.
Qed.

Lemma open_then_closed t1 t2 :
  Forall asks_more t1 -> eof_is_final t2 -> eof_is_final (t1 ++ t2).
Proof.
  induction 1 as [ | e t1 He _ IH]; intros H2; cbn [app]; [exact H2 | ].
  destruct e; cbn [eof_is_final asks_more] in *; auto.
  apply N.eqb_neq in He. rewrite He. auto.
Qed.

Lemma open_is_closed t : Forall asks_more t -> eof_is_final t.
Proof.
  intros H. rewrite <- (app_nil_r t). apply open_then_closed; [exact H | exact I].
Qed.

Lemma closed_then_quiet t1 t2 :
  eof_is_final t1 -> Forall asks_nothing t2 -> eof_is_final (t1 ++ t2).
Proof.
  induction t1 as [ | e t1 IH]; intros H1 H2; cbn [app].
  - apply open_is_closed, quiet_is_open. exact H2.
  - destruct e; cbn [eof_is_final] in *; auto.
    destruct (cnt =? 0); [ | auto].
    apply Forall_app. split; assumption.
Qed.

Lemma honours_prefix {A B} (m : M A) (k : A -> M B) :
  preserves (emits asks_more) m ->
  (forall a, preserves honours_eof (k a)) ->
  preserves honours_eof (bind m k).
Proof.
  intros Hm Hk w. unfold bind. specialize (Hm w).
  destruct (m w) as [[a | e | x | ] w1]; cbn [snd] in Hm;
    destruct Hm as (t1 & E1 & F1);
    try (exists t1; split; [exact E1 | apply open_is_closed; exact F1]).
  destruct (Hk a w1) as (t2 & E2 & F2).
  exists (t1 ++ t2). rewrite E2, E1, app_assoc.
  split; [reflexivity | apply open_then_closed; assumption].
Qed.

Lemma honours_suffix {A B} (m : M A) (k : A -> M B) :
  preserves honours_eof m ->
  (forall a, preserves (emits asks_nothing) (k a)) ->
  preserves honours_eof (bind m k).
Proof.
  intros Hm Hk w. unfold bind. specialize (Hm w).
  destruct (m w) as [[a | e | x | ] w1]; cbn [snd] in Hm;
    try exact Hm.
  destruct Hm as (t1 & E1 & F1).
  destruct (Hk a w1) as (t2 & E2 & F2).
  exists (t1 ++ t2). rewrite E2, E1, app_assoc.
  split; [reflexivity | apply closed_then_quiet; assumption].
Qed.

Lemma quiet_honours {A} (m : M A) :
  preserves (emits asks_nothing) m -> preserves honours_eof m.
Proof.
  intros Hm w. destruct (Hm w) as (t & E & F).
  exists t. split; [exact E | ]. apply open_is_closed, quiet_is_open. exact F.
Qed.

Lemma quiet_open {A} (m : M A) :
  preserves (emits asks_nothing) m -> preserves (emits asks_more) m.
Proof.
  intros Hm w. destruct (Hm w) as (t & E & F).
  exists t. split; [exact E | apply quiet_is_open; exact F].
Qed.

Lemma quiet_step out z :
  preserves (emits asks_nothing) (inflate_to_ahwrite out z).
Proof.
  unfold inflate_to_ahwrite. pres.
  - apply emits_call_inflate. intros r. exact I.
  - apply emits_call_ahwrite. exact I.
Qed.

Lemma quiet_chunk out fuel : forall res z,
  preserves (emits asks_nothing) (inflate_chunk fuel out res z).
Proof.
  induction fuel as [ | fuel IH]; intros res z; cbn [inflate_chunk]; pres.
  apply quiet_step.
Qed.

Lemma quiet_drain out fuel : forall res z,
  preserves (emits asks_nothing) (inflate_drain fuel out res z).
Proof.
  induction fuel as [ | fuel IH]; intros res z; cbn [inflate_drain]; pres.
  apply quiet_step.
Qed.

(** One turn of a loop that asks [readF]: after a [readF] that gave
    0 the loop is left; after another, [body] runs. *)
Lemma honours_readF {A} rF buf buflen
  (body done : N * (ptr * list byte) * N -> M A) :
  (forall r, preserves honours_eof (body r)) ->
  (forall r, preserves (emits asks_nothing) (done r)) ->
  preserves honours_eof
    (r <- call_readF rF buf buflen ;;
     if negb (fst (fst r) =? 0) then body r else done r).
Proof.
  intros Hb Hd w.
  unfold call_readF, with_memory, log. unfold bind at 1. unfold bind at 1.
  destruct (rF (AH w) _ buf buflen) as [[[[cnt b] bl] ah'] m'].
  unfold bind at 1. unfold ret. cbn [fst snd].
  destruct (cnt =? 0) eqn:Ec; cbn [negb].
  - match goal with
    | |- honours_eof _ (snd (done ?r ?w1)) =>
        destruct (Hd r w1) as (t & E & F)
    end.
    exists (Ev_readF cnt (snd b) :: t).
    split; [rewrite E; cbn [trace]; rewrite <- app_assoc; reflexivity | ].
    cbn [eof_is_final]. rewrite Ec. exact F.
  - match goal with
    | |- honours_eof _ (snd (body ?r ?w1)) =>
        destruct (Hb r w1) as (t & E & F)
    end.
    exists (Ev_readF cnt (snd b) :: t).
    split; [rewrite E; cbn [trace]; rewrite <- app_assoc; reflexivity | ].
    cbn [eof_is_final]. rewrite Ec. exact F.
Qed.

Lemma honours_chunks rF out fuel : forall buf buflen res z,
  preserves honours_eof (inflate_chunks fuel rF out buf buflen res z).
Proof.
  induction fuel as [ | fuel IH]; intros buf buflen res z;
    cbn [inflate_chunks].
  - apply quiet_honours. pres.
  - pose proof (honours_readF rF buf buflen
                  (fun r =>
                     r' <- inflate_chunk fuel out res
                             (set_in z (snd (snd (fst r)))
                                (to_uInt (fst (fst r)))) ;;
                     inflate_chunks fuel rF out (snd (fst r)) (snd r)
                       (fst r') (snd r'))
                  (fun r => ret (fst (snd (fst r)), (res, z)))) as H.
    intros w. specialize (H ltac:(intros r; apply honours_prefix;
                                    [apply quiet_open, quiet_chunk
                                    | intros a; apply IH])
                            ltac:(intros r; cbv beta; pres) w).
    unfold bind at 1 in H. unfold bind at 1.
    destruct (call_readF rF buf buflen w) as [[[[cnt b] bl] | e | x | ] w1];
      exact H.
Qed.

Lemma honours_copy rF fuel : forall buf buflen,
  preserves honours_eof (copy_chunks fuel rF buf buflen).
Proof.
  induction fuel as [ | fuel IH]; intros buf buflen; cbn [copy_chunks].
  - apply quiet_honours. pres.
  - pose proof (honours_readF rF buf buflen
                  (fun r =>
                     call_ahwrite (snd (snd (fst r))) 1 (fst (fst r)) ;;;
                     copy_chunks fuel rF (snd (fst r)) (snd r))
                  (fun r => ret (fst (snd (fst r))))) as H.
    intros w. specialize (H ltac:(intros r; apply honours_prefix;
                                    [apply emits_call_ahwrite; exact I
                                    | intros a; apply IH])
                            ltac:(intros r; cbv beta; pres) w).
    unfold bind at 1 in H. unfold bind at 1.
    destruct (call_readF rF buf buflen w) as [[[[cnt b] bl] | e | x | ] w1];
      exact H.
Qed.

Ltac quiet_prefix :=
  repeat match goal with
  | |- preserves honours_eof (bind (malloc _) _) =>
      apply honours_prefix; [apply emits_malloc | intro]
  | |- preserves honours_eof (bind (if _ then _ else _) _) =>
      apply honours_prefix; [pres | intro]
  | |- preserves honours_eof (let (_, _) := ?r in _) => destruct r
  end.

Lemma honours_Zlib fuel rF :
  preserves honours_eof (ReadDataFromArchiveZlib fuel rF).
Proof.
  unfold ReadDataFromArchiveZlib. quiet_prefix.
  apply honours_suffix; [apply honours_chunks | intros r].
  pres. apply quiet_drain.
Qed.

Lemma honours_None fuel rF :
  preserves honours_eof (ReadDataFromArchiveNone fuel rF).
Proof.
  unfold ReadDataFromArchiveNone. quiet_prefix.
  apply honours_suffix; [apply honours_copy | intros r]. pres.
Qed.

(** X15.  The end of the input is final.  In every run of
    [ReadDataFromArchive], whatever the hint, the callback and the
    codec, and however the run ends, [readF] is not called again once
    it has given 0. *)
Theorem reader_stops_asking_at_eof (fuel : nat) (compression : Z)
  (rF : ReadFunc) (w : world) :
  exists tr,
    trace (snd (ReadDataFromArchive fuel compression rF w)) = trace w ++ tr
    /\ eof_is_final tr.
Proof.
  revert w. change (preserves honours_eof
                      (ReadDataFromArchive fuel compression rF)).
  unfold ReadDataFromArchive.
  apply honours_prefix.
  { unfold ParseCompressionOption. pres. }
  intros [alg l]. cbn [fst]. destruct alg; cbn [is_NONE is_LIBZ].
  - apply honours_suffix; [apply honours_None | intros u; pres].
  - apply honours_prefix; [pres | intros u].
    destruct HAVE_LIBZ; [apply honours_Zlib | apply quiet_honours; pres].
  - apply quiet_honours. pres.
Qed.

End EndOfInput.

(** ** Short writes *)

Section ShortWrites.

Context {zlib : Zlib} {build : Build} {archiver : Archiver}.

Lemma whole_then_last t1 t2 :
  Forall whole_write t1 -> short_write_is_last t2 ->
  short_write_is_last (t1 ++ t2).
Proof.
  induction 1 as [ | e t1 He _ IH]; intros H2; cbn [app]; [exact H2 | ].
  destruct e; cbn [short_write_is_last whole_write] in *; auto.
  apply N.eqb_eq in He. rewrite He. auto.
Qed.

Lemma whole_is_last t : Forall whole_write t -> short_write_is_last t.
Proof.
  intros H. rewrite <- (app_nil_r t). apply whole_then_last; [exact H | exact I].
Qed.

Lemma stops_bind {A B} (m : M A) (k : A -> M B) :
  stops_at_short_write m -> (forall a, stops_at_short_write (k a)) ->
  stops_at_short_write (bind m k).
Proof.
  intros Hm Hk w. unfold bind. specialize (Hm w).
  destruct (m w) as [[a | e | x | ] w1]; cbn [fst snd] in Hm |- *;
    destruct Hm as (t1 & E1 & [F1 | [D1 F1]]);
    try discriminate D1;
    try (exists t1; split; [exact E1 | left; exact F1]).
  - destruct (Hk a w1) as (t2 & E2 & F2).
    exists (t1 ++ t2). rewrite E2, E1, app_assoc. split; [reflexivity | ].
    destruct F2 as [F2 | [D2 F2]].
    + left. apply Forall_app. split; assumption.
    + right. split; [exact D2 | apply whole_then_last; assumption].
  - injection D1 as ->. exists t1.
    split; [exact E1 | right; split; [reflexivity | exact F1]].
Qed.

Lemma stops_quiet {A} (m : M A) :
  preserves (emits whole_write) m -> stops_at_short_write m.
Proof.
  intros Hm w. destruct (Hm w) as (t & E & F). exists t. auto.
Qed.

Lemma call_writeF_run f buf len w :
  call_writeF f buf len w
  = (Ret (fst (f (AH w) buf len)),
     mk_world (snd (f (AH w) buf len)) (heap w) (next_ptr w) (mem_budget w)
       (trace w ++ [Ev_writeF buf len (fst (f (AH w) buf len))])).
Proof.
  unfold call_writeF, with_AH, log, bind, ret.
  destruct (f (AH w) buf len) as [n ah']. reflexivity.
Qed.

Lemma stops_call_writeF {A} f buf len (k : N -> M A) :
  (forall n, (n =? len) = true -> stops_at_short_write (k n)) ->
  (forall n w, (n =? len) = false -> k n w = (Die CouldNotWrite, w)) ->
  stops_at_short_write (bind (call_writeF f buf len) k).
Proof.
  intros Hok Hbad w.
  rewrite (bind_eq _ _ _ _ _ (call_writeF_run f buf len w)).
  destruct (f (AH w) buf len) as [n ah']. cbn [fst snd].
  destruct (n =? len) eqn:En.
  - destruct (Hok n En
                (mk_world ah' (heap w) (next_ptr w) (mem_budget w)
                   (trace w ++ [Ev_writeF buf len n]))) as (t & E & F).
    exists (Ev_writeF buf len n :: t).
    split; [rewrite E; cbn [trace]; rewrite <- app_assoc; reflexivity | ].
    destruct F as [F | [D F]].
    + left. constructor; [apply N.eqb_eq; exact En | exact F].
    + right. split; [exact D | ]. cbn [short_write_is_last].
      rewrite En. exact F.
  - rewrite (Hbad n _ En). cbn [fst snd trace].
    exists [Ev_writeF buf len n]. split; [reflexivity | ].
    right. split; [reflexivity | ]. cbn [short_write_is_last].
    rewrite En. reflexivity.
Qed.

Lemma stops_body cs flush :
  stops_at_short_write (DeflateCompressorZlib_body cs flush).
Proof.
  unfold DeflateCompressorZlib_body.
  apply stops_bind; [apply stops_quiet; pres | intros z].
  apply stops_bind.
  { apply stops_quiet. apply emits_call_deflate. intros r. exact I. }
  intros [res z1].
  apply stops_bind; [apply stops_quiet; pres | intros _].
  apply stops_bind; [ | intros z2; apply stops_quiet; pres].
  destruct ((flush && (avail_out z1 <? zlibOutSize cs))
            || (avail_out z1 =? 0) || negb (avail_in z1 =? 0));
    [ | apply stops_quiet; pres].
  apply stops_bind; [ | intros _; apply stops_quiet; pres].
  destruct (avail_out z1 <? zlibOutSize cs); [ | apply stops_quiet; pres].
  apply stops_call_writeF.
  - intros n En. rewrite En. apply stops_quiet. pres.
  - intros n w En. rewrite En. reflexivity.
Qed.

Lemma stops_Deflate fuel : forall cs flush,
  stops_at_short_write (DeflateCompressorZlib fuel cs flush).
Proof.
  induction fuel as [ | fuel IH]; intros cs flush;
    cbn [DeflateCompressorZlib];
    (apply stops_bind; [apply stops_quiet; pres | intros z]);
    destruct (negb (avail_in z =? 0) || flush);
    try solve [apply stops_quiet; pres].
  apply stops_bind; [apply stops_body | intros [cs' stop]].
  destruct stop; [apply stops_quiet; pres | apply IH].
Qed.

Lemma stops_Write fuel cs data dLen :
  stops_at_short_write (WriteDataToArchive fuel cs data dLen).
Proof.
  unfold WriteDataToArchive. destruct (comprAlg cs).
  - unfold WriteDataToArchiveNone. apply stops_call_writeF.
    + intros n En. rewrite En. apply stops_quiet. pres.
    + intros n w En. rewrite En. reflexivity.
  - destruct HAVE_LIBZ; [ | apply stops_quiet; pres].
    unfold WriteDataToArchiveZlib.
    apply stops_bind; [apply stops_quiet; pres | intros z].
    apply stops_bind; [apply stops_Deflate | intros c; apply stops_quiet; pres].
  - apply stops_quiet. pres.
Qed.

Lemma stops_write_all fuel : forall datas cs,
  stops_at_short_write (write_all fuel cs datas).
Proof.
  induction datas as [ | d datas IH]; intros cs; cbn [write_all].
  - apply stops_quiet. pres.
  - apply stops_bind; [apply stops_Write | intros r; apply IH].
Qed.

Lemma stops_End fuel cs : stops_at_short_write (EndCompressor fuel cs).
Proof.
  unfold EndCompressor.
  apply stops_bind; [ | intros _; apply stops_quiet; pres].
  destruct (HAVE_LIBZ && is_LIBZ (comprAlg cs)); [ | apply stops_quiet; pres].
  unfold EndCompressorZlib.
  apply stops_bind; [apply stops_quiet; pres | intros z].
  apply stops_bind; [apply stops_Deflate | intros c].
  apply stops_quiet. pres.
Qed.

(** X16.  A short write is fatal at once.  In every run of a write
    session, whatever the hint, the writes and the codec, either every
    [writeF] call took all the bytes it was given, or the session died
    with the could-not-write message; and a [writeF] call that took
    fewer is the last event of the log: after it the codec is not
    asked and [writeF] is not called again. *)
Theorem short_write_ends_the_session (fuel : nat) (compression : Z)
  (wF : WriteFunc) (datas : list (list byte)) (w : world) :
  exists tr,
    trace (snd (WriteSession fuel compression wF datas w)) = trace w ++ tr
    /\ short_write_is_last tr
    /\ (Forall whole_write tr
        \/ fst (WriteSession fuel compression wF datas w) = Die CouldNotWrite).
Proof.
  assert (H : stops_at_short_write (WriteSession fuel compression wF datas)).
  { unfold WriteSession.
    apply stops_bind; [apply stops_quiet; apply emits_Allocate | intros cs].
    apply stops_bind; [apply stops_write_all | intros cs'; apply stops_End]. }
  destruct (H w) as (tr & E & [F | [D F]]); exists tr.
  - split; [exact E | split; [apply whole_is_last; exact F | left; exact F]].
  - split; [exact E | split; [exact F | right; exact D]].
Qed.

End ShortWrites.

(** ** Input after the end of the stream *)

Section TrailingInput.

Context {zlib : Zlib} {build : Build} {archiver : Archiver}.

Hypothesis out_size_uInt : ZLIB_OUT_SIZE < 2 ^ 32.

Lemma stuck_step out z w :
  block_size w out = Some (ZLIB_OUT_SIZE + 1) ->
  inflate (set_out z [] ZLIB_OUT_SIZE) Z_NO_FLUSH
  = (Z_STREAM_END, set_out z [] ZLIB_OUT_SIZE) ->
  exists w',
    inflate_to_ahwrite out z w
    = (Ret (Z_STREAM_END, set_out z [] ZLIB_OUT_SIZE), w')
    /\ block_size w' out = Some (ZLIB_OUT_SIZE + 1).
Proof.
  intros Hb Hinf.
  unfold inflate_to_ahwrite, call_inflate. cbv zeta.
  unfold bind at 1. unfold bind at 1. unfold log at 1. unfold ret at 1.
  rewrite Hinf. cbn [fst snd zret_eqb negb andb].
  unfold bind at 1, ret at 1.
  cbn [set_out avail_out next_out].
  rewrite uInt_sub_exact by (try exact out_size_uInt; apply N.le_refl).
  rewrite N.sub_diag.
  unfold store at 1. unfold bind at 1.
  assert (Hb' : block_size
                  (mk_world (AH w) (heap w) (next_ptr w) (mem_budget w)
                     (trace w
                        ++ [Ev_inflate (set_out z [] ZLIB_OUT_SIZE)
                              Z_STREAM_END (set_out z [] ZLIB_OUT_SIZE)]))
                  out
                = Some (ZLIB_OUT_SIZE + 1)) by exact Hb.
  rewrite Hb'.
  assert (E0 : (0 <? ZLIB_OUT_SIZE + 1) = true) by (apply N.ltb_lt; lia).
  rewrite E0.
  unfold call_ahwrite, with_AH, log, bind, ret.
  eexists. split; [reflexivity | exact Hb].
Qed.

(** X17.  Input after the end of the stream can hang the reader.
    The inner loop of the Deflate reader runs while input is left and
    does not look at [Z_STREAM_END].  So when bytes are left in a chunk
    and the codec, having reported the end of the stream, takes none of
    them and stores nothing, the loop does not end: whatever the fuel,
    the run is out of fuel. *)
Theorem trailing_input_never_ends (out : ptr) (z : z_stream) :
  0 < avail_in z ->
  inflate (set_out z [] ZLIB_OUT_SIZE) Z_NO_FLUSH
  = (Z_STREAM_END, set_out z [] ZLIB_OUT_SIZE) ->
  forall fuel res w,
    block_size w out = Some (ZLIB_OUT_SIZE + 1) ->
    fst (inflate_chunk fuel out res z w) = Timeout.
Proof.
  intros Hin Hinf fuel. revert z Hin Hinf.
  induction fuel as [ | fuel IH]; intros z Hin Hinf res w Hb;
    cbn [inflate_chunk];
    apply N.ltb_lt in Hin; rewrite Hin; [reflexivity | ].
  destruct (stuck_step out z w Hb Hinf) as (w' & E & Hb').
  rewrite (bind_eq _ _ _ _ _ E). cbn [fst snd].
  apply IH; [apply N.ltb_lt; exact Hin | exact Hinf | exact Hb'].
Qed.

End TrailingInput.

Section TrailingInputCase.

#[local] Existing Instance Bench.codec.
#[local] Existing Instance Bench.recorder.
Import Cases.

Lemma trailing_input_never_ends_witness :
  ZLIB_OUT_SIZE (Build := with_zlib) < 2 ^ 32
  /\ 0 < avail_in (mk_z_stream [x00] 1 [] 0
                     (Some (Bench.mk_codec_state [] Bench.Ended)))
  /\ block_size its_world 3 = Some (ZLIB_OUT_SIZE (Build := with_zlib) + 1)
  /\ forall fuel,
       fst (inflate_chunk (build := with_zlib) fuel 3 Z_STREAM_END
              (mk_z_stream [x00] 1 [] 0
                 (Some (Bench.mk_codec_state [] Bench.Ended)))
              its_world) = Timeout.
Proof.
  assert (H1 : ZLIB_OUT_SIZE (Build := with_zlib) < 2 ^ 32) by reflexivity.
  assert (H2 : 0 < avail_in (mk_z_stream [x00] 1 [] 0
                               (Some (Bench.mk_codec_state [] Bench.Ended))))
    by reflexivity.
  assert (H3 : block_size its_world 3
               = Some (ZLIB_OUT_SIZE (Build := with_zlib) + 1))
    by reflexivity.
  split; [exact H1 | split; [exact H2 | split; [exact H3 | ]]].
  intros fuel.
  exact (trailing_input_never_ends (build := with_zlib) H1 3
           (mk_z_stream [x00] 1 [] 0
              (Some (Bench.mk_codec_state [] Bench.Ended)))
           H2 eq_refl fuel Z_STREAM_END its_world H3).
Defined.

End TrailingInputCase.
